(** * Sales dashboard: preprocessing pipeline and aggregation queries

    A shallow embedding of [data_preprocessing.py] (the pandas cleaning
    pipeline) and of [app.py] (the SQLite aggregation endpoints), followed
    by the properties of the specification that concern them.

    Conventions of the model.
    - Numbers (pandas float64/int64 cells, SQLite INTEGER/REAL values and
      Python ints and floats) are rationals in canonical form, [Qc].  The
      pandas side computes on them exactly.  On the SQLite side and in
      Python's arithmetic on query results every floating-point operation
      rounds its exact result to binary64 ([binary64]); infinities and NaN
      are not represented.
    - A whole number within the 64-bit range stands for an INTEGER, and a
      Python int, any other number for a REAL, and a Python float.  A REAL
      that happens to be whole is thereby treated as the INTEGER of the
      same value; SQLite and Python treat the two alike as long as the
      numbers and their sums stay below 2^53 in magnitude.
    - A pandas DataFrame is a list of named, typed columns of equal length;
      the row index is not modelled, so a frame without columns has no rows.
      Column names are unique, as [read_csv] makes them.
    - Object columns hold text or NaN, as [read_csv] produces them.
    - [df[col].fillna(v, inplace=True)] writes through to the frame, as it
      does in pandas without copy-on-write.
    - Printing is not modelled; an expression evaluated only to be printed
      is, because it can raise.
    - The SQLite store holds the single table [sales]; a query result is a
      list of dictionaries in the order the rows are returned.  Groups that
      tie in an ORDER BY come out in an order SQLite does not specify; the
      model fixes one, and no statement below depends on it.
    - SUM adds the rows of a group in the order of the table, in the way of
      SQLite's [sumStep]: exactly on INTEGER values, with an error when the
      64-bit range is left, and in binary64 as soon as a REAL value has
      been met. *)

From Stdlib Require Import ZArith QArith Qcanon Qround Qabs String Ascii Bool.
From Stdlib Require Import Lia Lqa List Permutation Sorted OrderedTypeEx.
Import ListNotations.

Local Close Scope Qc_scope.
Local Close Scope Q_scope.
Local Open Scope string_scope.
Local Open Scope list_scope.

(* ================================================================== *)
(** * Errors raised by Python and SQLite *)

(** [OperationalError column] is SQLite's "no such column"; its other
    errors have constructors of their own: "integer overflow" (an
    OperationalError), "datatype mismatch" (an IntegrityError), "duplicate
    column name" and the syntax error of a CREATE TABLE without columns
    (both OperationalError). *)
Inductive error : Type :=
| KeyError (key : string)
| AttributeError
| TypeError
| OperationalError (column : string)
| ValueError
| IntegerOverflow
| DatatypeMismatch
| DuplicateColumn (column : string)
| SyntaxError.

Inductive result (A : Type) : Type :=
| Ok (a : A)
| Err (e : error).

Arguments Ok {A} a.
Arguments Err {A} e.

Definition bind {A B : Type} (r : result A) (f : A -> result B) : result B :=
  match r with
  | Ok a => f a
  | Err e => Err e
  end.

Notation "x <- r ;; k" := (bind r (fun x => k))
  (at level 61, r at next level, right associativity).

Fixpoint mapM {A B : Type} (f : A -> result B) (l : list A) : result (list B) :=
  match l with
  | [] => Ok []
  | x :: t => y <- f x ;; ys <- mapM f t ;; Ok (y :: ys)
  end.

(* ================================================================== *)
(** * Numbers *)

Definition QcZ (z : Z) : Qc := Q2Qc (inject_Z z).
Definition Qc_of_nat (n : nat) : Qc := QcZ (Z.of_nat n).

Definition Qc_eqb (x y : Qc) : bool := Qeq_bool x y.
Definition Qc_leb (x y : Qc) : bool := Qle_bool x y.
Definition Qc_ltb (x y : Qc) : bool := negb (Qle_bool y x).

Definition qsum (l : list Qc) : Qc := fold_right Qcplus (QcZ 0) l.

(** To the nearest integer, a tie going to the even one. *)
Definition round_half_even (x : Q) : Z :=
  let f := Qfloor x in
  match Qcompare (x - inject_Z f) (1 # 2) with
  | Lt => f
  | Gt => (f + 1)%Z
  | Eq => if Z.even f then f else (f + 1)%Z
  end.

(** The decimal that [round(x, 2)] selects for the float [x]: the nearest
    multiple of 1/100 of the value [x] has, a tie going to the even one. *)
Definition round2 (x : Qc) : Qc :=
  Q2Qc (inject_Z (round_half_even (x * inject_Z 100)) / inject_Z 100).

(** ** Binary floating point *)

Definition pow2 (k : Z) : Q := Qpower (2 # 1) k.

(** The integer part of the base-2 logarithm of a positive rational. *)
Definition log2_floor (x : Q) : Z :=
  let k := (Z.log2 (Qnum x) - Z.log2 (Zpos (Qden x)))%Z in
  if Qle_bool (pow2 k) x then k else (k - 1)%Z.

(** The binary64 number nearest to [x], a tie going to the even
    significand: 53 significant bits, and steps of 2^-1074 in the
    subnormal range.  Overflow to infinity is outside the model. *)
Definition binary64 (x : Qc) : Qc :=
  if Qc_eqb x (QcZ 0) then QcZ 0
  else
    let e := Z.max (-1074) (log2_floor (Qabs x) - 52) in
    Q2Qc (inject_Z (round_half_even (x / pow2 e)) * pow2 e).

(** Python's [-], [/] and [*] on floats, and [round(x, 2)], which hands
    back the float nearest to the decimal it selects.  On ints Python
    subtracts exactly and divides with one rounding; the results are
    those of the float operations as long as the operands and their
    difference stay below 2^53 in magnitude. *)
Definition float_sub (a b : Qc) : Qc := binary64 (a - b)%Qc.
Definition float_div (a b : Qc) : Qc := binary64 (a / b)%Qc.
Definition float_mul (a b : Qc) : Qc := binary64 (a * b)%Qc.
Definition py_round2 (x : Qc) : Qc := binary64 (round2 x).

(** ** 64-bit integers *)

Definition min_int64 : Z := (- 2 ^ 63)%Z.
Definition max_int64 : Z := (2 ^ 63 - 1)%Z.

Definition int64 (z : Z) : bool := (min_int64 <=? z)%Z && (z <=? max_int64)%Z.

(** The INTEGER a number stands for, if it is whole and in range. *)
Definition sql_integer (q : Qc) : option Z :=
  let z := Qfloor q in
  if Qc_eqb q (QcZ z) && int64 z then Some z else None.

(* ================================================================== *)
(** * List utilities shared by the two components *)

Section ListUtil.
Context {A : Type}.

(** Values in order of first occurrence, as a hash table of seen values
    yields them. *)
Fixpoint distinct_from (eqb : A -> A -> bool) (seen l : list A) : list A :=
  match l with
  | [] => []
  | x :: t =>
      if existsb (eqb x) seen then distinct_from eqb seen t
      else x :: distinct_from eqb (x :: seen) t
  end.

Definition distinct (eqb : A -> A -> bool) (l : list A) : list A :=
  distinct_from eqb [] l.

(** Stable insertion sort. *)
Fixpoint insert_sorted (leb : A -> A -> bool) (x : A) (l : list A) : list A :=
  match l with
  | [] => [x]
  | y :: t => if leb x y then x :: y :: t else y :: insert_sorted leb x t
  end.

Fixpoint sort (leb : A -> A -> bool) (l : list A) : list A :=
  match l with
  | [] => []
  | x :: t => insert_sorted leb x (sort leb t)
  end.

Fixpoint list_eqb (eqb : A -> A -> bool) (l1 l2 : list A) : bool :=
  match l1, l2 with
  | [], [] => true
  | x :: t1, y :: t2 => eqb x y && list_eqb eqb t1 t2
  | _, _ => false
  end.

(** Sorted with respect to a boolean order. *)
Definition sorted_by (leb : A -> A -> bool) (l : list A) : Prop :=
  StronglySorted (fun a b => leb a b = true) l.

(** How many elements lie strictly below, and strictly above, a value. *)
Definition count_below (leb : A -> A -> bool) (m : A) (l : list A) : nat :=
  length (filter (fun x => negb (leb m x)) l).

Definition count_above (leb : A -> A -> bool) (m : A) (l : list A) : nat :=
  length (filter (fun x => negb (leb x m)) l).
End ListUtil.

(* ================================================================== *)
(** * The pandas side: cells, columns, frames *)

Record timestamp : Type := { ts_year : Z; ts_month : Z; ts_day : Z }.

Inductive cell : Type :=
| CNull                    (* NaN / None / NaT *)
| CNum (q : Qc)
| CStr (s : string)
| CDate (d : timestamp).

Inductive dtype : Type := Numeric | Object | Datetime.

Record column : Type :=
  { col_name : string; col_dtype : dtype; col_cells : list cell }.

Definition DataFrame : Type := list column.

Definition set_cells (c : column) (cells : list cell) : column :=
  {| col_name := col_name c; col_dtype := col_dtype c; col_cells := cells |}.

Definition names (df : DataFrame) : list string := map col_name df.

(** [col in df.columns] *)
Definition has_column (df : DataFrame) (n : string) : bool :=
  existsb (String.eqb n) (names df).

(** [df[col]] *)
Definition get_column (df : DataFrame) (n : string) : option column :=
  find (fun c => String.eqb (col_name c) n) df.

Definition nrows (df : DataFrame) : nat :=
  match df with
  | [] => 0
  | c :: _ => length (col_cells c)
  end.

Definition row (df : DataFrame) (i : nat) : list cell :=
  map (fun c => nth i (col_cells c) CNull) df.

Definition rows (df : DataFrame) : list (list cell) :=
  map (row df) (seq 0 (nrows df)).

Definition isnull (c : cell) : bool :=
  match c with CNull => true | _ => false end.

Definition null_count (cells : list cell) : nat :=
  length (filter isnull cells).

Definition timestamp_eqb (a b : timestamp) : bool :=
  Z.eqb (ts_year a) (ts_year b) && Z.eqb (ts_month a) (ts_month b)
  && Z.eqb (ts_day a) (ts_day b).

(** Equality of cells as [duplicated] sees it: missing values are equal to
    each other. *)
Definition cell_eqb (a b : cell) : bool :=
  match a, b with
  | CNull, CNull => true
  | CNum x, CNum y => Qc_eqb x y
  | CStr x, CStr y => String.eqb x y
  | CDate x, CDate y => timestamp_eqb x y
  | _, _ => false
  end.

(* ------------------------------------------------------------------ *)
(** ** Step 1: [select_columns] *)

Definition required_cols : list string :=
  [ "ORDERNUMBER"; "QUANTITYORDERED"; "PRICEEACH";
    "ORDERLINENUMBER"; "SALES"; "ORDERDATE";
    "STATUS"; "QTR_ID"; "MONTH_ID"; "YEAR_ID" ].

Definition available_cols (df : DataFrame) : list string :=
  filter (has_column df) required_cols.

Definition missing_cols (df : DataFrame) : list string :=
  filter (fun c => negb (has_column df c)) required_cols.

(** [df[available_cols].copy()]: the columns in the order of the list. *)
Definition select_columns (df : DataFrame) : DataFrame :=
  flat_map (fun n => match get_column df n with
                     | Some c => [c]
                     | None => []
                     end) (available_cols df).

(* ------------------------------------------------------------------ *)
(** ** Step 2: [handle_missing_data] *)

Definition nums (cells : list cell) : list Qc :=
  flat_map (fun c => match c with CNum q => [q] | _ => [] end) cells.

Definition strs (cells : list cell) : list string :=
  flat_map (fun c => match c with CStr s => [s] | _ => [] end) cells.

(** [Series.median()]: missing values are skipped; the middle value of the
    sorted values, or the mean of the two middle ones; NaN when there is
    none. *)
Definition median (xs : list Qc) : option Qc :=
  let s := sort Qc_leb xs in
  let n := length s in
  if Nat.eqb n 0 then None
  else if Nat.odd n then Some (nth (n / 2) s (QcZ 0))
  else Some ((nth (n / 2 - 1) s (QcZ 0) + nth (n / 2) s (QcZ 0)) / QcZ 2)%Qc.

Definition count_str (s : string) (l : list string) : nat :=
  length (filter (String.eqb s) l).

Definition max_count (l : list string) : nat :=
  fold_right (fun s m => Nat.max (count_str s l) m) 0 l.

(** [Series.mode()]: the most frequent non-missing values, in sorted order
    (pandas sorts the modes it returns). *)
Definition mode (l : list string) : list string :=
  sort String.leb
    (filter (fun s => Nat.eqb (count_str s l) (max_count l))
            (distinct String.eqb l)).

(** [Series.fillna(v)] *)
Definition fillna (v : cell) (cells : list cell) : list cell :=
  map (fun c => if isnull c then v else c) cells.

(** Body of the first loop, for one numeric column.  The median of a
    column without values is NaN, and filling with NaN changes nothing. *)
Definition fill_numeric (c : column) : column :=
  if Nat.ltb 0 (null_count (col_cells c)) then
    match median (nums (col_cells c)) with
    | Some m => set_cells c (fillna (CNum m) (col_cells c))
    | None => c
    end
  else c.

(** Body of the second loop, for one object column: [mode()[0]] raises
    [KeyError] on an empty result. *)
Definition fill_object (c : column) : result column :=
  if Nat.ltb 0 (null_count (col_cells c)) then
    match mode (strs (col_cells c)) with
    | m :: _ => Ok (set_cells c (fillna (CStr m) (col_cells c)))
    | [] => Err (KeyError "0")
    end
  else Ok c.

Definition is_numeric (c : column) : bool :=
  match col_dtype c with Numeric => true | _ => false end.

Definition is_object (c : column) : bool :=
  match col_dtype c with Object => true | _ => false end.

(** The two loops, one column at a time: first every numeric column, then
    every object column; the frame is returned when no [mode()[0]] raised. *)
Definition handle_missing_data (df : DataFrame) : result DataFrame :=
  let df1 := map (fun c => if is_numeric c then fill_numeric c else c) df in
  mapM (fun c => if is_object c then fill_object c else Ok c) df1.

(* ------------------------------------------------------------------ *)
(** ** Step 3: [handle_duplicates] *)

(** [DataFrame.duplicated()] with [keep='first']: a row is marked when an
    equal row has been seen before it. *)
Fixpoint duplicated_from (seen : list (list cell)) (rs : list (list cell))
  : list bool :=
  match rs with
  | [] => []
  | r :: t =>
      if existsb (list_eqb cell_eqb r) seen
      then true :: duplicated_from seen t
      else false :: duplicated_from (r :: seen) t
  end.

Definition duplicated (df : DataFrame) : list bool :=
  duplicated_from [] (rows df).

(** Positions, counted from [i], at which the mask is false. *)
Fixpoint unmarked (i : nat) (mask : list bool) : list nat :=
  match mask with
  | [] => []
  | true :: t => unmarked (S i) t
  | false :: t => i :: unmarked (S i) t
  end.

(** [df[-mask]]: the rows at the given positions, column by column. *)
Definition take (idx : list nat) (df : DataFrame) : DataFrame :=
  map (fun c => set_cells c (map (fun i => nth i (col_cells c) CNull) idx)) df.

(** [DataFrame.empty] *)
Definition empty (df : DataFrame) : bool :=
  match df with
  | [] => true
  | _ => Nat.eqb (nrows df) 0
  end.

Definition drop_duplicates (df : DataFrame) : DataFrame :=
  if empty df then df else take (unmarked 0 (duplicated df)) df.

Definition handle_duplicates (df : DataFrame) : DataFrame :=
  let initial_count := nrows df in
  let df' := drop_duplicates df in
  let removed_count := initial_count - nrows df' in
  df'.

(* ================================================================== *)
(** * The SQLite side: values, rows, the stored table *)

Inductive value : Type :=
| VNull
| VNum (q : Qc)
| VText (s : string).

(** A result row as [query_to_dict] builds it: column name to value, in
    SELECT order. *)
Definition dict : Type := list (string * value).

Record table : Type := { schema : list string; t_rows : list (list value) }.

(** SQLite's order on values: NULL, then numbers, then text (bytewise). *)
Definition value_compare (a b : value) : comparison :=
  match a, b with
  | VNull, VNull => Eq
  | VNull, _ => Lt
  | _, VNull => Gt
  | VNum x, VNum y => Qcompare x y
  | VNum _, VText _ => Lt
  | VText _, VNum _ => Gt
  | VText x, VText y => String.compare x y
  end.

Definition value_leb (a b : value) : bool :=
  match value_compare a b with Gt => false | _ => true end.

Definition value_eqb (a b : value) : bool :=
  match value_compare a b with Eq => true | _ => false end.

(** Keys of a GROUP BY / ORDER BY over several columns: lexicographic. *)
Fixpoint key_compare (k1 k2 : list value) : comparison :=
  match k1, k2 with
  | [], [] => Eq
  | [], _ :: _ => Lt
  | _ :: _, [] => Gt
  | a :: t1, b :: t2 =>
      match value_compare a b with
      | Eq => key_compare t1 t2
      | c => c
      end
  end.

Definition key_leb (k1 k2 : list value) : bool :=
  match key_compare k1 k2 with Gt => false | _ => true end.

Definition key_eqb (k1 k2 : list value) : bool :=
  match key_compare k1 k2 with Eq => true | _ => false end.

(** Dictionary access: [d[k]] for a key that is present, and [d[k] = v]. *)
Definition get (d : dict) (k : string) : value :=
  match find (fun kv => String.eqb (fst kv) k) d with
  | Some kv => snd kv
  | None => VNull
  end.

Fixpoint dict_set (d : dict) (k : string) (v : value) : dict :=
  match d with
  | [] => [(k, v)]
  | (k', v') :: t =>
      if String.eqb k' k then (k, v) :: t else (k', v') :: dict_set t k v
  end.

(** Column names are matched without regard to ASCII case by SQLite. *)
Definition ascii_upper (a : ascii) : ascii :=
  let n := nat_of_ascii a in
  if Nat.leb 97 n && Nat.leb n 122 then ascii_of_nat (n - 32) else a.

Fixpoint identifier_upper (s : string) : string :=
  match s with
  | EmptyString => EmptyString
  | String a t => String (ascii_upper a) (identifier_upper t)
  end.

Definition same_identifier (a b : string) : bool :=
  String.eqb (identifier_upper a) (identifier_upper b).

Fixpoint position (name : string) (cols : list string) : option nat :=
  match cols with
  | [] => None
  | c :: t =>
      if same_identifier c name then Some 0
      else match position name t with
           | Some i => Some (S i)
           | None => None
           end
  end.

(** A column reference in a statement: its position in the schema, or
    "no such column". *)
Definition sql_col (t : table) (name : string) : result nat :=
  match position name (schema t) with
  | Some i => Ok i
  | None => Err (OperationalError name)
  end.

Definition field (i : nat) (r : list value) : value := nth i r VNull.

(** The name under which a result column that is a bare column reference
    comes back: the name the table declares, whatever the case in which
    the statement writes it. *)
Definition column_name (t : table) (i : nat) : string := nth i (schema t) "".

(** [PRAGMA table_info(sales)] followed by Python's [name in columns]. *)
Definition pragma_has (t : table) (name : string) : bool :=
  existsb (String.eqb name) (schema t).

(** GROUP BY: one group per distinct key, holding the rows with that key. *)
Definition group_by (key : list value -> list value) (rs : list (list value))
  : list (list value * list (list value)) :=
  map (fun k => (k, filter (fun r => key_eqb (key r) k) rs))
      (distinct key_eqb (map key rs)).

(** LIMIT n: a negative limit means no limit. *)
Definition sql_limit {A : Type} (n : Z) (l : list A) : list A :=
  if (n <? 0)%Z then l else firstn (Z.to_nat n) l.

(** The limit is written into the statement as a literal; one that is not
    a 64-bit integer is read as a REAL, which LIMIT refuses when the
    statement starts to run. *)
Definition limit_value (n : Z) : result unit :=
  if int64 n then Ok tt else Err DatatypeMismatch.

Definition order_by_desc (k : string) (recs : list dict) : list dict :=
  sort (fun a b => value_leb (get b k) (get a k)) recs.

Definition not_null (v : value) : bool :=
  match v with VNull => false | _ => true end.

(** Python's [prev_sales > 0] and the arithmetic that follows, on the
    values SQLite handed back: None makes them raise. *)
Definition growth_rate (prev curr : value) : result value :=
  match prev with
  | VNum p =>
      if Qc_ltb (QcZ 0) p then
        match curr with
        | VNum c =>
            let growth := float_mul (float_div (float_sub c p) p) (QcZ 100) in
            Ok (VNum (py_round2 growth))
        | _ => Err TypeError
        end
      else Ok (VNum (QcZ 0))
  | _ => Err TypeError
  end.

(** The loop [for i in range(1, len(results))]; [prev] is [results[i-1]]
    as the previous iteration left it. *)
Fixpoint growth_loop (prev : dict) (rest : list dict) : result (list dict) :=
  match rest with
  | [] => Ok []
  | cur :: rest' =>
      g <- growth_rate (get prev "monthly_sales") (get cur "monthly_sales") ;;
      let cur' := dict_set cur "growth_rate" g in
      tl <- growth_loop cur' rest' ;;
      Ok (cur' :: tl)
  end.

Definition with_growth (results : list dict) : result (list dict) :=
  match results with
  | [] => Ok []
  | r0 :: rest =>
      tl <- growth_loop r0 rest ;;
      Ok (dict_set r0 "growth_rate" (VNum (QcZ 0)) :: tl)
  end.

Section Store.
(** SQLite's conversion of a text value to a number inside SUM and AVG. *)
Variable text_num : string -> Qc.

Definition sql_num (v : value) : list Qc :=
  match v with
  | VNull => []
  | VNum q => [q]
  | VText s => [text_num s]
  end.

(** The accumulator of SUM and AVG, and the step SQLite takes on each
    value that is not NULL: the floating-point sum is kept in every case,
    the integer sum as long as only INTEGER values have been met and it
    has stayed in range. *)
Record SumCtx : Type :=
  { rSum : Qc; iSum : Z; cnt : nat; overflow : bool; approx : bool }.

Definition sum_init : SumCtx :=
  {| rSum := QcZ 0; iSum := 0%Z; cnt := 0; overflow := false; approx := false |}.

Definition sumStep (p : SumCtx) (q : Qc) : SumCtx :=
  match sql_integer q with
  | Some v =>
      let r := binary64 (rSum p + binary64 (QcZ v))%Qc in
      if negb (approx p || overflow p) then
        if int64 (iSum p + v)
        then {| rSum := r; iSum := (iSum p + v)%Z; cnt := S (cnt p);
                overflow := false; approx := false |}
        else {| rSum := r; iSum := iSum p; cnt := S (cnt p);
                overflow := true; approx := true |}
      else {| rSum := r; iSum := iSum p; cnt := S (cnt p);
              overflow := overflow p; approx := approx p |}
  | None =>
      {| rSum := binary64 (rSum p + q)%Qc; iSum := iSum p; cnt := S (cnt p);
         overflow := overflow p; approx := true |}
  end.

Definition sum_ctx (vs : list value) : SumCtx :=
  fold_left sumStep (flat_map sql_num vs) sum_init.

(** SUM(x) ends in the error "integer overflow" when the integer sum has
    left the 64-bit range before any REAL value was met. *)
Definition sum_overflows (vs : list value) : bool := overflow (sum_ctx vs).

(** SUM(x) otherwise: NULL when no row has a non-NULL value, the integer
    sum of INTEGER values, the floating-point sum when a REAL is among
    them. *)
Definition sql_sum (vs : list value) : value :=
  let p := sum_ctx vs in
  match cnt p with
  | 0 => VNull
  | _ => if approx p then VNum (rSum p) else VNum (QcZ (iSum p))
  end.

(** AVG(x): the floating-point sum divided by the count; it does not
    raise on overflow. *)
Definition sql_avg (vs : list value) : value :=
  let p := sum_ctx vs in
  match cnt p with
  | 0 => VNull
  | _ => VNum (float_div (rSum p) (Qc_of_nat (cnt p)))
  end.

(** COUNT( * ) *)
Definition sql_count {A : Type} (rs : list A) : value :=
  VNum (Qc_of_nat (length rs)).

(** COUNT(DISTINCT x) *)
Definition sql_count_distinct (vs : list value) : value :=
  VNum (Qc_of_nat (length (distinct value_eqb (filter not_null vs)))).

(** The aggregates are computed for every group while the rows are
    scanned, before anything is sorted or cut: a SUM over one of the
    columns [cols] that overflows in any group makes the statement fail. *)
Definition check_overflow (cols : list nat) (groups : list (list (list value)))
  : result unit :=
  if existsb (fun rows =>
                existsb (fun c => sum_overflows (map (field c) rows)) cols)
             groups
  then Err IntegerOverflow
  else Ok tt.

(** API 2: sales by category (status). *)
Definition sales_by_category (t : table) : result (list dict) :=
  status <- sql_col t "STATUS" ;;
  sales <- sql_col t "SALES" ;;
  let groups := group_by (fun r => [field status r]) (t_rows t) in
  _ <- check_overflow [sales] (map snd groups) ;;
  Ok (order_by_desc "total_sales"
        (map (fun g =>
                [ ("category", field 0 (fst g));
                  ("total_sales", sql_sum (map (field sales) (snd g)));
                  ("order_count", sql_count (snd g));
                  ("avg_sales", sql_avg (map (field sales) (snd g))) ])
             groups)).

(** API 3: sales by country, if the column is there. *)
Definition sales_by_country (t : table) : result (list dict) :=
  if pragma_has t "COUNTRY" then
    country <- sql_col t "COUNTRY" ;;
    sales <- sql_col t "SALES" ;;
    let groups := group_by (fun r => [field country r]) (t_rows t) in
    _ <- check_overflow [sales] (map snd groups) ;;
    Ok (sql_limit 10
          (order_by_desc "total_sales"
             (map (fun g =>
                     [ (column_name t country, field 0 (fst g));
                       ("total_sales", sql_sum (map (field sales) (snd g)));
                       ("order_count", sql_count (snd g)) ])
                  groups)))
  else
    Ok [ [ ("message", VText "Country data not available in dataset") ] ].

(** API 4: the KPIs; the aggregate row and the nested status breakdown. *)
Record kpis : Type := { kpi_row : dict; status_breakdown : list dict }.

Definition get_kpis (t : table) : result kpis :=
  sales <- sql_col t "SALES" ;;
  ordernumber <- sql_col t "ORDERNUMBER" ;;
  quantity <- sql_col t "QUANTITYORDERED" ;;
  _ <- check_overflow [sales; quantity] [t_rows t] ;;
  let results :=
    [ [ ("total_revenue", sql_sum (map (field sales) (t_rows t)));
        ("total_orders",
          sql_count_distinct (map (field ordernumber) (t_rows t)));
        ("avg_order_value", sql_avg (map (field sales) (t_rows t)));
        ("total_quantity", sql_sum (map (field quantity) (t_rows t))) ] ] in
  status <- sql_col t "STATUS" ;;
  let status_results :=
    map (fun g => [ (column_name t status, field 0 (fst g));
                    ("count", sql_count (snd g)) ])
        (group_by (fun r => [field status r]) (t_rows t)) in
  Ok {| kpi_row := match results with r :: _ => r | [] => [] end;
        status_breakdown := status_results |}.

(** API 5: top customers; the two statements of the two branches.  With
    LIMIT 0 SQLite answers without scanning the table. *)
Definition top_by_customer (t : table) (limit : Z) : result (list dict) :=
  customer <- sql_col t "CUSTOMERNAME" ;;
  sales <- sql_col t "SALES" ;;
  ordernumber <- sql_col t "ORDERNUMBER" ;;
  _ <- limit_value limit ;;
  if (limit =? 0)%Z then Ok []
  else
    let groups := group_by (fun r => [field customer r]) (t_rows t) in
    _ <- check_overflow [sales] (map snd groups) ;;
    Ok (sql_limit limit
          (order_by_desc "total_sales"
             (map (fun g =>
                     [ ("customer_name", field 0 (fst g));
                       ("total_sales", sql_sum (map (field sales) (snd g)));
                       ("order_count",
                         sql_count_distinct (map (field ordernumber) (snd g)));
                       ("avg_order_value",
                         sql_avg (map (field sales) (snd g))) ])
                  groups))).

Definition top_by_order (t : table) (limit : Z) : result (list dict) :=
  ordernumber <- sql_col t "ORDERNUMBER" ;;
  sales <- sql_col t "SALES" ;;
  _ <- limit_value limit ;;
  if (limit =? 0)%Z then Ok []
  else
    let groups := group_by (fun r => [field ordernumber r]) (t_rows t) in
    _ <- check_overflow [sales] (map snd groups) ;;
    Ok (sql_limit limit
          (order_by_desc "total_sales"
             (map (fun g =>
                     [ ("order_id", field 0 (fst g));
                       ("total_sales", sql_sum (map (field sales) (snd g)));
                       ("line_items", sql_count (snd g)) ])
                  groups))).

Definition top_customers (t : table) (limit : Z) : result (list dict) :=
  if pragma_has t "CUSTOMERNAME" then top_by_customer t limit
  else top_by_order t limit.

(** API 6: sales trends, the monthly totals and their growth. *)
Definition monthly_sales (t : table) : result (list dict) :=
  year <- sql_col t "YEAR_ID" ;;
  month <- sql_col t "MONTH_ID" ;;
  sales <- sql_col t "SALES" ;;
  let groups := group_by (fun r => [field year r; field month r]) (t_rows t) in
  _ <- check_overflow [sales] (map snd groups) ;;
  Ok (map (fun g =>
             [ (column_name t year, field 0 (fst g));
               (column_name t month, field 1 (fst g));
               ("monthly_sales", sql_sum (map (field sales) (snd g))) ])
          (sort (fun g1 g2 => key_leb (fst g1) (fst g2)) groups)).

Definition sales_trends (t : table) : result (list dict) :=
  results <- monthly_sales t ;;
  with_growth results.

(** API 7: product performance, if the column is there. *)
Definition product_performance (t : table) : result (list dict) :=
  if pragma_has t "PRODUCTLINE" then
    product <- sql_col t "PRODUCTLINE" ;;
    sales <- sql_col t "SALES" ;;
    quantity <- sql_col t "QUANTITYORDERED" ;;
    ordernumber <- sql_col t "ORDERNUMBER" ;;
    let groups := group_by (fun r => [field product r]) (t_rows t) in
    _ <- check_overflow [sales; quantity] (map snd groups) ;;
    Ok (order_by_desc "total_sales"
          (map (fun g =>
                  [ ("product", field 0 (fst g));
                    ("total_sales", sql_sum (map (field sales) (snd g)));
                    ("total_quantity",
                      sql_sum (map (field quantity) (snd g)));
                    ("order_count",
                      sql_count_distinct
                        (map (field ordernumber) (snd g))) ])
               groups))
  else
    Ok [ [ ("message", VText "Product line data not available") ] ].
End Store.

(* ================================================================== *)
(** * The pipeline, steps 4 to 7 *)

(** [df[name]], failing as pandas does on an unknown label. *)
Definition getitem (df : DataFrame) (n : string) : result column :=
  match get_column df n with
  | Some c => Ok c
  | None => Err (KeyError n)
  end.

Definition series (df : DataFrame) (n : string) : list cell :=
  match get_column df n with
  | Some c => col_cells c
  | None => []
  end.

(** [df[name] = values]: replaces the column of that name, or appends a
    new last column. *)
Fixpoint set_column (df : DataFrame) (n : string) (ty : dtype)
  (cells : list cell) : DataFrame :=
  match df with
  | [] => [ {| col_name := n; col_dtype := ty; col_cells := cells |} ]
  | c :: t =>
      if String.eqb (col_name c) n
      then {| col_name := n; col_dtype := ty; col_cells := cells |} :: t
      else c :: set_column t n ty cells
  end.

(** A [Timestamp] is a calendar date. *)
Definition is_calendar_date (d : timestamp) : bool :=
  (1 <=? ts_month d)%Z && (ts_month d <=? 12)%Z
  && (1 <=? ts_day d)%Z && (ts_day d <=? 31)%Z.

(** [Series.dt.year], [.dt.month], [.dt.quarter]: NaN on NaT. *)
Definition dt_year (c : cell) : cell :=
  match c with CDate d => CNum (QcZ (ts_year d)) | _ => CNull end.

Definition dt_month (c : cell) : cell :=
  match c with CDate d => CNum (QcZ (ts_month d)) | _ => CNull end.

Definition quarter_of_month (m : Z) : Z := ((m - 1) / 3 + 1)%Z.

Definition dt_quarter (c : cell) : cell :=
  match c with
  | CDate d => CNum (QcZ (quarter_of_month (ts_month d)))
  | _ => CNull
  end.

Section Pipeline.
(** Library functions whose results the pipeline only passes on:
    [str.strip], [str.upper], the date parser behind [pd.to_datetime]
    and the text form in which [to_sql] writes a timestamp. *)
Variable str_strip : string -> string.
Variable str_upper : string -> string.
Variable parse_datetime : cell -> option timestamp.
Variable isoformat : timestamp -> string.

(** [Series.str.strip().str.upper()], element by element; what is not
    text becomes NaN. *)
Definition strip_upper (c : cell) : cell :=
  match c with
  | CStr s => CStr (str_upper (str_strip s))
  | _ => CNull
  end.

(** Step 4.  The [.str] accessor exists on object columns only; the
    [print] after the [if] reads [df['STATUS']] in every case. *)
Definition normalize_categories (df : DataFrame) : result DataFrame :=
  df1 <- (if has_column df "STATUS" then
            status <- getitem df "STATUS" ;;
            if is_object status
            then Ok (set_column df "STATUS" Object
                       (map strip_upper (col_cells status)))
            else Err AttributeError
          else Ok df) ;;
  _ <- getitem df1 "STATUS" ;;
  Ok df1.

(** [pd.to_datetime(..., errors='coerce')] on one element. *)
Definition to_datetime (c : cell) : cell :=
match (match c with
       | CNull => None
       | CDate d => Some d
       | _ => parse_datetime c
       end) with
| Some d => if is_calendar_date d then CDate d else CNull
| None => CNull
end.

(** Step 5. *)
Definition extract_date_features (df : DataFrame) : DataFrame :=
  if has_column df "ORDERDATE" then
    let df1 := set_column df "ORDERDATE" Datetime
                 (map to_datetime (series df "ORDERDATE")) in
    let df2 := if negb (has_column df1 "YEAR_ID")
               then set_column df1 "YEAR_ID" Numeric
                      (map dt_year (series df1 "ORDERDATE"))
               else df1 in
    let df3 := if negb (has_column df2 "MONTH_ID")
               then set_column df2 "MONTH_ID" Numeric
                      (map dt_month (series df2 "ORDERDATE"))
               else df2 in
    let df4 := if negb (has_column df3 "QTR_ID")
               then set_column df3 "QTR_ID" Numeric
                      (map dt_quarter (series df3 "ORDERDATE"))
               else df3 in
    df4
  else df.

(** Step 6 reports and returns the frame as it is; the rows with a
    negative SALES are counted, not removed.  [describe()] refuses a frame
    without columns, and [df['SALES'] < 0] raises when it meets text or a
    date. *)
Definition negative_sales (df : DataFrame) : nat :=
  length (filter (fun c => match c with
                           | CNum q => Qc_ltb q (QcZ 0)
                           | _ => false
                           end) (series df "SALES")).

Definition comparable_with_zero (c : column) : bool :=
  match col_dtype c with
  | Numeric => true
  | Object => forallb (fun x => match x with
                                | CStr _ | CDate _ => false
                                | _ => true
                                end) (col_cells c)
  | Datetime => false
  end.

Definition validate_data (df : DataFrame) : result DataFrame :=
  match df with
  | [] => Err ValueError
  | _ =>
      match get_column df "SALES" with
      | Some sales =>
          if comparable_with_zero sales then Ok df else Err TypeError
      | None => Ok df
      end
  end.

(** Step 7: [to_sql(..., if_exists='replace')] and the three indexes. *)
Definition cell_to_value (c : cell) : value :=
  match c with
  | CNull => VNull
  | CNum q => VNum q
  | CStr s => VText s
  | CDate d => VText (isoformat d)
  end.

Definition to_sql (df : DataFrame) : table :=
  {| schema := names df; t_rows := map (map cell_to_value) (rows df) |}.

(** The CREATE TABLE that [to_sql] issues: SQLite refuses a table without
    columns, and two columns whose names differ at most in case. *)
Fixpoint duplicate_column (seen cols : list string) : option string :=
  match cols with
  | [] => None
  | c :: rest =>
      if existsb (same_identifier c) seen then Some c
      else duplicate_column (c :: seen) rest
  end.

Definition create_table (cols : list string) : result unit :=
  match cols with
  | [] => Err SyntaxError
  | _ =>
      match duplicate_column [] cols with
      | Some c => Err (DuplicateColumn c)
      | None => Ok tt
      end
  end.

Definition create_index (t : table) (col : string) : result unit :=
  _ <- sql_col t col ;; Ok tt.

(** The table the call has written when it returns. *)
Definition store_in_database (df : DataFrame) : result table :=
  _ <- create_table (names df) ;;
  let t := to_sql df in
  _ <- create_index t "ORDERDATE" ;;
  _ <- create_index t "STATUS" ;;
  _ <- create_index t "YEAR_ID" ;;
  Ok t.

(** The database file holds the table [sales] or no table. *)
Definition database : Type := option table.

(** What the call leaves in the file, also when it raises.  [to_sql]
    drops the table that is there and commits the new one before the
    first index is created, so an error in CREATE INDEX leaves the new
    table behind; an error in CREATE TABLE leaves no table. *)
Definition database_after_store (df : DataFrame) : database :=
  match create_table (names df) with
  | Ok _ => Some (to_sql df)
  | Err _ => None
  end.

(** The pipeline on a loaded frame: the processed frame and the table
    left in the store. *)
Definition main (df : DataFrame) : result (DataFrame * table) :=
  let df := select_columns df in
  df <- handle_missing_data df ;;
  let df := handle_duplicates df in
  df <- normalize_categories df ;;
  let df := extract_date_features df in
  df <- validate_data df ;;
  t <- store_in_database df ;;
  Ok (df, t).

(** The frame as it reaches the store step, if it does. *)
Definition preprocess (df : DataFrame) : result DataFrame :=
  let df := select_columns df in
  df <- handle_missing_data df ;;
  let df := handle_duplicates df in
  df <- normalize_categories df ;;
  let df := extract_date_features df in
  validate_data df.

(** What a run of [main] leaves in a database file that held [db]: the
    file is not touched before the store step. *)
Definition database_after_main (df : DataFrame) (db : database) : database :=
  match preprocess df with
  | Ok df' => database_after_store df'
  | Err _ => db
  end.
End Pipeline.

(* ================================================================== *)
(** * The SQLite side: sales over time *)

Section OverTime.
(** SQLite's conversion of a text value to a number inside SUM, the text
    form it gives a number under [||], and [printf('%02d', x)]. *)
Variable text_num : string -> Qc.
Variable num_text : Qc -> string.
Variable printf_02d : value -> string.

Definition sql_text (v : value) : option string :=
  match v with
  | VNull => None
  | VNum q => Some (num_text q)
  | VText s => Some s
  end.

(** [a || b]: NULL when either side is NULL. *)
Definition sql_concat (a b : value) : value :=
  match sql_text a, sql_text b with
  | Some x, Some y => VText (String.append x y)
  | _, _ => VNull
  end.

(** The rows of one of the four statements: groups in ascending order of
    the grouping columns, labelled by [label]. *)
Definition period_rows (sales : nat) (key : list value -> list value)
  (label : list value -> value) (rs : list (list value)) : result (list dict) :=
  let groups := group_by key rs in
  _ <- check_overflow text_num [sales] (map snd groups) ;;
  Ok (map (fun g =>
             [ ("date", label (fst g));
               ("total_sales", sql_sum text_num (map (field sales) (snd g)));
               ("order_count", sql_count (snd g)) ])
          (sort (fun g1 g2 => key_leb (fst g1) (fst g2)) groups)).

(** API 1: sales over time; any period other than day, month and quarter
    is answered by year. *)
Definition sales_over_time (period : string) (t : table) : result (list dict) :=
  if String.eqb period "day" then
    orderdate <- sql_col t "ORDERDATE" ;;
    sales <- sql_col t "SALES" ;;
    period_rows sales (fun r => [field orderdate r])
      (fun k => field 0 k) (t_rows t)
  else if String.eqb period "month" then
    year <- sql_col t "YEAR_ID" ;;
    month <- sql_col t "MONTH_ID" ;;
    sales <- sql_col t "SALES" ;;
    period_rows sales (fun r => [field year r; field month r])
      (fun k => sql_concat (sql_concat (field 0 k) (VText "-"))
                           (VText (printf_02d (field 1 k))))
      (t_rows t)
  else if String.eqb period "quarter" then
    year <- sql_col t "YEAR_ID" ;;
    quarter <- sql_col t "QTR_ID" ;;
    sales <- sql_col t "SALES" ;;
    period_rows sales (fun r => [field year r; field quarter r])
      (fun k => sql_concat (sql_concat (field 0 k) (VText "-Q")) (field 1 k))
      (t_rows t)
  else
    year <- sql_col t "YEAR_ID" ;;
    sales <- sql_col t "SALES" ;;
    period_rows sales (fun r => [field year r])
      (fun k => field 0 k) (t_rows t).
End OverTime.

(* ================================================================== *)
(** * Notions used in the statements *)

(** What [handle_missing_data] does, column by column. *)
Definition imputed (c c' : column) : Prop :=
  match col_dtype c with
  | Numeric => c' = fill_numeric c
  | Object => fill_object c = Ok c'
  | Datetime => c' = c
  end.

(** The specification read row by row: a row whose year is not populated
    receives the year of its parsed order date. *)
Definition derives_unpopulated_rows (df out : DataFrame) : Prop :=
  forall (i : nat) (d : timestamp),
    nth i (series out "ORDERDATE") CNull = CDate d ->
    nth i (series df "YEAR_ID") CNull = CNull ->
    nth i (series out "YEAR_ID") CNull = CNum (QcZ (ts_year d)).

(** What [to_datetime] makes of one element: a null date, or a calendar
    date whose month and quarter are the derived ones. *)
Definition parsed_date (c : cell) : Prop :=
  c = CNull
  \/ exists d : timestamp,
       c = CDate d
       /\ (1 <= ts_month d <= 12)%Z
       /\ dt_year c = CNum (QcZ (ts_year d))
       /\ dt_month c = CNum (QcZ (ts_month d))
       /\ dt_quarter c = CNum (QcZ ((ts_month d - 1) / 3 + 1))
       /\ (1 <= (ts_month d - 1) / 3 + 1 <= 4)%Z.

(** The value [mode()[0]] hands back: a most frequent value, and the
    smallest of them in the order of strings. *)
Definition smallest_mode (m : string) (l : list string) : Prop :=
  In m l
  /\ (forall s, count_str s l <= count_str m l)
  /\ (forall s, count_str s l = count_str m l -> String.leb m s = true).

(** The specification's tie-break: the most frequent value that is met
    first. *)
Definition first_encountered_mode (l : list string) : option string :=
  hd_error (filter (fun s => Nat.eqb (count_str s l) (max_count l))
                   (distinct String.eqb l)).

Definition fills_with_first_encountered (df df' : DataFrame) : Prop :=
  forall (j i : nat) (c c' : column),
    nth_error df j = Some c -> nth_error df' j = Some c' ->
    col_dtype c = Object ->
    nth_error (col_cells c) i = Some CNull ->
    exists m, first_encountered_mode (strs (col_cells c)) = Some m
              /\ nth_error (col_cells c') i = Some (CStr m).


Definition key_lt (k1 k2 : list value) : Prop := key_compare k1 k2 = Lt.

(** Each record's growth rate is the one computed from the total of the
    record before it. *)
Fixpoint growth_chain (prev_sales : value) (l : list dict) : Prop :=
  match l with
  | [] => True
  | c :: tl =>
      growth_rate prev_sales (get c "monthly_sales") = Ok (get c "growth_rate")
      /\ growth_chain (get c "monthly_sales") tl
  end.


(** A record after the growth loop: the record of the SELECT with its
    growth rate set. *)
Definition grown (r r' : dict) : Prop :=
  exists g, r' = dict_set r "growth_rate" g.


(** Descending by total sales, as ORDER BY total_sales DESC leaves it. *)
Definition descending_by_total (rs : list dict) : Prop :=
  sorted_by (fun a b => value_leb (get b "total_sales") (get a "total_sales")) rs.

(** The sum of the total_sales field over the records of a result; a
    NULL total adds nothing. *)
Definition sum_total_sales (recs : list dict) : Qc :=
  qsum (flat_map (fun r => match get r "total_sales" with
                           | VNum q => [q]
                           | _ => []
                           end) recs).

(** The specification's identity between the two endpoints. *)
Definition totals_match (cats : list dict) (total_revenue : value) : Prop :=
  total_revenue = VNum (sum_total_sales cats).

(** The magnitudes of the INTEGER values of a column, added up.  While
    they stay within the 64-bit range no SUM over rows of the column can
    overflow, in whatever order and grouping the rows are added. *)
Definition integer_magnitude (qs : list Qc) : Z :=
  fold_right (fun q acc => match sql_integer q with
                           | Some z => (Z.abs z + acc)%Z
                           | None => acc
                           end)
             0%Z qs.

Definition magnitude (text_num : string -> Qc) (vs : list value) : Z :=
  integer_magnitude (flat_map (sql_num text_num) vs).

(** A column of whole amounts whose magnitudes add up to at most 2^53:
    every sum over rows of the column is then exact, whether SQLite holds
    the amounts as INTEGER or as REAL values. *)
Definition is_integer (q : Qc) : bool :=
  match sql_integer q with Some _ => true | None => false end.

Definition whole_amounts (text_num : string -> Qc) (vs : list value) : bool :=
  forallb is_integer (flat_map (sql_num text_num) vs)
  && (magnitude text_num vs <=? 2 ^ 53)%Z.


(** The two ways in which any of the statements can fail: it names a
    column the table does not have, or a SUM of SALES or QUANTITYORDERED
    leaves the 64-bit range, which takes INTEGER values whose magnitudes
    add up beyond it. *)
Definition missing_column (t : table) (e : error) : Prop :=
  exists col, e = OperationalError col /\ position col (schema t) = None.

Definition sum_out_of_range (text_num : string -> Qc) (t : table) (e : error)
  : Prop :=
  e = IntegerOverflow
  /\ exists n i,
       In n ["SALES"; "QUANTITYORDERED"] /\ sql_col t n = Ok i
       /\ (max_int64 < magnitude text_num (map (field i) (t_rows t)))%Z.


(* ================================================================== *)
(** * Sample data *)

Definition num (z : Z) : cell := CNum (QcZ z).
Definition vnum (z : Z) : value := VNum (QcZ z).

(** Stand-ins for the library functions on the sample data: text that is
    already trimmed and upper-case, and the two dates that occur. *)
Definition sample_strip (s : string) : string := s.
Definition sample_upper (s : string) : string := s.
Definition sample_parse (c : cell) : option timestamp :=
  match c with
  | CStr "2003-02-24" => Some {| ts_year := 2003; ts_month := 2; ts_day := 24 |}
  | CStr "2004-05-07" => Some {| ts_year := 2004; ts_month := 5; ts_day := 7 |}
  | _ => None
  end.
Definition sample_isoformat (d : timestamp) : string :=
  if Z.eqb (ts_year d) 2003 then "2003-02-24 00:00:00" else "2004-05-07 00:00:00".
Definition sample_text_num (s : string) : Qc := QcZ 0.

(** A source file with every expected column and the three optional ones. *)
Definition df_source : DataFrame :=
  [ {| col_name := "ORDERNUMBER"; col_dtype := Numeric;
       col_cells := [num 10107; num 10107; num 10121] |};
    {| col_name := "QUANTITYORDERED"; col_dtype := Numeric;
       col_cells := [num 30; num 30; num 34] |};
    {| col_name := "PRICEEACH"; col_dtype := Numeric;
       col_cells := [num 95; num 95; num 81] |};
    {| col_name := "ORDERLINENUMBER"; col_dtype := Numeric;
       col_cells := [num 2; num 2; num 5] |};
    {| col_name := "SALES"; col_dtype := Numeric;
       col_cells := [num 2850; num 2850; num 2754] |};
    {| col_name := "ORDERDATE"; col_dtype := Object;
       col_cells := [CStr "2003-02-24"; CStr "2003-02-24"; CStr "2004-05-07"] |};
    {| col_name := "STATUS"; col_dtype := Object;
       col_cells := [CStr "SHIPPED"; CStr "SHIPPED"; CStr "CANCELLED"] |};
    {| col_name := "QTR_ID"; col_dtype := Numeric;
       col_cells := [num 1; num 1; num 2] |};
    {| col_name := "MONTH_ID"; col_dtype := Numeric;
       col_cells := [num 2; num 2; num 5] |};
    {| col_name := "YEAR_ID"; col_dtype := Numeric;
       col_cells := [num 2003; num 2003; num 2004] |};
    {| col_name := "CUSTOMERNAME"; col_dtype := Object;
       col_cells := [CStr "Land of Toys Inc."; CStr "Land of Toys Inc.";
                     CStr "Reims Collectables"] |};
    {| col_name := "COUNTRY"; col_dtype := Object;
       col_cells := [CStr "USA"; CStr "USA"; CStr "France"] |};
    {| col_name := "PRODUCTLINE"; col_dtype := Object;
       col_cells := [CStr "Motorcycles"; CStr "Motorcycles"; CStr "Motorcycles"] |} ].

(** What the pipeline leaves of it. *)
Definition df_processed : DataFrame :=
  Eval vm_compute in
    match main sample_strip sample_upper sample_parse sample_isoformat df_source with
    | Ok (df, _) => df
    | Err _ => []
    end.

Definition sales_table : table :=
  Eval vm_compute in
    match main sample_strip sample_upper sample_parse sample_isoformat df_source with
    | Ok (_, t) => t
    | Err _ => {| schema := []; t_rows := [] |}
    end.

(** A source file without the STATUS column. *)
Definition df_without_status : DataFrame :=
  [ {| col_name := "ORDERNUMBER"; col_dtype := Numeric;
       col_cells := [num 10107; num 10121] |};
    {| col_name := "SALES"; col_dtype := Numeric;
       col_cells := [num 2850; num 2754] |};
    {| col_name := "ORDERDATE"; col_dtype := Object;
       col_cells := [CStr "2003-02-24"; CStr "2004-05-07"] |};
    {| col_name := "YEAR_ID"; col_dtype := Numeric;
       col_cells := [num 2003; num 2004] |} ].

(** A frame whose YEAR_ID column is there but not populated. *)
Definition df_unpopulated_year : DataFrame :=
  [ {| col_name := "ORDERDATE"; col_dtype := Object;
       col_cells := [CStr "2004-05-07"] |};
    {| col_name := "YEAR_ID"; col_dtype := Numeric; col_cells := [CNull] |} ].

(** An object column in which two values are equally frequent. *)
Definition df_tied_mode : DataFrame :=
  [ {| col_name := "STATUS"; col_dtype := Object;
       col_cells := [CStr "SHIPPED"; CStr "CANCELLED"; CNull] |} ].

(** A numeric column with a missing entry, alone in its frame, and the
    frame after imputation. *)
Definition sales_with_null : column :=
  {| col_name := "SALES"; col_dtype := Numeric;
     col_cells := [num 10; CNull; num 30; num 100] |}.

Definition df_imputed : DataFrame :=
  Eval vm_compute in
    match handle_missing_data [sales_with_null] with
    | Ok df => df
    | Err _ => []
    end.

(** Monthly totals 100, 150, 0, 50; the first month in two order lines. *)
Definition trends_table : table :=
  {| schema := ["YEAR_ID"; "MONTH_ID"; "SALES"];
     t_rows := [ [vnum 2003; vnum 2; vnum 150];
                 [vnum 2003; vnum 1; vnum 60];
                 [vnum 2003; vnum 3; vnum 0];
                 [vnum 2003; vnum 1; vnum 40];
                 [vnum 2003; vnum 4; vnum 50] ] |}.

Definition trends_result : list dict :=
  Eval vm_compute in
    match sales_trends sample_text_num trends_table with
    | Ok rs => rs
    | Err _ => []
    end.


(** A month whose only order line has no sales amount. *)
Definition null_month_table : table :=
  {| schema := ["YEAR_ID"; "MONTH_ID"; "SALES"];
     t_rows := [ [vnum 2003; vnum 1; VNull];
                 [vnum 2003; vnum 2; vnum 50] ] |}.




Definition sample_categories : list dict :=
  Eval vm_compute in
    match sales_by_category sample_text_num sales_table with
    | Ok rs => rs
    | Err _ => []
    end.


(** A numeric column and a text column without a single value. *)
Definition year_all_null : column :=
  {| col_name := "YEAR_ID"; col_dtype := Numeric; col_cells := [CNull; CNull] |}.

Definition status_all_null : column :=
  {| col_name := "STATUS"; col_dtype := Object; col_cells := [CNull; CNull] |}.

(** The sum of a numeric field over the records of a result. *)
Definition sum_field (k : string) (recs : list dict) : Qc :=
  qsum (flat_map (fun r => match get r k with
                           | VNum q => [q]
                           | _ => []
                           end) recs).

(** A stored table that has the three optional columns. *)
Definition full_table : table :=
  {| schema := ["ORDERNUMBER"; "QUANTITYORDERED"; "SALES"; "STATUS";
                "CUSTOMERNAME"; "COUNTRY"; "PRODUCTLINE";
                "ORDERDATE"; "YEAR_ID"; "MONTH_ID"; "QTR_ID"];
     t_rows :=
       [ [vnum 10107; vnum 30; vnum 2850; VText "SHIPPED";
          VText "Land of Toys Inc."; VText "USA"; VText "Motorcycles";
          VText "2003-02-24 00:00:00"; vnum 2003; vnum 2; vnum 1];
         [vnum 10121; vnum 34; vnum 2754; VText "SHIPPED";
          VText "Reims Collectables"; VText "France"; VText "Motorcycles";
          VText "2003-05-07 00:00:00"; vnum 2003; vnum 5; vnum 2];
         [vnum 10134; vnum 41; vnum 3884; VText "CANCELLED";
          VText "Lyon Souveniers"; VText "France"; VText "Classic Cars";
          VText "2003-05-07 00:00:00"; vnum 2003; vnum 5; vnum 2] ] |}.

Definition value_lt (a b : value) : Prop := value_compare a b = Lt.


(** A frame with two columns that differ in case only. *)
Definition df_case_duplicate : DataFrame :=
  [ {| col_name := "status"; col_dtype := Object;
       col_cells := [CStr "Shipped"] |};
    {| col_name := "STATUS"; col_dtype := Object;
       col_cells := [CStr "SHIPPED"] |} ].

(** A source file without the ORDERDATE column. *)
Definition df_without_orderdate : DataFrame :=
  [ {| col_name := "ORDERNUMBER"; col_dtype := Numeric;
       col_cells := [num 10107; num 10121] |};
    {| col_name := "SALES"; col_dtype := Numeric;
       col_cells := [num 2850; num 2754] |};
    {| col_name := "STATUS"; col_dtype := Object;
       col_cells := [CStr "SHIPPED"; CStr "CANCELLED"] |} ].

(** The float that a decimal literal denotes. *)
Definition float (n : Z) (d : positive) : value := VNum (binary64 (Q2Qc (n # d))).

(** Sales of 0.1, 0.2 and 0.3 in two statuses. *)
Definition fractional_table : table :=
  {| schema := ["ORDERNUMBER"; "QUANTITYORDERED"; "SALES"; "STATUS";
                "YEAR_ID"; "MONTH_ID"];
     t_rows := [ [vnum 10107; vnum 1; float 1 10; VText "B"; vnum 2003; vnum 1];
                 [vnum 10121; vnum 1; float 2 10; VText "A"; vnum 2004; vnum 1];
                 [vnum 10134; vnum 1; float 3 10; VText "A"; vnum 2004; vnum 2] ] |}.

(** A stored table in which the sales of one order add up beyond the
    64-bit range. *)
Definition overflow_table : table :=
  {| schema := ["ORDERNUMBER"; "QUANTITYORDERED"; "SALES"; "STATUS"];
     t_rows := [ [vnum 10107; vnum 30; vnum max_int64; VText "SHIPPED"];
                 [vnum 10121; vnum 41; vnum (-1); VText "CANCELLED"];
                 [vnum 10107; vnum 34; vnum 1; VText "SHIPPED"] ] |}.

(** Stand-ins for SQLite's text conversions on the sample data. *)
Definition sample_num_text (q : Qc) : string :=
  if Qc_eqb q (QcZ 2003) then "2003" else if Qc_eqb q (QcZ 1) then "1" else "2".
Definition sample_printf_02d (v : value) : string :=
  match v with
  | VNum q => if Qc_eqb q (QcZ 2) then "02" else "05"
  | _ => "00"
  end.

(* ================================================================== *)
(** * Facts about the list utilities *)

Section SortFacts.
Context {A : Type}.
Variable leb : A -> A -> bool.

Lemma insert_sorted_perm (x : A) (l : list A) :
  Permutation (insert_sorted leb x l) (x :: l).
Proof.
  induction l as [|y t IH]; simpl.
  - apply Permutation_refl.
  - destruct (leb x y).
    + apply Permutation_refl.
    + apply Permutation_trans with (y :: x :: t).
      * now apply perm_skip.
      * apply perm_swap.
Qed.

Lemma sort_perm (l : list A) : Permutation (sort leb l) l.
Proof.
  induction l as [|x t IH]; simpl.
  - apply perm_nil.
  - apply Permutation_trans with (x :: sort leb t).
    + apply insert_sorted_perm.
    + now apply perm_skip.
Qed.

Lemma sort_length (l : list A) : length (sort leb l) = length l.
Proof. apply Permutation_length, sort_perm. Qed.

Lemma sort_In (x : A) (l : list A) : In x (sort leb l) <-> In x l.
Proof.
  split; apply Permutation_in.
  - apply sort_perm.
  - apply Permutation_sym, sort_perm.
Qed.

Hypothesis leb_total : forall a b, leb a b = true \/ leb b a = true.
Hypothesis leb_trans :
  forall a b c, leb a b = true -> leb b c = true -> leb a c = true.

Lemma insert_sorted_sorted (x : A) (l : list A) :
  sorted_by leb l -> sorted_by leb (insert_sorted leb x l).
Proof.
  unfold sorted_by. induction 1 as [|y t Hs IH Hy]; simpl.
  - constructor; constructor.
  - destruct (leb x y) eqn:Hxy.
    + constructor.
      * now constructor.
      * constructor; [exact Hxy|].
        rewrite Forall_forall in Hy |- *.
        intros z Hz. apply leb_trans with y; [exact Hxy|now apply Hy].
    + constructor; [exact IH|].
      rewrite Forall_forall in Hy |- *.
      intros z Hz.
      apply (Permutation_in _ (insert_sorted_perm x t)) in Hz.
      destruct Hz as [<-|Hz].
      * destruct (leb_total x y) as [H|H]; [congruence|exact H].
      * now apply Hy.
Qed.

Lemma sort_sorted (l : list A) : sorted_by leb (sort leb l).
Proof.
  induction l as [|x t IH]; simpl.
  - constructor.
  - now apply insert_sorted_sorted.
Qed.
End SortFacts.

Section DistinctFacts.
Context {A : Type}.
Variable eqb : A -> A -> bool.
Hypothesis eqb_eq : forall a b, eqb a b = true <-> a = b.

Lemma existsb_eqb_In (x : A) (l : list A) :
  existsb (eqb x) l = true <-> In x l.
Proof.
  rewrite existsb_exists. split.
  - intros [y [Hy He]]. apply eqb_eq in He. now subst.
  - intros H. exists x. split; [exact H|now apply eqb_eq].
Qed.

Lemma existsb_eqb_not_In (x : A) (l : list A) :
  existsb (eqb x) l = false <-> ~ In x l.
Proof.
  rewrite <- existsb_eqb_In. destruct (existsb (eqb x) l); split; congruence.
Qed.

Lemma distinct_from_In (x : A) (seen l : list A) :
  In x (distinct_from eqb seen l) <-> In x l /\ ~ In x seen.
Proof.
  revert seen. induction l as [|y t IH]; intros seen; simpl.
  - tauto.
  - destruct (existsb (eqb y) seen) eqn:E.
    + apply existsb_eqb_In in E. rewrite IH.
      split; [tauto|]. intros [[->|H] Hn]; tauto.
    + apply existsb_eqb_not_In in E. simpl. rewrite IH. simpl.
      split.
      * intros [->|[H Hn]]; tauto.
      * intros [[->|H] Hn]; [now left|].
        destruct (eqb y x) eqn:Eyx.
        -- apply eqb_eq in Eyx. now left.
        -- right. split; [exact H|]. intros [Hy|Hs]; [|tauto].
           subst. assert (eqb x x = true) by now apply eqb_eq. congruence.
Qed.

Lemma distinct_from_NoDup (seen l : list A) :
  NoDup (distinct_from eqb seen l).
Proof.
  revert seen. induction l as [|y t IH]; intros seen; simpl.
  - constructor.
  - destruct (existsb (eqb y) seen); [apply IH|].
    constructor; [|apply IH].
    rewrite distinct_from_In. simpl. tauto.
Qed.

Lemma distinct_In (x : A) (l : list A) : In x (distinct eqb l) <-> In x l.
Proof. unfold distinct. rewrite distinct_from_In. simpl. tauto. Qed.

Lemma distinct_NoDup (l : list A) : NoDup (distinct eqb l).
Proof. apply distinct_from_NoDup. Qed.

Lemma list_eqb_eq (l1 l2 : list A) : list_eqb eqb l1 l2 = true <-> l1 = l2.
Proof.
  revert l2. induction l1 as [|x t IH]; intros [|y u]; simpl;
    try (split; congruence).
  rewrite andb_true_iff, eqb_eq, IH. split.
  - intros [-> ->]. reflexivity.
  - intros H. injection H. auto.
Qed.
End DistinctFacts.

(* ------------------------------------------------------------------ *)
(** ** Equality tests decide equality *)

Lemma Qc_eqb_eq (x y : Qc) : Qc_eqb x y = true <-> x = y.
Proof.
  unfold Qc_eqb. rewrite Qeq_bool_iff. split.
  - apply Qc_is_canon.
  - intros ->. reflexivity.
Qed.

Lemma timestamp_eqb_eq (a b : timestamp) : timestamp_eqb a b = true <-> a = b.
Proof.
  destruct a as [y m d], b as [y' m' d']. unfold timestamp_eqb. simpl.
  rewrite !andb_true_iff, !Z.eqb_eq. split.
  - intros [[-> ->] ->]. reflexivity.
  - intros H. injection H. auto.
Qed.

Lemma cell_eqb_eq (a b : cell) : cell_eqb a b = true <-> a = b.
Proof.
  destruct a, b; simpl; try (split; congruence).
  - rewrite Qc_eqb_eq. split; congruence.
  - rewrite String.eqb_eq. split; congruence.
  - rewrite timestamp_eqb_eq. split; congruence.
Qed.

Lemma row_eqb_eq (r1 r2 : list cell) :
  list_eqb cell_eqb r1 r2 = true <-> r1 = r2.
Proof. apply list_eqb_eq, cell_eqb_eq. Qed.

Lemma ascii_compare_refl (a : ascii) : Ascii.compare a a = Eq.
Proof. unfold Ascii.compare. apply N.compare_refl. Qed.

Lemma string_compare_refl (s : string) : String.compare s s = Eq.
Proof.
  induction s as [|a t IH]; simpl; [reflexivity|].
  now rewrite ascii_compare_refl.
Qed.

Lemma string_compare_eq (s1 s2 : string) : String.compare s1 s2 = Eq <-> s1 = s2.
Proof.
  split; [apply String.compare_eq_iff|].
  intros ->. apply string_compare_refl.
Qed.

Lemma value_compare_eq (a b : value) : value_compare a b = Eq <-> a = b.
Proof.
  destruct a as [|x|x], b as [|y|y]; simpl; try (split; congruence).
  - rewrite <- Qeq_alt. split.
    + intros H. f_equal. now apply Qc_is_canon.
    + intros H. injection H as ->. reflexivity.
  - rewrite string_compare_eq. split; congruence.
Qed.

Lemma value_eqb_eq (a b : value) : value_eqb a b = true <-> a = b.
Proof.
  unfold value_eqb. rewrite <- value_compare_eq.
  destruct (value_compare a b); split; congruence.
Qed.

Lemma key_compare_eq (k1 k2 : list value) : key_compare k1 k2 = Eq <-> k1 = k2.
Proof.
  revert k2. induction k1 as [|a t IH]; intros [|b u]; simpl;
    try (split; congruence).
  destruct (value_compare a b) eqn:E.
  - apply value_compare_eq in E. subst. rewrite IH. split; congruence.
  - split; [discriminate|]. intros H. injection H as -> ->.
    assert (value_compare b b = Eq) by now apply value_compare_eq. congruence.
  - split; [discriminate|]. intros H. injection H as -> ->.
    assert (value_compare b b = Eq) by now apply value_compare_eq. congruence.
Qed.

Lemma key_eqb_eq (k1 k2 : list value) : key_eqb k1 k2 = true <-> k1 = k2.
Proof.
  unfold key_eqb. rewrite <- key_compare_eq.
  destruct (key_compare k1 k2); split; congruence.
Qed.

(* ------------------------------------------------------------------ *)
(** ** The error monad *)

Lemma bind_Ok {A B : Type} (r : result A) (f : A -> result B) (b : B) :
  bind r f = Ok b -> exists a, r = Ok a /\ f a = Ok b.
Proof. destruct r as [a|e]; simpl; [eauto|discriminate]. Qed.

Ltac invert_bind H :=
  let a := fresh "x" in
  let Ha := fresh "Hx" in
  apply bind_Ok in H; destruct H as [a [Ha H]].

Lemma mapM_Forall2 {A B : Type} (f : A -> result B) (l : list A) (l' : list B) :
  mapM f l = Ok l' -> Forall2 (fun a b => f a = Ok b) l l'.
Proof.
  revert l'. induction l as [|x t IH]; simpl; intros l' H.
  - injection H as <-. constructor.
  - invert_bind H. invert_bind H. injection H as <-.
    constructor; [assumption|now apply IH].
Qed.

Lemma mapM_total {A B : Type} (f : A -> result B) (l : list A) :
  Forall (fun a => exists b, f a = Ok b) l -> exists l', mapM f l = Ok l'.
Proof.
  induction 1 as [|x t [b Hb] _ [l' IH]]; simpl.
  - eauto.
  - rewrite Hb, IH. simpl. eauto.
Qed.

(* ------------------------------------------------------------------ *)
(** ** Column names through the pipeline *)

Lemma string_existsb_In (n : string) (l : list string) :
  existsb (String.eqb n) l = true <-> In n l.
Proof. apply existsb_eqb_In, String.eqb_eq. Qed.

Lemma has_column_In (df : DataFrame) (n : string) :
  has_column df n = true <-> In n (names df).
Proof. apply string_existsb_In. Qed.

Lemma has_column_false (df : DataFrame) (n : string) :
  has_column df n = false <-> ~ In n (names df).
Proof.
  rewrite <- has_column_In. destruct (has_column df n); split; congruence.
Qed.

Lemma get_column_name (df : DataFrame) (n : string) (c : column) :
  get_column df n = Some c -> col_name c = n.
Proof.
  unfold get_column. intros H. apply find_some in H.
  now apply String.eqb_eq.
Qed.

Lemma get_column_has (df : DataFrame) (n : string) :
  has_column df n = true -> exists c, get_column df n = Some c.
Proof.
  rewrite has_column_In. unfold names, get_column.
  induction df as [|c t IH]; simpl; [tauto|].
  intros [H|H].
  - subst. rewrite String.eqb_refl. eauto.
  - destruct (String.eqb (col_name c) n); eauto.
Qed.

Lemma get_column_None (df : DataFrame) (n : string) :
  has_column df n = false -> get_column df n = None.
Proof.
  rewrite has_column_false. unfold names, get_column.
  induction df as [|c t IH]; simpl; [reflexivity|].
  intros H. destruct (String.eqb (col_name c) n) eqn:E.
  - apply String.eqb_eq in E. tauto.
  - apply IH. tauto.
Qed.

Lemma names_select_columns (df : DataFrame) :
  names (select_columns df) = available_cols df.
Proof.
  unfold select_columns.
  assert (H : forall n, In n (available_cols df) -> has_column df n = true).
  { intros n Hn. now apply filter_In in Hn. }
  induction (available_cols df) as [|n t IH]; simpl; [reflexivity|].
  destruct (get_column_has df n) as [c Hc]; [apply H; now left|].
  rewrite Hc. simpl. rewrite (get_column_name _ _ _ Hc).
  f_equal. apply IH. intros m Hm. apply H. now right.
Qed.

Lemma select_columns_required (df : DataFrame) (n : string) :
  In n (names (select_columns df)) -> In n required_cols /\ In n (names df).
Proof.
  rewrite names_select_columns. unfold available_cols.
  rewrite filter_In, has_column_In. tauto.
Qed.

Lemma fill_numeric_name (c : column) : col_name (fill_numeric c) = col_name c.
Proof.
  unfold fill_numeric.
  destruct (Nat.ltb 0 (null_count (col_cells c))); [|reflexivity].
  destruct (median (nums (col_cells c))); reflexivity.
Qed.

Lemma fill_numeric_dtype (c : column) : col_dtype (fill_numeric c) = col_dtype c.
Proof.
  unfold fill_numeric.
  destruct (Nat.ltb 0 (null_count (col_cells c))); [|reflexivity].
  destruct (median (nums (col_cells c))); reflexivity.
Qed.

Lemma fill_object_name (c c' : column) :
  fill_object c = Ok c' -> col_name c' = col_name c.
Proof.
  unfold fill_object.
  destruct (Nat.ltb 0 (null_count (col_cells c))).
  - destruct (mode (strs (col_cells c))); [discriminate|].
    intros H. injection H as <-. reflexivity.
  - intros H. injection H as <-. reflexivity.
Qed.

Lemma handle_missing_data_columns (df df' : DataFrame) :
  handle_missing_data df = Ok df' -> Forall2 imputed df df'.
Proof.
  unfold handle_missing_data. intros H. apply mapM_Forall2 in H.
  remember (map _ df) as df1 eqn:E. revert df E.
  induction H as [|c1 c' t1 t' Hc _ IH]; intros [|c t] E; try discriminate.
  - constructor.
  - simpl in E. injection E as -> ->. constructor; [|now apply IH].
    unfold imputed, is_numeric, is_object in *.
    destruct (col_dtype c) eqn:D.
    + rewrite fill_numeric_dtype, D in Hc. congruence.
    + rewrite D in Hc. exact Hc.
    + rewrite D in Hc. congruence.
Qed.

Lemma imputed_name (c c' : column) : imputed c c' -> col_name c' = col_name c.
Proof.
  unfold imputed. destruct (col_dtype c); intros H.
  - subst. apply fill_numeric_name.
  - now apply fill_object_name.
  - now subst.
Qed.

Lemma names_handle_missing_data (df df' : DataFrame) :
  handle_missing_data df = Ok df' -> names df' = names df.
Proof.
  intros H. apply handle_missing_data_columns in H.
  induction H as [|c c' t t' Hc _ IH]; simpl; [reflexivity|].
  now rewrite (imputed_name _ _ Hc), IH.
Qed.

Lemma names_take (idx : list nat) (df : DataFrame) : names (take idx df) = names df.
Proof. unfold names, take. rewrite map_map. reflexivity. Qed.

Lemma names_handle_duplicates (df : DataFrame) :
  names (handle_duplicates df) = names df.
Proof.
  unfold handle_duplicates, drop_duplicates.
  destruct (empty df); [reflexivity|apply names_take].
Qed.

Lemma names_set_column_In (df : DataFrame) (n m : string) ty cells :
  In m (names (set_column df n ty cells)) <-> m = n \/ In m (names df).
Proof.
  induction df as [|c t IH]; simpl.
  - split; [intros [H|[]]; auto|intros [H|[]]; auto].
  - destruct (String.eqb (col_name c) n) eqn:E; simpl.
    + apply String.eqb_eq in E. subst. intuition.
    + rewrite IH. intuition.
Qed.

Lemma has_column_set_column (df : DataFrame) (n m : string) ty cells :
  has_column (set_column df n ty cells) m = (String.eqb m n || has_column df m)%bool.
Proof.
  apply eq_true_iff_eq.
  rewrite orb_true_iff, !has_column_In, names_set_column_In, String.eqb_eq.
  tauto.
Qed.

Section PipelineNames.
Variable str_strip str_upper : string -> string.
Variable parse_datetime : cell -> option timestamp.
Variable isoformat : timestamp -> string.

Lemma normalize_categories_without_status (df : DataFrame) :
  has_column df "STATUS" = false ->
  normalize_categories str_strip str_upper df = Err (KeyError "STATUS").
Proof.
  intros H. unfold normalize_categories. rewrite H. simpl.
  unfold getitem. now rewrite get_column_None.
Qed.

Lemma names_normalize_categories (df df' : DataFrame) (n : string) :
  normalize_categories str_strip str_upper df = Ok df' ->
  In n (names df') -> In n (names df).
Proof.
  unfold normalize_categories. intros H. invert_bind H.
  destruct (has_column df "STATUS") eqn:E.
  - invert_bind Hx. destruct (is_object x0); [|discriminate].
    injection Hx as <-. invert_bind H. injection H as <-.
    rewrite names_set_column_In. intros [->|Hn]; [|exact Hn].
    now apply has_column_In.
  - injection Hx as <-. invert_bind H. injection H as <-. auto.
Qed.

Lemma names_extract_date_features (df : DataFrame) (n : string) :
  In n (names (extract_date_features parse_datetime df)) ->
  In n (names df) \/ In n ["YEAR_ID"; "MONTH_ID"; "QTR_ID"].
Proof.
  unfold extract_date_features.
  destruct (has_column df "ORDERDATE") eqn:E; [|now left].
  repeat match goal with
         | |- context [if negb ?b then _ else _] => destruct b; simpl negb; cbv iota
         end;
    rewrite ?names_set_column_In; simpl;
    intros H; decompose [or] H; subst; auto;
    left; now apply has_column_In.
Qed.

Lemma validate_data_Ok (df df' : DataFrame) :
  validate_data df = Ok df' -> df' = df.
Proof.
  unfold validate_data. destruct df as [|c t]; [discriminate|].
  destruct (get_column (c :: t) "SALES") as [sales|]; [|congruence].
  destruct (comparable_with_zero sales); congruence.
Qed.

Lemma create_table_Ok (cols : list string) (u : unit) :
  create_table cols = Ok u ->
  cols <> [] /\ duplicate_column [] cols = None.
Proof.
  unfold create_table. destruct cols as [|c t]; [discriminate|].
  destruct (duplicate_column [] (c :: t)); [discriminate|].
  intros _. split; [discriminate|reflexivity].
Qed.

Lemma store_in_database_Ok (df : DataFrame) (t : table) :
  store_in_database isoformat df = Ok t ->
  t = to_sql isoformat df
  /\ create_table (names df) = Ok tt
  /\ (exists i, sql_col t "ORDERDATE" = Ok i)
  /\ (exists i, sql_col t "STATUS" = Ok i)
  /\ (exists i, sql_col t "YEAR_ID" = Ok i).
Proof.
  unfold store_in_database, create_index. intros H.
  invert_bind H. destruct x.
  invert_bind H. invert_bind H. invert_bind H. injection H as <-.
  invert_bind Hx0. invert_bind Hx1. invert_bind Hx2.
  repeat split; eauto.
Qed.

Lemma main_Ok_steps (df df' : DataFrame) (t : table) :
  main str_strip str_upper parse_datetime isoformat df = Ok (df', t) ->
  exists d2 d4,
    handle_missing_data (select_columns df) = Ok d2
    /\ normalize_categories str_strip str_upper (handle_duplicates d2) = Ok d4
    /\ df' = extract_date_features parse_datetime d4
    /\ validate_data df' = Ok df'
    /\ store_in_database isoformat df' = Ok t.
Proof.
  unfold main. intros H.
  invert_bind H. invert_bind H. invert_bind H. invert_bind H.
  injection H as <- <-.
  pose proof (validate_data_Ok _ _ Hx1) as E. subst x1.
  exists x, x0. repeat split; assumption.
Qed.

Lemma main_schema (df df' : DataFrame) (t : table) (n : string) :
  main str_strip str_upper parse_datetime isoformat df = Ok (df', t) ->
  In n (schema t) -> In n required_cols.
Proof.
  intros H. apply main_Ok_steps in H.
  destruct H as (x & x0 & Hx & Hx0 & -> & _ & Hs).
  apply store_in_database_Ok in Hs. destruct Hs as [-> _]. simpl.
  intros Hn. apply names_extract_date_features in Hn.
  destruct Hn as [Hn|Hn].
  - apply (names_normalize_categories _ _ _ Hx0) in Hn.
    rewrite names_handle_duplicates in Hn.
    rewrite (names_handle_missing_data _ _ Hx) in Hn.
    now apply select_columns_required in Hn.
  - unfold required_cols. simpl in *. intuition.
Qed.
End PipelineNames.

(* ================================================================== *)
(** * Optional columns in the query layer *)

Lemma pragma_has_false (t : table) (n : string) :
  ~ In n (schema t) -> pragma_has t n = false.
Proof.
  unfold pragma_has. intros H.
  destruct (existsb (String.eqb n) (schema t)) eqn:E; [|reflexivity].
  apply string_existsb_In in E. contradiction.
Qed.

Lemma optional_column_placeholder_country (text_num : string -> Qc) (t : table) :
  ~ In "COUNTRY" (schema t) ->
  sales_by_country text_num t =
  Ok [ [ ("message", VText "Country data not available in dataset") ] ].
Proof. intros H. unfold sales_by_country. now rewrite pragma_has_false. Qed.

Lemma optional_column_placeholder_product (text_num : string -> Qc) (t : table) :
  ~ In "PRODUCTLINE" (schema t) ->
  product_performance text_num t =
  Ok [ [ ("message", VText "Product line data not available") ] ].
Proof. intros H. unfold product_performance. now rewrite pragma_has_false. Qed.

(** C3.  A stored table without the COUNTRY column makes sales-by-country
    return exactly one record, the informational message, and not an error
    or an empty list; product-performance does the same without the
    PRODUCTLINE column. *)
Theorem optional_column_placeholder (text_num : string -> Qc) (t : table) :
  (~ In "COUNTRY" (schema t) ->
   sales_by_country text_num t =
   Ok [ [ ("message", VText "Country data not available in dataset") ] ])
  /\
  (~ In "PRODUCTLINE" (schema t) ->
   product_performance text_num t =
   Ok [ [ ("message", VText "Product line data not available") ] ]).
Proof.
  split.
  - apply optional_column_placeholder_country.
  - apply optional_column_placeholder_product.
Qed.

Lemma optional_column_placeholder_witness :
  sales_by_country sample_text_num sales_table =
  Ok [ [ ("message", VText "Country data not available in dataset") ] ]
  /\
  product_performance sample_text_num sales_table =
  Ok [ [ ("message", VText "Product line data not available") ] ].
Proof.
  destruct (optional_column_placeholder sample_text_num sales_table) as [Hc Hp].
  split.
  - apply Hc. simpl. intuition discriminate.
  - apply Hp. simpl. intuition discriminate.
Defined.

(* ================================================================== *)
(** * A missing STATUS column *)

(** C2.  On a source without the STATUS column the normalization step
    skips the assignment but then reads [df['STATUS']] for its report, so
    the step, and the pipeline with it, stops with a KeyError. *)
Theorem pipeline_fails_without_status
  (str_strip str_upper : string -> string)
  (parse_datetime : cell -> option timestamp) (isoformat : timestamp -> string) :
  normalize_categories str_strip str_upper df_without_status
  = Err (KeyError "STATUS")
  /\
  main str_strip str_upper parse_datetime isoformat df_without_status
  = Err (KeyError "STATUS").
Proof.
  split.
  - apply normalize_categories_without_status. reflexivity.
  - vm_compute. reflexivity.
Qed.

(* ================================================================== *)
(** * Column projection and its consequences for the queries *)

(** C10.  [select_columns] keeps only columns of the allow-list, so
    CUSTOMERNAME, COUNTRY and PRODUCTLINE are dropped; on every table the
    pipeline stores, sales-by-country and product-performance answer with
    the placeholder and top-customers groups by order number. *)
Theorem projection_drops_optional_columns
  (str_strip str_upper : string -> string)
  (parse_datetime : cell -> option timestamp) (isoformat : timestamp -> string)
  (text_num : string -> Qc) (df : DataFrame) :
  (forall n, In n (names (select_columns df)) ->
             In n required_cols /\ In n (names df))
  /\ ~ In "CUSTOMERNAME" (names (select_columns df))
  /\ ~ In "COUNTRY" (names (select_columns df))
  /\ ~ In "PRODUCTLINE" (names (select_columns df))
  /\ (forall df' t,
        main str_strip str_upper parse_datetime isoformat df = Ok (df', t) ->
        sales_by_country text_num t =
        Ok [ [ ("message", VText "Country data not available in dataset") ] ]
        /\ product_performance text_num t =
           Ok [ [ ("message", VText "Product line data not available") ] ]
        /\ forall limit,
             top_customers text_num t limit = top_by_order text_num t limit).
Proof.
  assert (R : forall n, In n required_cols ->
                        n <> "CUSTOMERNAME" /\ n <> "COUNTRY" /\ n <> "PRODUCTLINE").
  { unfold required_cols. simpl. intros n H.
    decompose [or] H; subst; try contradiction; repeat split; discriminate. }
  split; [apply select_columns_required|].
  repeat split.
  - intros H. apply select_columns_required in H. destruct H as [H _].
    apply R in H. tauto.
  - intros H. apply select_columns_required in H. destruct H as [H _].
    apply R in H. tauto.
  - intros H. apply select_columns_required in H. destruct H as [H _].
    apply R in H. tauto.
  - apply optional_column_placeholder_country.
    intros Hn. apply (main_schema _ _ _ _ _ _ _ _ H) in Hn. apply R in Hn. tauto.
  - apply optional_column_placeholder_product.
    intros Hn. apply (main_schema _ _ _ _ _ _ _ _ H) in Hn. apply R in Hn. tauto.
  - intros limit. unfold top_customers. rewrite pragma_has_false; [reflexivity|].
    intros Hn. apply (main_schema _ _ _ _ _ _ _ _ H) in Hn. apply R in Hn. tauto.
Qed.

Lemma projection_drops_optional_columns_witness :
  (In "SALES" required_cols /\ In "SALES" (names df_source))
  /\ sales_by_country sample_text_num sales_table =
     Ok [ [ ("message", VText "Country data not available in dataset") ] ]
  /\ product_performance sample_text_num sales_table =
     Ok [ [ ("message", VText "Product line data not available") ] ]
  /\ top_customers sample_text_num sales_table 3 =
     top_by_order sample_text_num sales_table 3.
Proof.
  destruct (projection_drops_optional_columns sample_strip sample_upper
              sample_parse sample_isoformat sample_text_num df_source)
    as (Hsel & _ & _ & _ & Hmain).
  split.
  - apply Hsel. vm_compute. tauto.
  - destruct (Hmain df_processed sales_table) as (Hc & Hp & Ht).
    + vm_compute. reflexivity.
    + split; [exact Hc|split; [exact Hp|apply Ht]].
Defined.

(* ================================================================== *)
(** * Deduplication *)

Lemma nth_map_in {A B : Type} (f : A -> B) (l : list A) (d : B) (d' : A) (k : nat) :
  k < length l -> nth k (map f l) d = f (nth k l d').
Proof.
  revert k. induction l as [|x t IH]; intros [|k] Hk; simpl in *; try lia.
  - reflexivity.
  - apply IH. lia.
Qed.

Lemma map_nth_seq {A : Type} (l : list A) (d : A) :
  map (fun k => nth k l d) (seq 0 (length l)) = l.
Proof.
  apply nth_ext with (d := d) (d' := d).
  - now rewrite length_map, length_seq.
  - intros n Hn. rewrite length_map, length_seq in Hn.
    rewrite nth_map_in with (d' := 0) by now rewrite length_seq.
    now rewrite seq_nth.
Qed.

Lemma length_rows (df : DataFrame) : length (rows df) = nrows df.
Proof. unfold rows. now rewrite length_map, length_seq. Qed.

Lemma nth_rows (df : DataFrame) (k : nat) :
  k < nrows df -> nth k (rows df) [] = row df k.
Proof.
  intros Hk. unfold rows.
  rewrite nth_map_in with (d' := 0) by now rewrite length_seq.
  now rewrite seq_nth.
Qed.

Lemma nrows_take (idx : list nat) (df : DataFrame) :
  df <> [] -> nrows (take idx df) = length idx.
Proof.
  destruct df as [|c t]; [congruence|]. intros _. simpl.
  now rewrite length_map.
Qed.

Lemma row_take (idx : list nat) (df : DataFrame) (k : nat) :
  k < length idx -> row (take idx df) k = row df (nth k idx 0).
Proof.
  intros Hk. unfold row, take. rewrite map_map. apply map_ext.
  intros c. simpl.
  now rewrite nth_map_in with (d' := 0).
Qed.

Lemma rows_take (idx : list nat) (df : DataFrame) :
  df <> [] -> rows (take idx df) = map (row df) idx.
Proof.
  intros Hdf. unfold rows at 1. rewrite (nrows_take _ _ Hdf).
  rewrite <- (map_nth_seq idx 0) at 3. rewrite map_map.
  apply map_ext_in. intros k Hk. apply in_seq in Hk.
  apply row_take. lia.
Qed.

Lemma length_duplicated_from (seen rs : list (list cell)) :
  length (duplicated_from seen rs) = length rs.
Proof.
  revert seen. induction rs as [|r t IH]; intros seen; simpl; [reflexivity|].
  destruct (existsb (list_eqb cell_eqb r) seen); simpl; now rewrite IH.
Qed.

Lemma length_unmarked (i : nat) (mask : list bool) :
  length (unmarked i mask) <= length mask.
Proof.
  revert i. induction mask as [|[|] t IH]; intros i; simpl.
  - lia.
  - specialize (IH (S i)). lia.
  - specialize (IH (S i)). lia.
Qed.

Lemma unmarked_ge (i k : nat) (mask : list bool) :
  In k (unmarked i mask) -> i <= k.
Proof.
  revert i. induction mask as [|[|] t IH]; intros i; simpl.
  - tauto.
  - intros H. apply IH in H. lia.
  - intros [H|H]; [lia|]. apply IH in H. lia.
Qed.

Lemma unmarked_sorted (i : nat) (mask : list bool) :
  StronglySorted lt (unmarked i mask).
Proof.
  revert i. induction mask as [|[|] t IH]; intros i; simpl.
  - constructor.
  - apply IH.
  - constructor; [apply IH|].
    apply Forall_forall. intros k Hk. apply unmarked_ge in Hk. lia.
Qed.

(** The unmarked positions are those of the rows that are new: not among
    the rows seen before the scan and not equal to an earlier row of it. *)
Lemma unmarked_duplicated_from (rs : list (list cell)) :
  forall (seen : list (list cell)) (i k : nat),
    In k (unmarked i (duplicated_from seen rs)) <->
    (i <= k < i + length rs
     /\ ~ In (nth (k - i) rs []) seen
     /\ forall j, i <= j < k -> nth (j - i) rs [] <> nth (k - i) rs []).
Proof.
  induction rs as [|r t IH]; intros seen i k; simpl.
  - split; [tauto|]. intros [H _]. lia.
  - destruct (existsb (list_eqb cell_eqb r) seen) eqn:E; simpl.
    + apply (existsb_eqb_In _ row_eqb_eq) in E.
      rewrite IH. split.
      * intros (Hk & Hs & Hj).
        replace (k - i) with (S (k - S i)) by lia.
        split; [lia|]. split; [exact Hs|].
        intros j Hji. destruct (Nat.eq_dec j i) as [->|Hne].
        -- rewrite Nat.sub_diag. intros Heq. apply Hs. now rewrite <- Heq.
        -- replace (j - i) with (S (j - S i)) by lia. apply Hj. lia.
      * intros (Hk & Hs & Hj).
        assert (Hki : k <> i).
        { intros ->. rewrite Nat.sub_diag in Hs. contradiction. }
        replace (k - i) with (S (k - S i)) in Hs, Hj by lia.
        split; [lia|]. split; [exact Hs|].
        intros j Hji. specialize (Hj j).
        replace (j - i) with (S (j - S i)) in Hj by lia. apply Hj. lia.
    + apply (existsb_eqb_not_In _ row_eqb_eq) in E.
      rewrite IH. split.
      * intros [<-|(Hk & Hs & Hj)].
        -- rewrite Nat.sub_diag. split; [lia|]. split; [exact E|].
           intros j Hji. lia.
        -- replace (k - i) with (S (k - S i)) by lia.
           split; [lia|]. split; [simpl in Hs; tauto|].
           intros j Hji. destruct (Nat.eq_dec j i) as [->|Hne].
           ++ rewrite Nat.sub_diag. intros Heq. apply Hs. now left.
           ++ replace (j - i) with (S (j - S i)) by lia. apply Hj. lia.
      * intros (Hk & Hs & Hj).
        destruct (Nat.eq_dec k i) as [->|Hki]; [now left|right].
        assert (Hr := Hj i). rewrite Nat.sub_diag in Hr.
        replace (k - i) with (S (k - S i)) in Hs, Hj, Hr by lia.
        split; [lia|]. split.
        -- simpl. intros [H|H]; [|contradiction]. apply Hr; [lia|exact H].
        -- intros j Hji. specialize (Hj j).
           replace (j - i) with (S (j - S i)) in Hj by lia. apply Hj. lia.
Qed.

Lemma NoDup_map_sorted {A : Type} (f : nat -> A) (idx : list nat) :
  StronglySorted lt idx ->
  (forall a b, In a idx -> In b idx -> a < b -> f a <> f b) ->
  NoDup (map f idx).
Proof.
  induction 1 as [|a t Hs IH Ha]; intros Hf; simpl.
  - constructor.
  - constructor.
    + rewrite in_map_iff. intros [b [Hb Hin]].
      rewrite Forall_forall in Ha.
      apply (Hf a b); [now left|now right|now apply Ha|congruence].
    + apply IH. intros x y Hx Hy. apply Hf; now right.
Qed.

(** C7.  Deduplication leaves no two equal rows and no more rows than it
    was given: it keeps, in their original order, exactly the rows that are
    not equal to an earlier row, that is the first occurrence of each
    distinct row. *)
Theorem deduplication_keeps_first_occurrences (df : DataFrame) :
  NoDup (rows (handle_duplicates df))
  /\ nrows (handle_duplicates df) <= nrows df
  /\ exists idx : list nat,
       rows (handle_duplicates df) = map (row df) idx
       /\ StronglySorted lt idx
       /\ forall i, In i idx <->
                    (i < nrows df /\ forall j, j < i -> row df j <> row df i).
Proof.
  unfold handle_duplicates, drop_duplicates.
  destruct (empty df) eqn:E.
  - assert (Hn : nrows df = 0).
    { destruct df as [|c t]; [reflexivity|]. now apply Nat.eqb_eq in E. }
    assert (Hr : rows df = []) by (unfold rows; now rewrite Hn).
    rewrite Hr. split; [constructor|]. split; [lia|].
    exists []. split; [reflexivity|]. split; [constructor|].
    intros i. simpl. split; [tauto|]. intros [H _]. lia.
  - assert (Hdf : df <> []) by (destruct df; [discriminate|congruence]).
    set (idx := unmarked 0 (duplicated df)).
    assert (Hspec : forall i, In i idx <->
              (i < nrows df /\ forall j, j < i -> row df j <> row df i)).
    { intros i. unfold idx, duplicated. rewrite unmarked_duplicated_from.
      rewrite length_rows, Nat.sub_0_r. simpl. split.
      - intros (Hi & _ & Hj). split; [lia|]. intros j Hji.
        specialize (Hj j). rewrite Nat.sub_0_r in Hj.
        rewrite !nth_rows in Hj by lia. apply Hj. lia.
      - intros (Hi & Hj). split; [lia|]. split; [tauto|]. intros j Hji.
        rewrite Nat.sub_0_r, !nth_rows by lia. apply Hj. lia. }
    rewrite (rows_take _ _ Hdf), (nrows_take _ _ Hdf).
    split; [|split].
    + apply NoDup_map_sorted; [apply unmarked_sorted|].
      intros a b _ Hb Hab. apply Hspec in Hb. now apply Hb.
    + unfold idx, duplicated.
      etransitivity; [apply length_unmarked|].
      now rewrite length_duplicated_from, length_rows.
    + exists idx. split; [reflexivity|]. split; [apply unmarked_sorted|exact Hspec].
Qed.

(* ================================================================== *)
(** * Date features *)

Lemma series_set_column (df : DataFrame) (n m : string) ty cells :
  series (set_column df n ty cells) m
  = if String.eqb n m then cells else series df m.
Proof.
  unfold series, get_column.
  induction df as [|c t IH]; simpl.
  - destruct (String.eqb n m); reflexivity.
  - destruct (String.eqb (col_name c) n) eqn:E; simpl.
    + apply String.eqb_eq in E. subst n.
      destruct (String.eqb (col_name c) m); reflexivity.
    + destruct (String.eqb (col_name c) m) eqn:E'.
      * apply String.eqb_eq in E'. subst m. now rewrite String.eqb_sym, E.
      * exact IH.
Qed.

Lemma nrows_set_column (df : DataFrame) (n : string) ty cells :
  df <> [] ->
  length cells = length (series df n) ->
  nrows (set_column df n ty cells) = nrows df.
Proof.
  destruct df as [|c t]; [congruence|]. intros _.
  unfold series, get_column. simpl.
  destruct (String.eqb (col_name c) n); simpl; auto.
Qed.

Lemma set_column_not_nil (df : DataFrame) (n : string) ty cells :
  set_column df n ty cells <> [].
Proof.
  destruct df as [|c t]; simpl; [discriminate|].
  destruct (String.eqb (col_name c) n); discriminate.
Qed.

Lemma nrows_add_column (df : DataFrame) (n : string) ty cells :
  df <> [] -> has_column df n = false ->
  nrows (set_column df n ty cells) = nrows df.
Proof.
  destruct df as [|c t]; [congruence|]. intros _ H.
  apply has_column_false in H. simpl in *.
  destruct (String.eqb (col_name c) n) eqn:E; [|reflexivity].
  apply String.eqb_eq in E. tauto.
Qed.

Lemma to_datetime_parsed (parse_datetime : cell -> option timestamp) (c : cell) :
  parsed_date (to_datetime parse_datetime c).
Proof.
  assert (G : forall d, is_calendar_date d = true -> parsed_date (CDate d)).
  { intros d Hd. right. exists d. unfold is_calendar_date in Hd.
    rewrite !andb_true_iff, !Z.leb_le in Hd.
    destruct Hd as [[[H1 H2] _] _].
    assert (0 <= (ts_month d - 1) / 3)%Z by (apply Z.div_pos; lia).
    assert ((ts_month d - 1) / 3 < 4)%Z by (apply Z.div_lt_upper_bound; lia).
    split; [reflexivity|]. split; [lia|]. split; [reflexivity|].
    split; [reflexivity|]. split; [reflexivity|]. lia. }
  unfold to_datetime.
  destruct (match c with
            | CNull => None
            | CDate d => Some d
            | _ => parse_datetime c
            end) as [d|]; [|now left].
  destruct (is_calendar_date d) eqn:E; [now apply G|now left].
Qed.

Lemma extract_date_features_nrows (parse_datetime : cell -> option timestamp)
  (df : DataFrame) :
  nrows (extract_date_features parse_datetime df) = nrows df.
Proof.
  unfold extract_date_features.
  destruct (has_column df "ORDERDATE") eqn:E; [|reflexivity].
  assert (Hdf : df <> []) by (destruct df; [discriminate|congruence]).
  set (df1 := set_column df "ORDERDATE" Datetime _).
  assert (H1 : nrows df1 = nrows df).
  { apply nrows_set_column; [exact Hdf|]. now rewrite length_map. }
  assert (N1 : df1 <> []) by apply set_column_not_nil.
  destruct (has_column df1 "YEAR_ID") eqn:EY; simpl negb; cbv iota.
  all: match goal with |- context [has_column ?d "MONTH_ID"] => set (df2 := d) end.
  all: assert (H2 : nrows df2 = nrows df)
         by (subst df2; rewrite ?nrows_add_column; auto).
  all: assert (N2 : df2 <> []) by (subst df2; auto using set_column_not_nil).
  all: destruct (has_column df2 "MONTH_ID") eqn:EM; simpl negb; cbv iota.
  all: match goal with |- context [has_column ?d "QTR_ID"] => set (df3 := d) end.
  all: assert (H3 : nrows df3 = nrows df)
         by (subst df3; rewrite ?nrows_add_column; auto).
  all: assert (N3 : df3 <> []) by (subst df3; auto using set_column_not_nil).
  all: destruct (has_column df3 "QTR_ID") eqn:EQ; simpl negb; cbv iota.
  all: rewrite ?nrows_add_column; auto.
Qed.

(** C4.  With an ORDERDATE column, every row is kept and its order date
    becomes a calendar date or null.  Year, month (1 to 12) and quarter
    ((month-1)//3+1) are derived column by column: a column that is absent
    is created for every row from the parsed date, null where the date is
    null; a column that is present is left as it is in every row, also
    where its value is null. *)
Theorem date_features_by_column (parse_datetime : cell -> option timestamp)
  (df : DataFrame) :
  has_column df "ORDERDATE" = true ->
  let dates := map (to_datetime parse_datetime) (series df "ORDERDATE") in
  let out := extract_date_features parse_datetime df in
  nrows out = nrows df
  /\ series out "ORDERDATE" = dates
  /\ Forall parsed_date dates
  /\ series out "YEAR_ID"
     = (if has_column df "YEAR_ID" then series df "YEAR_ID"
        else map dt_year dates)
  /\ series out "MONTH_ID"
     = (if has_column df "MONTH_ID" then series df "MONTH_ID"
        else map dt_month dates)
  /\ series out "QTR_ID"
     = (if has_column df "QTR_ID" then series df "QTR_ID"
        else map dt_quarter dates).
Proof.
  intros H dates out.
  split; [apply extract_date_features_nrows|].
  assert (HF : Forall parsed_date dates).
  { apply Forall_forall. intros c Hc. apply in_map_iff in Hc.
    destruct Hc as [c0 [<- _]]. apply to_datetime_parsed. }
  subst out. unfold extract_date_features. rewrite H.
  destruct (has_column df "YEAR_ID") eqn:EY;
    destruct (has_column df "MONTH_ID") eqn:EM;
    destruct (has_column df "QTR_ID") eqn:EQ;
    repeat (progress (rewrite ?has_column_set_column, ?EY, ?EM, ?EQ;
                      simpl String.eqb; simpl orb; simpl negb; cbv iota));
    repeat (progress (rewrite ?series_set_column; simpl String.eqb; cbv iota));
    repeat split; auto.
Qed.

Lemma date_features_by_column_witness :
  nrows (extract_date_features sample_parse df_unpopulated_year) = 1
  /\ series (extract_date_features sample_parse df_unpopulated_year) "YEAR_ID"
     = [CNull]
  /\ series (extract_date_features sample_parse df_unpopulated_year) "MONTH_ID"
     = [num 5]
  /\ series (extract_date_features sample_parse df_unpopulated_year) "QTR_ID"
     = [num 2].
Proof.
  destruct (date_features_by_column sample_parse df_unpopulated_year)
    as (Hn & _ & _ & Hy & Hm & Hq).
  - reflexivity.
  - split; [exact Hn|]. split; [exact Hy|]. split.
    + rewrite Hm. vm_compute. reflexivity.
    + rewrite Hq. vm_compute. reflexivity.
Defined.

Lemma extract_date_features_not_rowwise :
  ~ derives_unpopulated_rows df_unpopulated_year
      (extract_date_features sample_parse df_unpopulated_year).
Proof.
  intros H.
  specialize (H 0 {| ts_year := 2004; ts_month := 5; ts_day := 7 |}
                eq_refl eq_refl).
  vm_compute in H. discriminate H.
Qed.

(* ================================================================== *)
(** * Imputation of text columns by the mode *)

Lemma string_leb_cases (a b : string) :
  String.leb a b = true <-> a = b \/ String_as_OT.lt a b.
Proof.
  unfold String.leb.
  rewrite <- String_as_OT.cmp_eq, <- String_as_OT.cmp_lt.
  unfold String_as_OT.cmp.
  destruct (String.compare a b); split; intros H;
    try reflexivity; try discriminate; auto;
    destruct H; discriminate.
Qed.

Lemma string_leb_refl (a : string) : String.leb a a = true.
Proof. apply string_leb_cases. now left. Qed.

Lemma string_leb_trans (a b c : string) :
  String.leb a b = true -> String.leb b c = true -> String.leb a c = true.
Proof.
  rewrite !string_leb_cases. intros [->|Hab] [->|Hbc]; auto.
  right. now apply String_as_OT.lt_trans with b.
Qed.

Lemma count_str_not_In (s : string) (l : list string) :
  ~ In s l -> count_str s l = 0.
Proof.
  unfold count_str. induction l as [|x t IH]; simpl; [reflexivity|].
  intros H. destruct (String.eqb s x) eqn:E.
  - apply String.eqb_eq in E. subst. tauto.
  - apply IH. tauto.
Qed.

Lemma count_str_In (s : string) (l : list string) :
  In s l -> 0 < count_str s l.
Proof.
  unfold count_str. induction l as [|x t IH]; simpl; [tauto|].
  intros H. destruct (String.eqb s x) eqn:E; simpl; [lia|].
  destruct H as [H|H]; [|now apply IH].
  subst. rewrite String.eqb_refl in E. discriminate.
Qed.

Lemma count_le_fold (l l' : list string) (s : string) :
  In s l' ->
  count_str s l <= fold_right (fun s m => Nat.max (count_str s l) m) 0 l'.
Proof.
  induction l' as [|x t IH]; simpl; [tauto|].
  intros [->|H]; [lia|]. specialize (IH H). lia.
Qed.

Lemma count_le_max_count (s : string) (l : list string) :
  count_str s l <= max_count l.
Proof.
  destruct (in_dec string_dec s l) as [H|H].
  - now apply count_le_fold.
  - rewrite count_str_not_In by exact H. lia.
Qed.

Lemma fold_max_attained (l l' : list string) :
  l' <> [] ->
  exists s, In s l'
            /\ count_str s l
               = fold_right (fun s m => Nat.max (count_str s l) m) 0 l'.
Proof.
  induction l' as [|x t IH]; [congruence|]. intros _. simpl.
  destruct t as [|y u].
  - exists x. simpl. split; [now left|lia].
  - destruct IH as [s [Hs He]]; [discriminate|].
    destruct (Nat.max_spec (count_str x l)
                (fold_right (fun s m => Nat.max (count_str s l) m) 0 (y :: u)))
      as [[_ Hm]|[_ Hm]]; rewrite Hm.
    + exists s. split; [now right|exact He].
    + exists x. split; [now left|reflexivity].
Qed.

Lemma mode_In (s : string) (l : list string) :
  In s (mode l) <-> In s l /\ count_str s l = max_count l.
Proof.
  unfold mode. rewrite sort_In, filter_In, Nat.eqb_eq.
  rewrite (distinct_In _ String.eqb_eq). reflexivity.
Qed.

Lemma mode_not_nil (l : list string) : l <> [] -> mode l <> [].
Proof.
  intros H. destruct (fold_max_attained l l H) as [s [Hs He]].
  assert (Hin : In s (mode l)) by (apply mode_In; split; assumption).
  intros E. rewrite E in Hin. contradiction.
Qed.

Lemma mode_head (l : list string) (m : string) (rest : list string) :
  mode l = m :: rest -> smallest_mode m l.
Proof.
  intros E.
  assert (Hm : In m (mode l)) by (rewrite E; now left).
  apply mode_In in Hm. destruct Hm as [Hin Hmax].
  split; [exact Hin|]. split.
  - intros s. rewrite Hmax. apply count_le_max_count.
  - intros s Hs.
    assert (Hs' : In s (mode l)).
    { apply mode_In. split; [|congruence].
      destruct (in_dec string_dec s l) as [H|H]; [exact H|].
      apply count_str_not_In in H. apply count_str_In in Hin. lia. }
    assert (Hsorted : sorted_by String.leb (mode l)).
    { apply sort_sorted; [apply String.leb_total|apply string_leb_trans]. }
    rewrite E in Hs', Hsorted. destruct Hs' as [<-|Hs'].
    + apply string_leb_refl.
    + apply StronglySorted_inv in Hsorted. destruct Hsorted as [_ Hall].
      rewrite Forall_forall in Hall. now apply Hall.
Qed.

Lemma fill_object_with_nulls (c : column) :
  0 < null_count (col_cells c) ->
  strs (col_cells c) <> [] ->
  exists m, smallest_mode m (strs (col_cells c))
            /\ fill_object c = Ok (set_cells c (fillna (CStr m) (col_cells c))).
Proof.
  intros Hn Hs. unfold fill_object.
  apply Nat.ltb_lt in Hn. rewrite Hn.
  destruct (mode (strs (col_cells c))) as [|m rest] eqn:E.
  - now apply mode_not_nil in E.
  - exists m. split; [now apply mode_head in E|reflexivity].
Qed.

Lemma fill_object_Ok_strs (c c' : column) :
  0 < null_count (col_cells c) -> fill_object c = Ok c' ->
  strs (col_cells c) <> [].
Proof.
  intros Hn H E. unfold fill_object in H.
  apply Nat.ltb_lt in Hn. rewrite Hn, E in H. discriminate.
Qed.

Lemma Forall2_nth_error {A B : Type} (R : A -> B -> Prop) (l : list A)
  (l' : list B) (j : nat) (a : A) :
  Forall2 R l l' -> nth_error l j = Some a ->
  exists b, nth_error l' j = Some b /\ R a b.
Proof.
  intros H. revert j. induction H as [|x y t t' Hxy _ IH]; intros [|j] Hj;
    simpl in *; try discriminate.
  - injection Hj as ->. eauto.
  - now apply IH.
Qed.

Lemma handle_missing_data_succeeds (df : DataFrame) :
  (forall c, In c df -> col_dtype c = Object ->
             0 < null_count (col_cells c) -> strs (col_cells c) <> []) ->
  exists df', handle_missing_data df = Ok df'.
Proof.
  intros H. unfold handle_missing_data. apply mapM_total.
  apply Forall_forall. intros c1 Hc1. apply in_map_iff in Hc1.
  destruct Hc1 as [c [<- Hc]].
  destruct (is_numeric c) eqn:En.
  - unfold is_object. rewrite fill_numeric_dtype.
    unfold is_numeric in En. destruct (col_dtype c); try discriminate. eauto.
  - destruct (is_object c) eqn:Eo; [|eauto].
    unfold fill_object.
    destruct (Nat.ltb 0 (null_count (col_cells c))) eqn:El; [|eauto].
    destruct (mode (strs (col_cells c))) eqn:Em; [|eauto].
    exfalso. apply (mode_not_nil (strs (col_cells c))); [|exact Em].
    apply H; [exact Hc| |now apply Nat.ltb_lt].
    unfold is_object in Eo. now destruct (col_dtype c).
Qed.

(** C5.  A text column with missing entries has each of them replaced by
    the column's mode and leaves the other entries as they are; when
    several values are equally frequent the mode used is the smallest of
    them in the order of strings ([mode()] returns the modes sorted).  The
    step succeeds when every such column holds at least one value. *)
Theorem mode_imputation (df : DataFrame) :
  ((forall c, In c df -> col_dtype c = Object ->
              0 < null_count (col_cells c) -> strs (col_cells c) <> []) ->
   exists df', handle_missing_data df = Ok df')
  /\
  (forall (df' : DataFrame) (j : nat) (c : column),
     handle_missing_data df = Ok df' ->
     nth_error df j = Some c ->
     col_dtype c = Object ->
     0 < null_count (col_cells c) ->
     exists (m : string) (c' : column),
       smallest_mode m (strs (col_cells c))
       /\ nth_error df' j = Some c'
       /\ col_name c' = col_name c
       /\ col_cells c'
          = map (fun x => if isnull x then CStr m else x) (col_cells c)).
Proof.
  split; [apply handle_missing_data_succeeds|].
  intros df' j c H Hj Ho Hn.
  { apply handle_missing_data_columns in H.
    destruct (Forall2_nth_error _ _ _ _ _ H Hj) as [c' [Hj' Hi]].
    unfold imputed in Hi. rewrite Ho in Hi.
    destruct (fill_object_with_nulls c Hn) as [m [Hm Hf]].
    { now apply fill_object_Ok_strs with c'. }
    exists m, c'. rewrite Hf in Hi. injection Hi as <-.
    repeat split; try assumption; apply Hm. }
Qed.

Lemma mode_imputation_witness :
  (exists df', handle_missing_data df_tied_mode = Ok df')
  /\ exists (m : string) (c' : column),
       smallest_mode m ["SHIPPED"; "CANCELLED"]
       /\ nth_error
            [ {| col_name := "STATUS"; col_dtype := Object;
                 col_cells := [CStr "SHIPPED"; CStr "CANCELLED";
                               CStr "CANCELLED"] |} ] 0 = Some c'
       /\ col_name c' = "STATUS"
       /\ col_cells c' = map (fun x => if isnull x then CStr m else x)
                             [CStr "SHIPPED"; CStr "CANCELLED"; CNull].
Proof.
  destruct (mode_imputation df_tied_mode) as [Ht Hc].
  split.
  - apply Ht. intros c [<-|[]] _ _. discriminate.
  - apply (Hc _ 0 {| col_name := "STATUS"; col_dtype := Object;
                     col_cells := [CStr "SHIPPED"; CStr "CANCELLED"; CNull] |}).
    + reflexivity.
    + reflexivity.
    + reflexivity.
    + apply Nat.ltb_lt. reflexivity.
Defined.

Lemma mode_imputation_not_first_encountered :
  exists df', handle_missing_data df_tied_mode = Ok df'
              /\ ~ fills_with_first_encountered df_tied_mode df'.
Proof.
  eexists. split; [reflexivity|].
  intros H.
  destruct (H 0 2 _ _ eq_refl eq_refl eq_refl eq_refl) as [m [Hm Hc]].
  vm_compute in Hm. injection Hm as <-. vm_compute in Hc. discriminate Hc.
Qed.

(* ================================================================== *)
(** * Imputation of numeric columns by the median *)

Lemma filter_length_perm {A : Type} (f : A -> bool) (l l' : list A) :
  Permutation l l' -> length (filter f l) = length (filter f l').
Proof.
  induction 1 as [|x l l' _ IH|x y l|l l' l'' _ IH1 _ IH2]; simpl.
  - reflexivity.
  - destruct (f x); simpl; now rewrite IH.
  - destruct (f x), (f y); reflexivity.
  - now rewrite IH1.
Qed.

Section RankFacts.
Context {A : Type}.
Variable leb : A -> A -> bool.
Hypothesis leb_total : forall a b, leb a b = true \/ leb b a = true.
Hypothesis leb_trans :
  forall a b c, leb a b = true -> leb b c = true -> leb a c = true.

Lemma count_below_none (m : A) (l : list A) :
  Forall (fun x => leb m x = true) l -> count_below leb m l = 0.
Proof.
  unfold count_below. induction 1 as [|x t Hx _ IH]; simpl; [reflexivity|].
  now rewrite Hx.
Qed.

Lemma count_above_all (m : A) (l : list A) :
  Forall (fun x => leb x m = false) l -> count_above leb m l = length l.
Proof.
  unfold count_above. induction 1 as [|x t Hx _ IH]; simpl; [reflexivity|].
  rewrite Hx. simpl. now rewrite IH.
Qed.

Lemma count_above_le (m : A) (l : list A) : count_above leb m l <= length l.
Proof. apply filter_length_le. Qed.

Lemma sorted_nth_above (m d : A) (s : list A) :
  sorted_by leb s ->
  forall i, count_below leb m s <= i -> i < length s ->
            leb m (nth i s d) = true.
Proof.
  unfold sorted_by. induction 1 as [|x t Hs IH Hx]; intros i Hc Hi; simpl in *.
  - lia.
  - unfold count_below in Hc. simpl in Hc.
    destruct (leb m x) eqn:E; simpl in Hc.
    + destruct i as [|i]; [exact E|].
      rewrite Forall_forall in Hx.
      apply leb_trans with x; [exact E|]. apply Hx, nth_In. lia.
    + destruct i as [|i]; [lia|]. apply IH; [unfold count_below|]; lia.
Qed.

Lemma sorted_nth_below (m d : A) (s : list A) :
  sorted_by leb s ->
  forall i, i + count_above leb m s < length s ->
            leb (nth i s d) m = true.
Proof.
  unfold sorted_by. induction 1 as [|x t Hs IH Hx]; intros i Hc; simpl in *.
  - lia.
  - destruct (leb x m) eqn:E.
    + destruct i as [|i]; [exact E|].
      apply IH. unfold count_above in *. simpl in Hc. rewrite E in Hc.
      simpl in Hc. lia.
    + exfalso.
      assert (Hall : Forall (fun y => leb y m = false) (x :: t)).
      { constructor; [exact E|]. rewrite Forall_forall in Hx |- *.
        intros y Hy. destruct (leb y m) eqn:Ey; [|reflexivity].
        rewrite (leb_trans x y m (Hx y Hy) Ey) in E. discriminate. }
      apply count_above_all in Hall. simpl in Hall. lia.
Qed.

Lemma sorted_count_below (m d : A) (s : list A) :
  sorted_by leb s ->
  forall i, i < length s -> leb m (nth i s d) = true ->
            count_below leb m s <= i.
Proof.
  unfold sorted_by. induction 1 as [|x t Hs IH Hx]; intros i Hi Hm; simpl in *.
  - lia.
  - destruct i as [|i].
    + rewrite count_below_none; [lia|].
      constructor; [exact Hm|]. rewrite Forall_forall in Hx |- *.
      intros y Hy. apply leb_trans with x; [exact Hm|now apply Hx].
    + assert (IH' : count_below leb m t <= i) by (apply IH; [lia|exact Hm]).
      unfold count_below in *. simpl.
      destruct (negb (leb m x)); simpl; lia.
Qed.

Lemma sorted_count_above (m d : A) (s : list A) :
  sorted_by leb s ->
  forall i, i < length s -> leb (nth i s d) m = true ->
            i + count_above leb m s < length s.
Proof.
  unfold sorted_by. induction 1 as [|x t Hs IH Hx]; intros i Hi Hm; simpl in *.
  - lia.
  - destruct i as [|i].
    + unfold count_above. simpl. rewrite Hm. simpl.
      pose proof (count_above_le m t) as H. unfold count_above in H. lia.
    + assert (IH' : i + count_above leb m t < length t)
        by (apply IH; [lia|exact Hm]).
      assert (E : leb x m = true).
      { rewrite Forall_forall in Hx.
        apply leb_trans with (nth i t d); [|exact Hm]. apply Hx, nth_In. lia. }
      unfold count_above in *. simpl. rewrite E. simpl. lia.
Qed.

Lemma sorted_nth_mono (d : A) (s : list A) :
  sorted_by leb s ->
  forall i j, i <= j -> j < length s -> leb (nth i s d) (nth j s d) = true.
Proof.
  unfold sorted_by. induction 1 as [|x t Hs IH Hx]; intros i j Hij Hj; simpl in *.
  - lia.
  - destruct i as [|i], j as [|j]; try lia.
    + destruct (leb_total x x); assumption.
    + rewrite Forall_forall in Hx. apply Hx, nth_In. lia.
    + apply IH; lia.
Qed.
End RankFacts.

Lemma Qc_leb_le (a b : Qc) : Qc_leb a b = true <-> (a <= b)%Qc.
Proof. unfold Qc_leb, Qcle. apply Qle_bool_iff. Qed.

Lemma Qc_leb_total (a b : Qc) : Qc_leb a b = true \/ Qc_leb b a = true.
Proof.
  rewrite !Qc_leb_le. destruct (Qclt_le_dec a b) as [H|H]; [left|now right].
  now apply Qclt_le_weak.
Qed.

Lemma Qc_leb_trans (a b c : Qc) :
  Qc_leb a b = true -> Qc_leb b c = true -> Qc_leb a c = true.
Proof. rewrite !Qc_leb_le. apply Qcle_trans. Qed.

Lemma Qc_leb_antisym (a b : Qc) :
  Qc_leb a b = true -> Qc_leb b a = true -> a = b.
Proof. rewrite !Qc_leb_le. apply Qcle_antisym. Qed.

Lemma Qc_leb_refl (a : Qc) : Qc_leb a a = true.
Proof. apply Qc_leb_le, Qcle_refl. Qed.

Lemma Qc_half_sum (a b : Qc) :
  (this ((a + b) / QcZ 2)%Qc == (this a + this b) / 2)%Q.
Proof.
  unfold Qcdiv, Qcmult, Qcinv, Qcplus, QcZ, Q2Qc. cbn [this].
  rewrite !Qred_correct. reflexivity.
Qed.

Lemma Qc_midpoint (a b : Qc) :
  Qc_leb a b = true ->
  Qc_leb a ((a + b) / QcZ 2)%Qc = true /\ Qc_leb ((a + b) / QcZ 2)%Qc b = true.
Proof.
  rewrite !Qc_leb_le. unfold Qcle. rewrite Qc_half_sum. intros H.
  split.
  - apply Qle_shift_div_l; [reflexivity|]. lra.
  - apply Qle_shift_div_r; [reflexivity|]. lra.
Qed.

Lemma Qc_midpoint_same (m : Qc) : ((m + m) / QcZ 2)%Qc = m.
Proof. apply Qc_is_canon. rewrite Qc_half_sum. field. Qed.

Lemma even_half (n : nat) : Nat.odd n = false -> 0 < n -> n / 2 - 1 = (n - 1) / 2.
Proof.
  intros Ho Hn. rewrite <- Nat.negb_even in Ho. apply negb_false_iff in Ho.
  apply Nat.even_spec in Ho. destruct Ho as [k ->].
  rewrite Nat.mul_comm, Nat.div_mul by lia.
  replace (k * 2 - 1) with (1 + (k - 1) * 2) by lia.
  rewrite Nat.div_add by lia. simpl. lia.
Qed.

Lemma odd_half (n : nat) : Nat.odd n = true -> (n - 1) / 2 = n / 2.
Proof.
  intros Ho. apply Nat.odd_spec in Ho. destruct Ho as [k ->].
  replace (2 * k + 1 - 1) with (k * 2) by lia.
  replace (2 * k + 1) with (1 + k * 2) by lia.
  rewrite Nat.div_mul, Nat.div_add by lia. reflexivity.
Qed.

Lemma count_below_sort (m : Qc) (xs : list Qc) :
  count_below Qc_leb m (sort Qc_leb xs) = count_below Qc_leb m xs.
Proof. apply filter_length_perm, sort_perm. Qed.

Lemma count_above_sort (m : Qc) (xs : list Qc) :
  count_above Qc_leb m (sort Qc_leb xs) = count_above Qc_leb m xs.
Proof. apply filter_length_perm, sort_perm. Qed.

Lemma sort_Qc_sorted (xs : list Qc) : sorted_by Qc_leb (sort Qc_leb xs).
Proof. apply sort_sorted; [apply Qc_leb_total|apply Qc_leb_trans]. Qed.

(** A median leaves at most half of the values strictly below it and at
    most half strictly above it. *)
Lemma median_rank (xs : list Qc) (m : Qc) :
  median xs = Some m ->
  0 < length xs
  /\ count_below Qc_leb m xs <= length xs / 2
  /\ (length xs - 1) / 2 + count_above Qc_leb m xs < length xs.
Proof.
  unfold median. rewrite sort_length.
  set (s := sort Qc_leb xs). set (n := length xs).
  assert (Hs : sorted_by Qc_leb s) by apply sort_Qc_sorted.
  assert (Hl : length s = n) by apply sort_length.
  destruct (Nat.eqb n 0) eqn:E0; [discriminate|].
  apply Nat.eqb_neq in E0.
  assert (Hhalf : n / 2 < n) by (apply Nat.div_lt; lia).
  rewrite <- (count_below_sort m xs), <- (count_above_sort m xs). fold s.
  destruct (Nat.odd n) eqn:Eo; intros H0.
  - assert (H : nth (n / 2) s (QcZ 0) = m) by congruence. clear H0.
    split; [lia|]. split.
    + apply (sorted_count_below Qc_leb Qc_leb_trans m (QcZ 0) s Hs); [lia|].
      rewrite H. apply Qc_leb_refl.
    + rewrite (odd_half n Eo).
      replace n with (length s) at 2 by exact Hl.
      apply (sorted_count_above Qc_leb Qc_leb_trans m (QcZ 0) s Hs); [lia|].
      rewrite H. apply Qc_leb_refl.
  - assert (H : ((nth (n / 2 - 1) s (QcZ 0) + nth (n / 2) s (QcZ 0)) / QcZ 2)%Qc
                = m) by congruence.
    clear H0.
    assert (Hlo : n / 2 - 1 = (n - 1) / 2) by (apply even_half; [exact Eo|lia]).
    assert (Hord : Qc_leb (nth (n / 2 - 1) s (QcZ 0)) (nth (n / 2) s (QcZ 0)) = true).
    { apply (sorted_nth_mono Qc_leb Qc_leb_total); [exact Hs|lia|lia]. }
    apply Qc_midpoint in Hord. rewrite H in Hord. destruct Hord as [H1 H2].
    split; [lia|]. split.
    + apply (sorted_count_below Qc_leb Qc_leb_trans m (QcZ 0) s Hs); [lia|exact H2].
    + rewrite <- Hlo.
      replace n with (length s) at 2 by exact Hl.
      apply (sorted_count_above Qc_leb Qc_leb_trans m (QcZ 0) s Hs); [lia|exact H1].
Qed.

(** Conversely, a value with few enough values on either side is the
    median. *)
Lemma median_of_rank (ys : list Qc) (m : Qc) :
  0 < length ys ->
  count_below Qc_leb m ys <= (length ys - 1) / 2 ->
  length ys / 2 + count_above Qc_leb m ys < length ys ->
  median ys = Some m.
Proof.
  intros Hn Hb Ha. unfold median. rewrite sort_length.
  set (s := sort Qc_leb ys). set (n := length ys) in *.
  assert (Hs : sorted_by Qc_leb s) by apply sort_Qc_sorted.
  assert (Hl : length s = n) by apply sort_length.
  rewrite <- (count_below_sort m ys) in Hb.
  rewrite <- (count_above_sort m ys) in Ha. fold s in Hb, Ha.
  assert (Hhalf : n / 2 < n) by (apply Nat.div_lt; lia).
  assert (Hle : (n - 1) / 2 <= n / 2) by (apply Nat.Div0.div_le_mono; lia).
  assert (Hat : forall i, (n - 1) / 2 <= i -> i <= n / 2 -> nth i s (QcZ 0) = m).
  { intros i H1 H2. apply Qc_leb_antisym.
    - apply (sorted_nth_below Qc_leb Qc_leb_trans m (QcZ 0) s Hs). lia.
    - apply (sorted_nth_above Qc_leb Qc_leb_trans m (QcZ 0) s Hs); lia. }
  destruct (Nat.eqb n 0) eqn:E0; [apply Nat.eqb_eq in E0; lia|].
  destruct (Nat.odd n) eqn:Eo.
  - rewrite Hat; [reflexivity|lia|lia].
  - rewrite (even_half n Eo Hn).
    rewrite !Hat by lia. now rewrite Qc_midpoint_same.
Qed.

Lemma length_nums_fillna (m : Qc) (cells : list cell) :
  length (nums (fillna (CNum m) cells)) = length (nums cells) + null_count cells.
Proof.
  unfold null_count. induction cells as [|c t IH]; simpl; [reflexivity|].
  destruct c; simpl; rewrite ?IH; lia.
Qed.

Lemma count_below_fillna (m : Qc) (cells : list cell) :
  count_below Qc_leb m (nums (fillna (CNum m) cells))
  = count_below Qc_leb m (nums cells).
Proof.
  unfold count_below. induction cells as [|c t IH]; simpl; [reflexivity|].
  destruct c; simpl; rewrite ?Qc_leb_refl; simpl; rewrite ?IH; try reflexivity.
  destruct (negb (Qc_leb m q)); simpl; now rewrite IH.
Qed.

Lemma count_above_fillna (m : Qc) (cells : list cell) :
  count_above Qc_leb m (nums (fillna (CNum m) cells))
  = count_above Qc_leb m (nums cells).
Proof.
  unfold count_above. induction cells as [|c t IH]; simpl; [reflexivity|].
  destruct c; simpl; rewrite ?Qc_leb_refl; simpl; rewrite ?IH; try reflexivity.
  destruct (negb (Qc_leb q m)); simpl; now rewrite IH.
Qed.

Lemma null_count_fillna (v : cell) (cells : list cell) :
  isnull v = false -> null_count (fillna v cells) = 0.
Proof.
  intros Hv. unfold null_count. induction cells as [|c t IH]; simpl; [reflexivity|].
  destruct (isnull c) eqn:E; rewrite ?Hv, ?E; exact IH.
Qed.

Lemma fillna_no_nulls (v : cell) (cells : list cell) :
  null_count cells = 0 -> fillna v cells = cells.
Proof.
  unfold null_count. induction cells as [|c t IH]; simpl; [reflexivity|].
  destruct (isnull c); simpl; [discriminate|]. intros H. now rewrite IH.
Qed.

Lemma median_fillna (m : Qc) (cells : list cell) :
  median (nums cells) = Some m ->
  median (nums (fillna (CNum m) cells)) = Some m.
Proof.
  intros H. destruct (Nat.eq_dec (null_count cells) 0) as [E|E].
  - now rewrite fillna_no_nulls.
  - apply median_rank in H. destruct H as (Hn & Hb & Ha).
    apply median_of_rank;
      rewrite ?length_nums_fillna, ?count_below_fillna, ?count_above_fillna.
    + lia.
    + etransitivity; [exact Hb|]. apply Nat.Div0.div_le_mono. lia.
    + set (n := length (nums cells)) in *. set (k := null_count cells) in *.
      set (a := count_above Qc_leb m (nums cells)) in *.
      pose proof (Nat.div_mod_eq n 2) as E1.
      pose proof (Nat.mod_upper_bound n 2) as E2.
      pose proof (Nat.div_mod_eq (n - 1) 2) as E3.
      pose proof (Nat.mod_upper_bound (n - 1) 2) as E4.
      pose proof (Nat.div_mod_eq (n + k) 2) as E5.
      pose proof (Nat.mod_upper_bound (n + k) 2) as E6.
      lia.
Qed.

Lemma median_not_nil (xs : list Qc) : xs <> [] -> exists m, median xs = Some m.
Proof.
  intros H. unfold median. rewrite sort_length.
  destruct xs as [|x t]; [congruence|]. simpl Nat.eqb.
  destruct (Nat.odd (length (x :: t))); eauto.
Qed.

Lemma fill_numeric_cells (c : column) (m : Qc) :
  median (nums (col_cells c)) = Some m ->
  col_cells (fill_numeric c) = fillna (CNum m) (col_cells c).
Proof.
  intros H. unfold fill_numeric.
  destruct (Nat.ltb 0 (null_count (col_cells c))) eqn:E.
  - now rewrite H.
  - apply Nat.ltb_ge in E. rewrite fillna_no_nulls; [reflexivity|lia].
Qed.

(** C6.  A numeric column with at least one value comes out of imputation
    without missing entries: each missing entry holds the median of the
    original values, the other entries are unchanged, and the median of
    the column is still that median.  The step succeeds when every text
    column with missing entries holds at least one value. *)
Theorem median_imputation (df : DataFrame) :
  ((forall c, In c df -> col_dtype c = Object ->
              0 < null_count (col_cells c) -> strs (col_cells c) <> []) ->
   exists df', handle_missing_data df = Ok df')
  /\
  (forall (df' : DataFrame) (j : nat) (c : column),
     handle_missing_data df = Ok df' ->
     nth_error df j = Some c ->
     col_dtype c = Numeric ->
     nums (col_cells c) <> [] ->
     exists (m : Qc) (c' : column),
       median (nums (col_cells c)) = Some m
       /\ nth_error df' j = Some c'
       /\ col_name c' = col_name c
       /\ col_cells c'
          = map (fun x => if isnull x then CNum m else x) (col_cells c)
       /\ null_count (col_cells c') = 0
       /\ median (nums (col_cells c')) = Some m).
Proof.
  split; [apply handle_missing_data_succeeds|].
  intros df' j c H Hj Hty Hne.
  apply handle_missing_data_columns in H.
  destruct (Forall2_nth_error _ _ _ _ _ H Hj) as [c' [Hj' Hi]].
  unfold imputed in Hi. rewrite Hty in Hi. subst c'.
  destruct (median_not_nil _ Hne) as [m Hm].
  exists m, (fill_numeric c).
  pose proof (fill_numeric_cells c m Hm) as Hc.
  split; [exact Hm|]. split; [exact Hj'|].
  split; [apply fill_numeric_name|]. split; [exact Hc|].
  rewrite Hc. split.
  - now apply null_count_fillna.
  - now apply median_fillna.
Qed.

Lemma median_imputation_witness :
  (exists df', handle_missing_data [sales_with_null] = Ok df')
  /\ exists (m : Qc) (c' : column),
       median (nums (col_cells sales_with_null)) = Some m
       /\ nth_error df_imputed 0 = Some c'
       /\ col_name c' = col_name sales_with_null
       /\ col_cells c'
          = map (fun x => if isnull x then CNum m else x)
                (col_cells sales_with_null)
       /\ null_count (col_cells c') = 0
       /\ median (nums (col_cells c')) = Some m.
Proof.
  destruct (median_imputation [sales_with_null]) as [Ht Hc].
  split.
  - apply Ht. intros c [<-|[]] Hty. discriminate Hty.
  - apply (Hc df_imputed 0 sales_with_null).
    + vm_compute. reflexivity.
    + reflexivity.
    + reflexivity.
    + discriminate.
Defined.

(* ================================================================== *)
(** * The order of SQLite values and of keys *)

Lemma string_compare_lt_trans (a b c : string) :
  String.compare a b = Lt -> String.compare b c = Lt -> String.compare a c = Lt.
Proof.
  change String.compare with String_as_OT.cmp.
  rewrite !String_as_OT.cmp_lt. apply String_as_OT.lt_trans.
Qed.

Lemma value_compare_antisym (a b : value) :
  value_compare b a = CompOpp (value_compare a b).
Proof.
  destruct a as [|x|x], b as [|y|y]; simpl; try reflexivity.
  - symmetry. apply Qcompare_antisym.
  - apply String.compare_antisym.
Qed.

Lemma value_compare_lt_trans (a b c : value) :
  value_compare a b = Lt -> value_compare b c = Lt -> value_compare a c = Lt.
Proof.
  destruct a as [|x|x], b as [|y|y], c as [|z|z]; simpl;
    try reflexivity; try discriminate.
  - rewrite <- !Qlt_alt. apply Qlt_trans.
  - apply string_compare_lt_trans.
Qed.

Lemma key_compare_antisym (k1 k2 : list value) :
  key_compare k2 k1 = CompOpp (key_compare k1 k2).
Proof.
  revert k2. induction k1 as [|a t IH]; intros [|b u]; simpl; try reflexivity.
  rewrite (value_compare_antisym a b).
  destruct (value_compare a b); simpl; [apply IH|reflexivity|reflexivity].
Qed.

Lemma key_compare_lt_trans (k1 k2 k3 : list value) :
  key_compare k1 k2 = Lt -> key_compare k2 k3 = Lt -> key_compare k1 k3 = Lt.
Proof.
  revert k2 k3. induction k1 as [|a t IH]; intros [|b u] [|c v]; simpl;
    try reflexivity; try discriminate.
  destruct (value_compare a b) eqn:Eab; try discriminate.
  - apply value_compare_eq in Eab. subst b.
    destruct (value_compare a c); try discriminate; [apply IH|reflexivity].
  - intros _. destruct (value_compare b c) eqn:Ebc; try discriminate.
    + apply value_compare_eq in Ebc. subst c. now rewrite Eab.
    + now rewrite (value_compare_lt_trans a b c Eab Ebc).
Qed.

Lemma key_leb_total (k1 k2 : list value) :
  key_leb k1 k2 = true \/ key_leb k2 k1 = true.
Proof.
  unfold key_leb. rewrite (key_compare_antisym k1 k2).
  destruct (key_compare k1 k2); simpl; auto.
Qed.

Lemma key_leb_trans (k1 k2 k3 : list value) :
  key_leb k1 k2 = true -> key_leb k2 k3 = true -> key_leb k1 k3 = true.
Proof.
  unfold key_leb.
  destruct (key_compare k1 k2) eqn:E12; try discriminate;
    destruct (key_compare k2 k3) eqn:E23; try discriminate; intros _ _.
  - apply key_compare_eq in E12. subst. now rewrite E23.
  - apply key_compare_eq in E12. subst. now rewrite E23.
  - apply key_compare_eq in E23. subst. now rewrite E12.
  - now rewrite (key_compare_lt_trans _ _ _ E12 E23).
Qed.

Lemma key_leb_neq_lt (k1 k2 : list value) :
  key_leb k1 k2 = true -> k1 <> k2 -> key_compare k1 k2 = Lt.
Proof.
  unfold key_leb. destruct (key_compare k1 k2) eqn:E; try discriminate.
  - apply key_compare_eq in E. contradiction.
  - reflexivity.
Qed.

Lemma value_leb_key (a b : value) : value_leb a b = key_leb [a] [b].
Proof.
  unfold value_leb, key_leb. simpl. destruct (value_compare a b); reflexivity.
Qed.

Lemma value_leb_total (a b : value) :
  value_leb a b = true \/ value_leb b a = true.
Proof. rewrite !value_leb_key. apply key_leb_total. Qed.

Lemma value_leb_trans (a b c : value) :
  value_leb a b = true -> value_leb b c = true -> value_leb a c = true.
Proof. rewrite !value_leb_key. apply key_leb_trans. Qed.

(* ------------------------------------------------------------------ *)
(** ** Dictionaries *)

Lemma get_dict_set_same (d : dict) (k : string) (v : value) :
  get (dict_set d k v) k = v.
Proof.
  unfold get. induction d as [|[k' v'] t IH]; simpl.
  - now rewrite String.eqb_refl.
  - destruct (String.eqb k' k) eqn:E; simpl.
    + now rewrite String.eqb_refl.
    + rewrite E. exact IH.
Qed.

Lemma get_dict_set_other (d : dict) (k k' : string) (v : value) :
  k <> k' -> get (dict_set d k v) k' = get d k'.
Proof.
  intros Hk. unfold get. induction d as [|[k0 v0] t IH]; simpl.
  - apply String.eqb_neq in Hk. now rewrite Hk.
  - destruct (String.eqb k0 k) eqn:E; simpl.
    + apply String.eqb_eq in E. subst k0.
      apply String.eqb_neq in Hk. now rewrite Hk.
    + destruct (String.eqb k0 k'); [reflexivity|exact IH].
Qed.

(* ------------------------------------------------------------------ *)
(** ** GROUP BY *)

Lemma group_by_In (key : list value -> list value) (rs : list (list value))
  (g : list value * list (list value)) :
  In g (group_by key rs) <->
  (exists r, In r rs /\ fst g = key r)
  /\ snd g = filter (fun r => key_eqb (key r) (fst g)) rs.
Proof.
  unfold group_by. rewrite in_map_iff. split.
  - intros [k [<- Hk]]. simpl. split; [|reflexivity].
    apply (proj1 (distinct_In _ key_eqb_eq _ _)) in Hk. apply in_map_iff in Hk.
    destruct Hk as [r [<- Hr]]. eauto.
  - intros [[r [Hr Hk]] Hs]. exists (fst g). split.
    + destruct g as [k l]. simpl in *. now subst.
    + apply (proj2 (distinct_In _ key_eqb_eq _ _)). rewrite Hk. now apply in_map.
Qed.

Lemma group_by_keys (key : list value -> list value) (rs : list (list value)) :
  map fst (group_by key rs) = distinct key_eqb (map key rs).
Proof. unfold group_by. rewrite map_map. simpl. apply map_id. Qed.

Lemma group_by_NoDup (key : list value -> list value) (rs : list (list value)) :
  NoDup (map fst (group_by key rs)).
Proof. rewrite group_by_keys. apply (distinct_NoDup _ key_eqb_eq). Qed.


(* ================================================================== *)
(** * SUM: overflow and exactness *)


Lemma int64_abs (z : Z) : (Z.abs z <= max_int64)%Z -> int64 z = true.
Proof.
  unfold int64, min_int64, max_int64. intros H.
  apply andb_true_iff. split; apply Z.leb_le; lia.
Qed.


Lemma integer_magnitude_nonneg (qs : list Qc) : (0 <= integer_magnitude qs)%Z.
Proof.
  induction qs as [|q t IH]; simpl; [lia|].
  destruct (sql_integer q); lia.
Qed.

Lemma integer_magnitude_app (a b : list Qc) :
  integer_magnitude (a ++ b) = (integer_magnitude a + integer_magnitude b)%Z.
Proof.
  induction a as [|q t IH]; simpl; [reflexivity|].
  destruct (sql_integer q); lia.
Qed.

Section SumFacts.
Variable text_num : string -> Qc.

Lemma fold_sumStep_no_overflow (qs : list Qc) :
  forall p : SumCtx,
    overflow p = false ->
    (Z.abs (iSum p) + integer_magnitude qs <= max_int64)%Z ->
    overflow (fold_left sumStep qs p) = false.
Proof.
  induction qs as [|q t IH]; intros p Ho Hm; simpl; [exact Ho|].
  simpl in Hm. pose proof (integer_magnitude_nonneg t) as Ht.
  apply IH; unfold sumStep; destruct (sql_integer q) as [v|]; simpl.
  - destruct (approx p); simpl; [exact Ho|]. rewrite Ho. simpl.
    rewrite int64_abs by lia. reflexivity.
  - exact Ho.
  - destruct (approx p); simpl; [lia|]. rewrite Ho. simpl.
    rewrite int64_abs by lia. simpl. lia.
  - exact Hm.
Qed.

Lemma sum_overflows_magnitude (vs : list value) :
  (magnitude text_num vs <= max_int64)%Z -> sum_overflows text_num vs = false.
Proof.
  intros H. unfold sum_overflows, sum_ctx.
  apply fold_sumStep_no_overflow; [reflexivity|exact H].
Qed.

Lemma magnitude_filter (s : nat) (f : list value -> bool) (rs : list (list value)) :
  (magnitude text_num (map (field s) (filter f rs))
   <= magnitude text_num (map (field s) rs))%Z.
Proof.
  unfold magnitude. induction rs as [|r t IH]; simpl; [lia|].
  rewrite integer_magnitude_app.
  pose proof (integer_magnitude_nonneg (sql_num text_num (field s r))).
  destruct (f r); simpl; [rewrite integer_magnitude_app|]; lia.
Qed.

Lemma check_overflow_Ok (cols : list nat) (groups : list (list (list value))) :
  (forall rows c, In rows groups -> In c cols ->
                  sum_overflows text_num (map (field c) rows) = false) ->
  check_overflow text_num cols groups = Ok tt.
Proof.
  intros H. unfold check_overflow.
  destruct (existsb _ groups) eqn:E; [exfalso|reflexivity].
  apply existsb_exists in E. destruct E as [rows [Hr E]].
  apply existsb_exists in E. destruct E as [c [Hc E]].
  rewrite (H rows c Hr Hc) in E. discriminate.
Qed.

Lemma check_overflow_Err (cols : list nat) (groups : list (list (list value)))
  (e : error) :
  check_overflow text_num cols groups = Err e -> e = IntegerOverflow.
Proof.
  unfold check_overflow. destruct (existsb _ groups); congruence.
Qed.

(** No group of rows overflows when the magnitudes of the whole column
    stay in range. *)
Lemma check_overflow_groups (key : list value -> list value) (cols : list nat)
  (rs : list (list value)) :
  (forall c, In c cols -> (magnitude text_num (map (field c) rs) <= max_int64)%Z) ->
  check_overflow text_num cols (map snd (group_by key rs)) = Ok tt.
Proof.
  intros H. apply check_overflow_Ok. intros rows c Hr Hc.
  apply in_map_iff in Hr. destruct Hr as [g [<- Hg]].
  apply group_by_In in Hg. destruct Hg as [_ ->].
  apply sum_overflows_magnitude.
  etransitivity; [apply magnitude_filter|now apply H].
Qed.

Lemma check_overflow_table (cols : list nat) (rs : list (list value)) :
  (forall c, In c cols -> (magnitude text_num (map (field c) rs) <= max_int64)%Z) ->
  check_overflow text_num cols [rs] = Ok tt.
Proof.
  intros H. apply check_overflow_Ok. intros rows c [<-|[]] Hc.
  apply sum_overflows_magnitude. now apply H.
Qed.




Lemma whole_amounts_no_overflow (vs : list value) :
  whole_amounts text_num vs = true ->
  (magnitude text_num vs <= max_int64)%Z.
Proof.
  unfold whole_amounts. intros H. apply andb_true_iff in H.
  destruct H as [_ Hm]. apply Z.leb_le in Hm. unfold max_int64. lia.
Qed.
End SumFacts.

(* ================================================================== *)
(** * Rounding to two decimals *)

Lemma round_half_even_nearest (y : Q) :
  (Qabs (inject_Z (round_half_even y) - y) <= 1 # 2)%Q.
Proof.
  unfold round_half_even.
  pose proof (Qfloor_le y) as Hlo. pose proof (Qlt_floor y) as Hhi.
  rewrite inject_Z_plus in Hhi. change (inject_Z 1) with 1%Q in Hhi.
  apply Qabs_Qle_condition.
  destruct (Qcompare (y - inject_Z (Qfloor y)) (1 # 2)) eqn:E.
  - apply Qeq_alt in E.
    destruct (Z.even (Qfloor y));
      rewrite ?inject_Z_plus; change (inject_Z 1) with 1%Q; split; lra.
  - apply Qlt_alt in E. split; lra.
  - apply Qgt_alt in E. rewrite inject_Z_plus. change (inject_Z 1) with 1%Q.
    split; lra.
Qed.

(** [round2 x] is a whole number of hundredths, and no other one is
    nearer to [x]. *)
Lemma round2_nearest (x : Qc) :
  (exists z : Z, round2 x = Q2Qc (inject_Z z / inject_Z 100))
  /\ (Qabs (this (round2 x) - this x) <= 1 # 200)%Q.
Proof.
  split; [unfold round2; eauto|].
  unfold round2. cbn [this Q2Qc]. rewrite Qred_correct.
  pose proof (round_half_even_nearest (this x * inject_Z 100)) as H.
  apply Qabs_Qle_condition in H. apply Qabs_Qle_condition.
  set (z := inject_Z (round_half_even (this x * inject_Z 100))) in *.
  unfold Qdiv. change (/ inject_Z 100)%Q with (1 # 100)%Q.
  change (inject_Z 100) with (100 # 1)%Q in H.
  split; lra.
Qed.

(* ================================================================== *)
(** * Sales trends *)

Lemma sorted_by_map {A B : Type} (f : A -> B) (leb : B -> B -> bool) (l : list A) :
  sorted_by (fun a b => leb (f a) (f b)) l -> sorted_by leb (map f l).
Proof.
  unfold sorted_by. induction 1 as [|x t Hs IH Hx]; simpl; constructor.
  - exact IH.
  - apply Forall_map. exact Hx.
Qed.

Lemma sorted_keys_strict (ks : list (list value)) :
  sorted_by key_leb ks -> NoDup ks -> StronglySorted key_lt ks.
Proof.
  unfold sorted_by. induction 1 as [|k t Hs IH Hk]; intros Hn; constructor.
  - apply IH. now inversion Hn.
  - inversion Hn as [|? ? Hnotin _]. subst.
    rewrite Forall_forall in Hk |- *. intros k' Hk'.
    apply key_leb_neq_lt; [now apply Hk|]. intros ->. contradiction.
Qed.



Lemma grown_get (r r' : dict) (k : string) :
  grown r r' -> k <> "growth_rate" -> get r' k = get r k.
Proof.
  intros [g ->] Hk. apply get_dict_set_other. congruence.
Qed.

Lemma growth_loop_Ok (rest : list dict) :
  forall (prev : dict) (tl : list dict),
    growth_loop prev rest = Ok tl ->
    Forall2 grown rest tl /\ growth_chain (get prev "monthly_sales") tl.
Proof.
  induction rest as [|cur rest' IH]; intros prev tl H; simpl in H.
  - injection H as <-. split; constructor.
  - invert_bind H. invert_bind H. injection H as <-.
    apply IH in Hx0. destruct Hx0 as [HF Hc].
    rewrite get_dict_set_other in Hc by discriminate.
    split.
    + constructor; [now exists x|exact HF].
    + simpl. rewrite get_dict_set_same.
      rewrite get_dict_set_other by discriminate. split; assumption.
Qed.

Lemma growth_chain_nth (l : list dict) :
  forall (p0 : dict) (i : nat) (p c : dict),
    growth_chain (get p0 "monthly_sales") l ->
    nth_error (p0 :: l) i = Some p ->
    nth_error (p0 :: l) (S i) = Some c ->
    growth_rate (get p "monthly_sales") (get c "monthly_sales")
    = Ok (get c "growth_rate").
Proof.
  induction l as [|x t IH]; intros p0 i p c Hc Hp Hn.
  - destruct i; simpl in Hn; discriminate.
  - destruct Hc as [H1 H2]. destruct i as [|i].
    + simpl in Hp, Hn. injection Hp as <-. injection Hn as <-. exact H1.
    + apply (IH x i p c H2); assumption.
Qed.


Lemma Forall2_map_eq {A B : Type} (R : A -> A -> Prop) (f : A -> B)
  (l l' : list A) :
  Forall2 R l l' -> (forall a a', R a a' -> f a' = f a) -> map f l' = map f l.
Proof.
  intros H Hf. induction H as [|a a' t t' Ha _ IH]; simpl; [reflexivity|].
  now rewrite (Hf _ _ Ha), IH.
Qed.



Lemma with_growth_Ok (results rs : list dict) :
  with_growth results = Ok rs ->
  Forall2 grown results rs
  /\ (forall r, nth_error rs 0 = Some r -> get r "growth_rate" = VNum (QcZ 0))
  /\ (forall i p c,
        nth_error rs i = Some p -> nth_error rs (S i) = Some c ->
        growth_rate (get p "monthly_sales") (get c "monthly_sales")
        = Ok (get c "growth_rate")).
Proof.
  unfold with_growth. destruct results as [|r0 rest]; intros H.
  - injection H as <-. split; [constructor|]. split.
    + intros r Hr. discriminate.
    + intros i p c Hp. destruct i; discriminate.
  - invert_bind H. injection H as <-.
    apply growth_loop_Ok in Hx. destruct Hx as [HF Hc].
    split; [constructor; [now eexists|exact HF]|]. split.
    + intros r Hr. injection Hr as <-. apply get_dict_set_same.
    + intros i p c. apply growth_chain_nth.
      now rewrite get_dict_set_other by discriminate.
Qed.

(** ** The names under which bare columns come back *)

Lemma position_same_identifier (n : string) (cols : list string) :
  forall i, position n cols = Some i ->
            same_identifier (nth i cols "") n = true.
Proof.
  induction cols as [|c t IH]; intros i; simpl; [discriminate|].
  destruct (same_identifier c n) eqn:E.
  - intros H. injection H as <-. exact E.
  - destruct (position n t) as [j|]; [|discriminate].
    intros H. injection H as <-. now apply IH.
Qed.

Lemma sql_col_column_name (t : table) (n : string) (i : nat) :
  sql_col t n = Ok i -> same_identifier (column_name t i) n = true.
Proof.
  unfold sql_col, column_name.
  destruct (position n (schema t)) as [j|] eqn:E; [|discriminate].
  intros H. injection H as <-. now apply position_same_identifier.
Qed.

(** Two names that do not denote the same column are different. *)
Lemma same_identifier_neq (a b n : string) :
  same_identifier a n = true -> same_identifier b n = false -> a <> b.
Proof. intros Ha Hb ->. congruence. Qed.


Section Trends.
Variable text_num : string -> Qc.





End Trends.

(** A month without any sales amount has a NULL total, and the growth
    loop cannot compare it with 0. *)
Lemma sales_trends_null_total :
  sales_trends sample_text_num null_month_table = Err TypeError.
Proof. vm_compute. reflexivity. Qed.

Lemma values_eqb_eq (l1 l2 : list value) :
  list_eqb value_eqb l1 l2 = true -> l1 = l2.
Proof. apply list_eqb_eq, value_eqb_eq. Qed.


(** The specification's example: monthly sales 100, 150, 0, 50 give the
    growth rates 0, 50, -100, 0. *)
Lemma sales_trends_example :
  sales_trends sample_text_num trends_table = Ok trends_result
  /\ map (fun r => get r "monthly_sales") trends_result
     = [vnum 100; vnum 150; vnum 0; vnum 50]
  /\ map (fun r => get r "growth_rate") trends_result
     = [vnum 0; vnum 50; vnum (-100); vnum 0].
Proof.
  split; [vm_compute; reflexivity|].
  split; apply values_eqb_eq; vm_compute; reflexivity.
Qed.


(** The growth rate is rounded from the float the division and the
    multiplication produce, not from the exact quotient: from 160 to 483
    the exact growth is 201.875, which would round to 201.88, but the
    float product lies just below it and [round] gives 201.87. *)
Lemma growth_rate_rounds_the_float :
  growth_rate (vnum 160) (vnum 483)
  = Ok (VNum (binary64 (Q2Qc (20187 # 100))))
  /\ round2 ((QcZ 483 - QcZ 160) / QcZ 160 * QcZ 100)%Qc = Q2Qc (20188 # 100).
Proof.
  split.
  - assert (E : py_round2 (float_mul (float_div (float_sub (QcZ 483) (QcZ 160))
                                                  (QcZ 160)) (QcZ 100))
                 = binary64 (Q2Qc (20187 # 100)))
      by (apply Qc_is_canon; vm_compute; reflexivity).
    unfold growth_rate, vnum.
    replace (Qc_ltb (QcZ 0) (QcZ 160)) with true by (vm_compute; reflexivity).
    now rewrite E.
  - apply Qc_is_canon. vm_compute. reflexivity.
Qed.

(* ================================================================== *)
(** * Top customers *)

Lemma existsb_map_eqb {A B : Type} (eqb : A -> A -> bool) (eqb' : B -> B -> bool)
  (h : A -> B) (x : A) (l : list A) :
  (forall a b, eqb' (h a) (h b) = eqb a b) ->
  existsb (eqb' (h x)) (map h l) = existsb (eqb x) l.
Proof.
  intros H. induction l as [|y t IH]; simpl; [reflexivity|].
  now rewrite H, IH.
Qed.

Lemma distinct_from_map {A B : Type} (eqb : A -> A -> bool)
  (eqb' : B -> B -> bool) (h : A -> B) (l : list A) :
  (forall a b, eqb' (h a) (h b) = eqb a b) ->
  forall seen,
    distinct_from eqb' (map h seen) (map h l) = map h (distinct_from eqb seen l).
Proof.
  intros H. induction l as [|x t IH]; intros seen; simpl; [reflexivity|].
  rewrite (existsb_map_eqb eqb eqb' h x seen H).
  destruct (existsb (eqb x) seen).
  - apply IH.
  - simpl. f_equal. apply (IH (x :: seen)).
Qed.

Lemma key_eqb_singleton (a b : value) : key_eqb [a] [b] = value_eqb a b.
Proof.
  unfold key_eqb, value_eqb. simpl. destruct (value_compare a b); reflexivity.
Qed.

Lemma distinct_singleton_keys (vs : list value) :
  distinct key_eqb (map (fun v => [v]) vs)
  = map (fun v => [v]) (distinct value_eqb vs).
Proof.
  unfold distinct.
  apply (distinct_from_map value_eqb key_eqb (fun v => [v]) vs key_eqb_singleton []).
Qed.

Lemma sql_limit_length {A : Type} (n : Z) (l : list A) :
  length (sql_limit n l)
  = if (n <? 0)%Z then length l else Nat.min (Z.to_nat n) (length l).
Proof.
  unfold sql_limit. destruct (n <? 0)%Z; [reflexivity|apply length_firstn].
Qed.

Lemma firstn_incl {A : Type} (n : nat) (l : list A) (x : A) :
  In x (firstn n l) -> In x l.
Proof.
  revert n. induction l as [|y t IH]; intros [|n]; simpl; try tauto.
  intros [H|H]; [now left|right; now apply (IH n)].
Qed.

Lemma sql_limit_incl {A : Type} (n : Z) (l : list A) (x : A) :
  In x (sql_limit n l) -> In x l.
Proof.
  unfold sql_limit. destruct (n <? 0)%Z; [tauto|apply firstn_incl].
Qed.

Lemma StronglySorted_firstn {A : Type} (R : A -> A -> Prop) (n : nat) (l : list A) :
  StronglySorted R l -> StronglySorted R (firstn n l).
Proof.
  intros H. revert n. induction H as [|x t Hs IH Hx]; intros [|n]; simpl;
    try constructor.
  - apply IH.
  - rewrite Forall_forall in Hx |- *. intros y Hy.
    apply Hx. now apply firstn_incl with n.
Qed.

Lemma NoDup_firstn_map {A B : Type} (f : A -> B) (n : nat) (l : list A) :
  NoDup (map f l) -> NoDup (map f (firstn n l)).
Proof.
  revert n. induction l as [|x t IH]; intros [|n]; simpl; intros H;
    try constructor.
  - inversion H as [|? ? Hn _]. subst. intros Hin. apply Hn.
    apply in_map_iff in Hin. destruct Hin as [y [Hy Hin]].
    apply in_map_iff. exists y. split; [exact Hy|now apply firstn_incl with n].
  - apply IH. now inversion H.
Qed.

Lemma sql_limit_sorted {A : Type} (R : A -> A -> Prop) (n : Z) (l : list A) :
  StronglySorted R l -> StronglySorted R (sql_limit n l).
Proof.
  unfold sql_limit. destruct (n <? 0)%Z; [tauto|apply StronglySorted_firstn].
Qed.

Lemma sql_limit_NoDup_map {A B : Type} (f : A -> B) (n : Z) (l : list A) :
  NoDup (map f l) -> NoDup (map f (sql_limit n l)).
Proof.
  unfold sql_limit. destruct (n <? 0)%Z; [tauto|apply NoDup_firstn_map].
Qed.

Lemma order_by_desc_sorted (recs : list dict) :
  descending_by_total (order_by_desc "total_sales" recs).
Proof.
  unfold descending_by_total, order_by_desc. apply sort_sorted.
  - intros a b. apply value_leb_total.
  - intros a b c H1 H2. now apply value_leb_trans with (get b "total_sales").
Qed.

Lemma pragma_has_sql_col (t : table) (n : string) :
  pragma_has t n = true -> exists i, sql_col t n = Ok i.
Proof.
  unfold pragma_has, sql_col. rewrite string_existsb_In.
  induction (schema t) as [|c cols IH]; simpl; [tauto|].
  intros [->|H].
  - unfold same_identifier. rewrite String.eqb_refl. eauto.
  - destruct (same_identifier c n); [eauto|].
    destruct (IH H) as [i Hi].
    destruct (position n cols); [eauto|discriminate].
Qed.



Lemma limit_value_Ok (n : Z) (u : unit) :
  limit_value n = Ok u -> int64 n = true.
Proof. unfold limit_value. destruct (int64 n); [reflexivity|discriminate]. Qed.

Section TopCustomers.
Variable text_num : string -> Qc.

(** The statement shared by the two branches: group by one column, total
    the sales, order by the total, limit. *)
Lemma grouped_totals (t : table) (limit : Z) (g s : nat) (label : string)
  (mk : list value * list (list value) -> dict) :
  (forall gp, get (mk gp) label = field 0 (fst gp)) ->
  (forall gp, get (mk gp) "total_sales"
              = sql_sum text_num (map (field s) (snd gp))) ->
  let rs := sql_limit limit
              (order_by_desc "total_sales"
                 (map mk (group_by (fun r => [field g r]) (t_rows t)))) in
  let groups := distinct value_eqb (map (field g) (t_rows t)) in
  length rs = (if (limit <? 0)%Z then length groups
               else Nat.min (Z.to_nat limit) (length groups))
  /\ descending_by_total rs
  /\ NoDup (map (fun r => get r label) rs)
  /\ (forall r, In r rs ->
        In (get r label) groups
        /\ get r "total_sales"
           = sql_sum text_num
               (map (field s)
                  (filter (fun row => value_eqb (field g row) (get r label))
                          (t_rows t)))).
Proof.
  intros Hlabel Htotal rs groups.
  set (key := fun r : list value => [field g r]).
  assert (Hkeys : map fst (group_by key (t_rows t)) = map (fun v => [v]) groups).
  { rewrite group_by_keys. unfold key, groups.
    rewrite <- distinct_singleton_keys, map_map. reflexivity. }
  assert (Hlabels : map (fun r => get r label) (map mk (group_by key (t_rows t)))
                    = groups).
  { rewrite map_map. rewrite (map_ext _ (fun gp => field 0 (fst gp))) by exact Hlabel.
    rewrite <- (map_map fst (field 0)), Hkeys, map_map. simpl. apply map_id. }
  split; [|split; [|split]].
  - unfold rs. rewrite sql_limit_length. unfold order_by_desc.
    rewrite sort_length, length_map. fold key.
    rewrite <- (length_map fst (group_by key (t_rows t))), Hkeys, length_map.
    reflexivity.
  - apply sql_limit_sorted, order_by_desc_sorted.
  - apply sql_limit_NoDup_map.
    apply (Permutation_NoDup (l := groups)).
    + rewrite <- Hlabels. apply Permutation_map, Permutation_sym, sort_perm.
    + apply (distinct_NoDup _ value_eqb_eq).
  - intros r Hr. apply sql_limit_incl in Hr. apply sort_In in Hr.
    assert (Hg : In (get r label) groups).
    { rewrite <- Hlabels. apply in_map_iff. eauto. }
    split; [exact Hg|].
    apply in_map_iff in Hr. destruct Hr as [gp [<- Hgp]].
    rewrite Htotal, Hlabel. apply group_by_In in Hgp.
    destruct Hgp as [[row [_ Hk]] Hs]. rewrite Hs, Hk. unfold key. simpl.
    do 2 f_equal. apply filter_ext. intros r. apply key_eqb_singleton.
Qed.


End TopCustomers.



(** A limit that is not a 64-bit integer makes the statement fail, and so
    does a group whose integer sum leaves the 64-bit range. *)
Lemma top_customers_failures :
  top_customers sample_text_num sales_table (2 ^ 63) = Err DatatypeMismatch
  /\ top_customers sample_text_num overflow_table 10 = Err IntegerOverflow
  /\ top_customers sample_text_num overflow_table 0 = Ok [].
Proof. repeat split; vm_compute; reflexivity. Qed.

(* ================================================================== *)
(** * Category totals and total revenue *)

Lemma QcZ_0 : QcZ 0 = 0%Qc.
Proof. reflexivity. Qed.

Lemma qsum_app (a b : list Qc) : qsum (a ++ b) = (qsum a + qsum b)%Qc.
Proof.
  induction a as [|x t IH]; simpl.
  - rewrite QcZ_0. ring.
  - rewrite IH. ring.
Qed.

Lemma qsum_flat_map {A : Type} (f : A -> list Qc) (l : list A) :
  qsum (flat_map f l) = qsum (map (fun x => qsum (f x)) l).
Proof.
  induction l as [|x t IH]; simpl; [reflexivity|].
  now rewrite qsum_app, IH.
Qed.

Lemma qsum_perm (l l' : list Qc) : Permutation l l' -> qsum l = qsum l'.
Proof.
  induction 1 as [|x l l' _ IH|x y l|l l' l'' _ IH1 _ IH2]; simpl.
  - reflexivity.
  - now rewrite IH.
  - ring.
  - now rewrite IH1.
Qed.

Lemma qsum_map_plus {A : Type} (f g : A -> Qc) (l : list A) :
  qsum (map (fun k => f k + g k)%Qc l) = (qsum (map f l) + qsum (map g l))%Qc.
Proof.
  induction l as [|x t IH]; simpl.
  - rewrite QcZ_0. ring.
  - rewrite IH. ring.
Qed.

Lemma qsum_map_zero {A : Type} (f : A -> Qc) (l : list A) :
  (forall x, In x l -> f x = QcZ 0) -> qsum (map f l) = QcZ 0.
Proof.
  induction l as [|x t IH]; simpl; intros H; [reflexivity|].
  rewrite (H x) by now left. rewrite IH by (intros y Hy; apply H; now right).
  rewrite QcZ_0. ring.
Qed.

Lemma qsum_indicator (x : list value) (a : Qc) (ks : list (list value)) :
  NoDup ks -> In x ks ->
  qsum (map (fun k => if key_eqb x k then a else QcZ 0) ks) = a.
Proof.
  induction 1 as [|k t Hk Hn IH]; simpl; [tauto|].
  intros [->|Hin].
  - assert (E : key_eqb x x = true) by now apply key_eqb_eq.
    rewrite E, qsum_map_zero; [rewrite QcZ_0; ring|].
    intros y Hy. destruct (key_eqb x y) eqn:Ey; [|reflexivity].
    apply key_eqb_eq in Ey. subst. contradiction.
  - destruct (key_eqb x k) eqn:E.
    + apply key_eqb_eq in E. subst. contradiction.
    + rewrite IH by exact Hin. rewrite QcZ_0. ring.
Qed.

(** Summing group by group is summing over all rows. *)
Lemma qsum_by_group (key : list value -> list value) (w : list value -> Qc)
  (ks : list (list value)) (rs : list (list value)) :
  NoDup ks -> (forall r, In r rs -> In (key r) ks) ->
  qsum (map (fun k => qsum (map w (filter (fun r => key_eqb (key r) k) rs))) ks)
  = qsum (map w rs).
Proof.
  intros Hn. induction rs as [|r t IH]; intros Hin; simpl.
  - apply qsum_map_zero. reflexivity.
  - rewrite <- IH by (intros r' Hr'; apply Hin; now right).
    rewrite <- (qsum_indicator (key r) (w r) ks Hn) at 1 by (apply Hin; now left).
    rewrite <- qsum_map_plus. f_equal. apply map_ext. intros k.
    destruct (key_eqb (key r) k); simpl; [reflexivity|].
    rewrite QcZ_0. ring.
Qed.

Section Totals.
Variable text_num : string -> Qc.







End Totals.



(** On fractional amounts the two endpoints add in different orders and
    round differently: with the sales 0.1 (status B), 0.2 and 0.3 (status
    A) the category totals are 0.1 and 0.5, while total_revenue is
    0.6000000000000001. *)
Lemma fractional_totals_differ :
  exists cats k,
    sales_by_category sample_text_num fractional_table = Ok cats
    /\ get_kpis sample_text_num fractional_table = Ok k
    /\ map (fun r => get r "total_sales") cats = [float 5 10; float 1 10]
    /\ get (kpi_row k) "total_revenue"
       = VNum (binary64 (Q2Qc (6000000000000001 # 10000000000000000)))
    /\ ~ totals_match cats (get (kpi_row k) "total_revenue").
Proof.
  destruct (sales_by_category sample_text_num fractional_table) as [cats|e] eqn:Ec;
    [|vm_compute in Ec; discriminate Ec].
  destruct (get_kpis sample_text_num fractional_table) as [k|e] eqn:Ek;
    [|vm_compute in Ek; discriminate Ek].
  exists cats, k. split; [reflexivity|]. split; [reflexivity|].
  vm_compute in Ec. injection Ec as <-.
  vm_compute in Ek. injection Ek as <-.
  split; [apply values_eqb_eq; vm_compute; reflexivity|].
  split.
  - apply (proj1 (value_eqb_eq _ _)). vm_compute. reflexivity.
  - unfold totals_match. intros H.
    apply (proj2 (value_eqb_eq _ _)) in H. vm_compute in H. discriminate H.
Qed.

(* ================================================================== *)
(** * More on the pipeline: projection *)

Lemma flat_map_ext_In {A B : Type} (f g : A -> list B) (l : list A) :
  (forall a, In a l -> f a = g a) -> flat_map f l = flat_map g l.
Proof.
  induction l as [|x t IH]; simpl; intros H; [reflexivity|].
  rewrite (H x) by now left. f_equal. apply IH. intros a Ha. apply H. now right.
Qed.

Lemma find_in_selection (df : DataFrame) (n : string) (l : list string) :
  find (fun c => String.eqb (col_name c) n)
       (flat_map (fun m => match get_column df m with
                           | Some c => [c]
                           | None => []
                           end) l)
  = if existsb (String.eqb n) l then get_column df n else None.
Proof.
  induction l as [|m t IH]; simpl; [reflexivity|].
  destruct (get_column df m) as [c|] eqn:E; simpl.
  - rewrite (get_column_name _ _ _ E).
    destruct (String.eqb m n) eqn:Emn.
    + apply String.eqb_eq in Emn. subst m.
      rewrite String.eqb_refl. simpl. now rewrite E.
    + rewrite String.eqb_sym, Emn. simpl. exact IH.
  - destruct (String.eqb n m) eqn:Enm; simpl; [|exact IH].
    apply String.eqb_eq in Enm. subst m. rewrite E, IH.
    now destruct (existsb (String.eqb n) t).
Qed.

Lemma get_column_select_columns (df : DataFrame) (n : string) :
  get_column (select_columns df) n
  = if existsb (String.eqb n) required_cols then get_column df n else None.
Proof.
  unfold get_column at 1, select_columns. rewrite find_in_selection.
  destruct (existsb (String.eqb n) (available_cols df)) eqn:E.
  - apply string_existsb_In in E. unfold available_cols in E.
    apply filter_In in E. destruct E as [E _].
    apply string_existsb_In in E. now rewrite E.
  - destruct (existsb (String.eqb n) required_cols) eqn:Er; [|reflexivity].
    symmetry. apply get_column_None.
    destruct (has_column df n) eqn:Eh; [|reflexivity].
    assert (H : In n (available_cols df)).
    { apply filter_In. split; [now apply string_existsb_In|exact Eh]. }
    apply string_existsb_In in H. congruence.
Qed.

Lemma has_column_get_column (df : DataFrame) (n : string) :
  has_column df n = match get_column df n with Some _ => true | None => false end.
Proof.
  destruct (has_column df n) eqn:E.
  - destruct (get_column_has _ _ E) as [c ->]. reflexivity.
  - now rewrite get_column_None.
Qed.

(** X1.  Projection hands on the allow-list columns of the source as they
    are, in the order of the allow-list whatever their order in the
    source; no other column can be read from the result, and projecting
    twice is projecting once. *)
Theorem select_columns_projection (df : DataFrame) :
  names (select_columns df) = filter (has_column df) required_cols
  /\ (forall n, In n required_cols ->
                get_column (select_columns df) n = get_column df n)
  /\ (forall n, ~ In n required_cols -> get_column (select_columns df) n = None)
  /\ select_columns (select_columns df) = select_columns df.
Proof.
  split; [apply names_select_columns|]. split; [|split].
  - intros n Hn. rewrite get_column_select_columns.
    apply string_existsb_In in Hn. now rewrite Hn.
  - intros n Hn. rewrite get_column_select_columns.
    destruct (existsb (String.eqb n) required_cols) eqn:E; [|reflexivity].
    apply string_existsb_In in E. contradiction.
  - unfold select_columns at 1.
    assert (Ha : available_cols (select_columns df) = available_cols df).
    { unfold available_cols. apply filter_ext_in. intros n Hn.
      rewrite !has_column_get_column, get_column_select_columns.
      apply string_existsb_In in Hn. now rewrite Hn. }
    rewrite Ha. unfold select_columns. apply flat_map_ext_In.
    intros n Hn. fold (select_columns df). rewrite get_column_select_columns.
    unfold available_cols in Hn. apply filter_In in Hn. destruct Hn as [Hn _].
    apply string_existsb_In in Hn. now rewrite Hn.
Qed.

Lemma select_columns_projection_witness :
  get_column (select_columns df_source) "SALES" = get_column df_source "SALES"
  /\ get_column (select_columns df_source) "COUNTRY" = None.
Proof.
  destruct (select_columns_projection df_source) as (_ & Hin & Hout & _).
  split.
  - apply Hin. simpl. tauto.
  - apply Hout. simpl. intuition discriminate.
Defined.

(* ================================================================== *)
(** * More on the pipeline: imputation *)

Lemma fillna_null (cells : list cell) : fillna CNull cells = cells.
Proof.
  unfold fillna. induction cells as [|c t IH]; simpl; [reflexivity|].
  rewrite IH. now destruct c.
Qed.

Lemma median_nil : median [] = None.
Proof. reflexivity. Qed.

(** The cells of a column after its loop body: the missing ones filled
    with one value, which is NaN when the column has no value. *)
Lemma fill_numeric_fillna (c : column) :
  col_cells (fill_numeric c)
  = fillna (match median (nums (col_cells c)) with
            | Some m => CNum m
            | None => CNull
            end) (col_cells c).
Proof.
  destruct (median (nums (col_cells c))) as [m|] eqn:E.
  - now apply fill_numeric_cells.
  - rewrite fillna_null. unfold fill_numeric. rewrite E.
    now destruct (Nat.ltb 0 (null_count (col_cells c))).
Qed.

Lemma fill_object_fillna (c c' : column) :
  fill_object c = Ok c' ->
  col_cells c'
  = fillna (match mode (strs (col_cells c)) with
            | m :: _ => CStr m
            | [] => CNull
            end) (col_cells c)
  /\ col_dtype c' = col_dtype c.
Proof.
  unfold fill_object.
  destruct (Nat.ltb 0 (null_count (col_cells c))) eqn:E.
  - destruct (mode (strs (col_cells c))); [discriminate|].
    intros H. injection H as <-. split; reflexivity.
  - intros H. injection H as <-. apply Nat.ltb_ge in E.
    split; [|reflexivity]. rewrite fillna_no_nulls; [reflexivity|lia].
Qed.

Lemma imputed_fillna (c c' : column) :
  imputed c c' ->
  col_name c' = col_name c /\ col_dtype c' = col_dtype c
  /\ exists v, col_cells c' = fillna v (col_cells c).
Proof.
  intros H. split; [now apply imputed_name|].
  unfold imputed in H. destruct (col_dtype c) eqn:D.
  - subst c'. rewrite fill_numeric_dtype. split; [now rewrite D|].
    eexists. apply fill_numeric_fillna.
  - apply fill_object_fillna in H. destruct H as [Hc Hd].
    split; [congruence|]. eexists. exact Hc.
  - subst c'. split; [now rewrite D|]. exists CNull. now rewrite fillna_null.
Qed.

Lemma nth_error_fillna (v : cell) (cells : list cell) (i : nat) :
  nth_error (fillna v cells) i
  = match nth_error cells i with
    | Some x => Some (if isnull x then v else x)
    | None => None
    end.
Proof. unfold fillna. apply nth_error_map. Qed.

(** X2.  Imputation keeps the shape of the frame: the same columns with
    the same names and types in the same order, the same number of rows,
    and every entry that was not missing exactly as it was. *)
Theorem imputation_keeps_present_values (df df' : DataFrame) :
  handle_missing_data df = Ok df' ->
  names df' = names df
  /\ nrows df' = nrows df
  /\ Forall2 (fun c c' =>
                col_dtype c' = col_dtype c
                /\ length (col_cells c') = length (col_cells c)
                /\ forall i x, nth_error (col_cells c) i = Some x ->
                               x <> CNull ->
                               nth_error (col_cells c') i = Some x) df df'.
Proof.
  intros H. split; [now apply names_handle_missing_data|].
  apply handle_missing_data_columns in H.
  assert (HF : Forall2 (fun c c' =>
                col_dtype c' = col_dtype c
                /\ length (col_cells c') = length (col_cells c)
                /\ forall i x, nth_error (col_cells c) i = Some x ->
                               x <> CNull ->
                               nth_error (col_cells c') i = Some x) df df').
  { induction H as [|c c' t t' Hc _ IH]; constructor; [|exact IH].
    apply imputed_fillna in Hc. destruct Hc as (_ & Hd & v & Hv).
    split; [exact Hd|]. rewrite Hv. split.
    - unfold fillna. apply length_map.
    - intros i x Hx Hn. rewrite nth_error_fillna, Hx.
      destruct x; try reflexivity. congruence. }
  split; [|exact HF].
  destruct HF as [|c c' t t' (_ & Hl & _) _]; [reflexivity|exact Hl].
Qed.

Lemma imputation_keeps_present_values_witness :
  names df_imputed = ["SALES"] /\ nrows df_imputed = 4.
Proof.
  destruct (imputation_keeps_present_values [sales_with_null] df_imputed)
    as (Hn & Hr & _).
  - vm_compute. reflexivity.
  - split; [exact Hn|exact Hr].
Defined.

Lemma mapM_Err_In {A B : Type} (f : A -> result B) (l : list A) (e : error) :
  mapM f l = Err e -> exists a, In a l /\ f a = Err e.
Proof.
  induction l as [|x t IH]; simpl; [discriminate|].
  destruct (f x) as [y|e'] eqn:E; simpl.
  - destruct (mapM f t) as [ys|e'']; simpl; [discriminate|].
    intros H. injection H as ->. destruct IH as [a [Ha Hf]]; eauto.
  - intros H. injection H as ->. eauto.
Qed.

Lemma mapM_In_Err {A B : Type} (f : A -> result B) (l : list A) (a : A) (e : error) :
  In a l -> f a = Err e -> exists e', mapM f l = Err e'.
Proof.
  induction l as [|x t IH]; simpl; [tauto|].
  intros [->|Hin] Hf.
  - rewrite Hf. simpl. eauto.
  - destruct (f x); simpl; [|eauto].
    destruct (IH Hin Hf) as [e' ->]. simpl. eauto.
Qed.

Lemma mode_nil_iff (l : list string) : mode l = [] <-> l = [].
Proof.
  split.
  - intros H. destruct l as [|x t]; [reflexivity|].
    exfalso. apply (mode_not_nil (x :: t)); [discriminate|exact H].
  - intros ->. reflexivity.
Qed.

Lemma fill_object_Err (c : column) (e : error) :
  fill_object c = Err e <->
  e = KeyError "0" /\ 0 < null_count (col_cells c) /\ strs (col_cells c) = [].
Proof.
  unfold fill_object.
  destruct (Nat.ltb 0 (null_count (col_cells c))) eqn:E.
  - apply Nat.ltb_lt in E.
    destruct (mode (strs (col_cells c))) as [|m rest] eqn:Em.
    + apply (proj1 (mode_nil_iff _)) in Em. split.
      * intros H. injection H as <-.
        split; [reflexivity|split; assumption].
      * intros (-> & _ & _). reflexivity.
    + split; [discriminate|]. intros (_ & _ & Hs).
      apply (proj2 (mode_nil_iff _)) in Hs. congruence.
  - apply Nat.ltb_ge in E. split; [discriminate|]. intros (_ & H & _). lia.
Qed.

(** X3.  Imputation fails in one way only: with the KeyError of
    [mode()[0]], and exactly when some text column has missing entries
    and not a single value. *)
Theorem imputation_fails_on_empty_text_column (df : DataFrame) :
  (forall e, handle_missing_data df = Err e -> e = KeyError "0")
  /\ ((exists e, handle_missing_data df = Err e) <->
      exists c, In c df /\ col_dtype c = Object
                /\ 0 < null_count (col_cells c) /\ strs (col_cells c) = []).
Proof.
  assert (Hstep : forall c e,
            (if is_object (if is_numeric c then fill_numeric c else c)
             then fill_object (if is_numeric c then fill_numeric c else c)
             else Ok (if is_numeric c then fill_numeric c else c)) = Err e <->
            e = KeyError "0" /\ col_dtype c = Object
            /\ 0 < null_count (col_cells c) /\ strs (col_cells c) = []).
  { intros c e. unfold is_numeric, is_object.
    destruct (col_dtype c) eqn:D.
    - rewrite fill_numeric_dtype, D. split; [discriminate|].
      intros (_ & H & _). discriminate.
    - rewrite D, fill_object_Err. tauto.
    - rewrite D. split; [discriminate|]. intros (_ & H & _). discriminate. }
  split.
  - intros e H. unfold handle_missing_data in H. apply mapM_Err_In in H.
    destruct H as [c1 [Hin Hf]]. apply in_map_iff in Hin.
    destruct Hin as [c [<- _]]. apply Hstep in Hf. tauto.
  - split.
    + intros [e H]. unfold handle_missing_data in H. apply mapM_Err_In in H.
      destruct H as [c1 [Hin Hf]]. apply in_map_iff in Hin.
      destruct Hin as [c [<- Hc]]. apply Hstep in Hf. exists c. tauto.
    + intros (c & Hc & Hd & Hn & Hs). unfold handle_missing_data.
      apply mapM_In_Err with (a := if is_numeric c then fill_numeric c else c)
                             (e := KeyError "0").
      * apply in_map_iff. eauto.
      * apply Hstep. auto.
Qed.

Lemma imputation_fails_on_empty_text_column_witness :
  handle_missing_data [status_all_null] = Err (KeyError "0").
Proof.
  destruct (imputation_fails_on_empty_text_column [status_all_null])
    as [He [_ Hex]].
  destruct Hex as [e H].
  - exists status_all_null. repeat split; auto.
    + now left.
    + apply Nat.ltb_lt. reflexivity.
  - rewrite H. f_equal. now apply He.
Defined.

(** X4.  A numeric column without a single value has no median to fill
    with and comes out of imputation exactly as it went in, its entries
    still missing. *)
Theorem imputation_leaves_empty_numeric_column (df df' : DataFrame) (j : nat)
  (c : column) :
  handle_missing_data df = Ok df' ->
  nth_error df j = Some c ->
  col_dtype c = Numeric ->
  nums (col_cells c) = [] ->
  nth_error df' j = Some c.
Proof.
  intros H Hj Hd Hn. apply handle_missing_data_columns in H.
  destruct (Forall2_nth_error _ _ _ _ _ H Hj) as [c' [Hj' Hi]].
  unfold imputed in Hi. rewrite Hd in Hi. subst c'. rewrite Hj'. f_equal.
  unfold fill_numeric. rewrite Hn, median_nil.
  now destruct (Nat.ltb 0 (null_count (col_cells c))).
Qed.

Lemma imputation_leaves_empty_numeric_column_witness :
  nth_error [year_all_null] 0 = Some year_all_null.
Proof.
  apply (imputation_leaves_empty_numeric_column
           [year_all_null] [year_all_null] 0 year_all_null); reflexivity.
Defined.

Lemma fill_numeric_idempotent (c : column) :
  fill_numeric (fill_numeric c) = fill_numeric c.
Proof.
  remember (fill_numeric c) as c' eqn:Ec. unfold fill_numeric in Ec.
  destruct (Nat.ltb 0 (null_count (col_cells c))) eqn:E.
  - destruct (median (nums (col_cells c))) as [m|] eqn:Em; subst c'.
    + unfold fill_numeric. cbn [col_cells set_cells].
      rewrite null_count_fillna by reflexivity. reflexivity.
    + unfold fill_numeric. now rewrite E, Em.
  - subst c'. unfold fill_numeric. now rewrite E.
Qed.

Lemma fill_object_idempotent (c c' : column) :
  fill_object c = Ok c' -> fill_object c' = Ok c'.
Proof.
  unfold fill_object at 1.
  destruct (Nat.ltb 0 (null_count (col_cells c))) eqn:E.
  - destruct (mode (strs (col_cells c))); [discriminate|].
    intros H. injection H as <-. unfold fill_object. cbn [col_cells set_cells].
    rewrite null_count_fillna by reflexivity. reflexivity.
  - intros H. injection H as <-. unfold fill_object. now rewrite E.
Qed.

Lemma mapM_fixed {A : Type} (f : A -> result A) (l : list A) :
  Forall (fun a => f a = Ok a) l -> mapM f l = Ok l.
Proof.
  induction 1 as [|x t Hx _ IH]; simpl; [reflexivity|].
  rewrite Hx, IH. reflexivity.
Qed.

(** X5.  Imputation is idempotent: run on its own result it succeeds and
    changes nothing. *)
Theorem imputation_idempotent (df df' : DataFrame) :
  handle_missing_data df = Ok df' -> handle_missing_data df' = Ok df'.
Proof.
  intros H. apply handle_missing_data_columns in H.
  unfold handle_missing_data.
  assert (H1 : map (fun c => if is_numeric c then fill_numeric c else c) df' = df').
  { induction H as [|c c' t t' Hc _ IH]; simpl; [reflexivity|].
    rewrite IH. f_equal. unfold imputed in Hc. unfold is_numeric.
    destruct (col_dtype c) eqn:D.
    - subst c'. rewrite fill_numeric_dtype, D. apply fill_numeric_idempotent.
    - apply fill_object_fillna in Hc. destruct Hc as [_ Hd]. now rewrite Hd, D.
    - subst c'. now rewrite D. }
  rewrite H1. clear H1. apply mapM_fixed.
  induction H as [|c c' t t' Hc _ IH]; [constructor|].
  constructor; [|exact IH].
  unfold imputed in Hc. unfold is_object.
  destruct (col_dtype c) eqn:D.
  - subst c'. now rewrite fill_numeric_dtype, D.
  - pose proof (fill_object_fillna _ _ Hc) as [_ Hd]. rewrite Hd, D.
    now apply fill_object_idempotent with c.
  - subst c'. now rewrite D.
Qed.

Lemma imputation_idempotent_witness :
  handle_missing_data df_imputed = Ok df_imputed.
Proof.
  apply (imputation_idempotent [sales_with_null] df_imputed).
  vm_compute. reflexivity.
Defined.

(* ================================================================== *)
(** * More on the pipeline: the row order does not matter to imputation *)

Section SortUnique.
Context {A : Type}.
Variable leb : A -> A -> bool.
Hypothesis leb_total : forall a b, leb a b = true \/ leb b a = true.
Hypothesis leb_trans :
  forall a b c, leb a b = true -> leb b c = true -> leb a c = true.
Hypothesis leb_antisym : forall a b, leb a b = true -> leb b a = true -> a = b.

Lemma sorted_perm_eq (l l' : list A) :
  sorted_by leb l -> sorted_by leb l' -> Permutation l l' -> l = l'.
Proof.
  unfold sorted_by. intros Hs. revert l'.
  induction Hs as [|x t Hs IH Hx]; intros l' Hs' Hp.
  - apply Permutation_nil in Hp. now subst.
  - destruct l' as [|y u].
    + apply Permutation_sym, Permutation_nil in Hp. discriminate.
    + inversion Hs' as [|? ? Hu Hy]. subst.
      rewrite Forall_forall in Hx, Hy.
      assert (Exy : x = y).
      { assert (Hyin : In y (x :: t))
          by (apply Permutation_in with (y :: u);
              [now apply Permutation_sym|now left]).
        assert (Hxin : In x (y :: u))
          by (apply Permutation_in with (x :: t); [exact Hp|now left]).
        destruct Hyin as [E|Hyin]; [exact E|].
        destruct Hxin as [E|Hxin]; [now symmetry|].
        apply leb_antisym; [now apply Hx|now apply Hy]. }
      subst y. f_equal. apply IH; [exact Hu|].
      now apply Permutation_cons_inv with x.
Qed.

Lemma sort_perm_eq (l l' : list A) :
  Permutation l l' -> sort leb l = sort leb l'.
Proof.
  intros Hp. apply sorted_perm_eq.
  - now apply sort_sorted.
  - now apply sort_sorted.
  - apply Permutation_trans with l; [apply sort_perm|].
    apply Permutation_trans with l'; [exact Hp|].
    apply Permutation_sym, sort_perm.
Qed.
End SortUnique.

Lemma median_perm (xs ys : list Qc) :
  Permutation xs ys -> median xs = median ys.
Proof.
  intros Hp. unfold median.
  now rewrite (sort_perm_eq Qc_leb Qc_leb_total Qc_leb_trans Qc_leb_antisym
                 xs ys Hp).
Qed.

Lemma count_str_perm (s : string) (l l' : list string) :
  Permutation l l' -> count_str s l = count_str s l'.
Proof. apply filter_length_perm. Qed.

Lemma max_count_le_perm (l l' : list string) :
  Permutation l l' -> max_count l <= max_count l'.
Proof.
  intros Hp. destruct l as [|x t].
  - apply Nat.le_0_l.
  - destruct (fold_max_attained (x :: t) (x :: t)) as [s [_ He]];
      [discriminate|].
    fold (max_count (x :: t)) in He. rewrite <- He.
    rewrite (count_str_perm s _ _ Hp). apply count_le_max_count.
Qed.

Lemma max_count_perm (l l' : list string) :
  Permutation l l' -> max_count l = max_count l'.
Proof.
  intros Hp. apply Nat.le_antisymm.
  - now apply max_count_le_perm.
  - now apply max_count_le_perm, Permutation_sym.
Qed.

Lemma mode_perm (l l' : list string) : Permutation l l' -> mode l = mode l'.
Proof.
  intros Hp. unfold mode.
  apply (sort_perm_eq String.leb String.leb_total string_leb_trans
           String.leb_antisym).
  apply NoDup_Permutation.
  - apply NoDup_filter, (distinct_NoDup _ String.eqb_eq).
  - apply NoDup_filter, (distinct_NoDup _ String.eqb_eq).
  - intros s. rewrite !filter_In, !(distinct_In _ String.eqb_eq).
    rewrite (count_str_perm s _ _ Hp), (max_count_perm _ _ Hp).
    split; intros [Hin He]; (split; [|exact He]).
    + now apply Permutation_in with l.
    + apply Permutation_in with l'; [now apply Permutation_sym|exact Hin].
Qed.

Lemma nums_perm (cells cells' : list cell) :
  Permutation cells cells' -> Permutation (nums cells) (nums cells').
Proof. apply Permutation_flat_map. Qed.

Lemma strs_perm (cells cells' : list cell) :
  Permutation cells cells' -> Permutation (strs cells) (strs cells').
Proof. apply Permutation_flat_map. Qed.

(** X6.  The value imputation fills in does not depend on the order of
    the rows: two columns holding the same entries in different orders are
    filled with the same median, and with the same mode, also when several
    values are equally frequent. *)
Theorem imputation_order_insensitive (c1 c2 : column) :
  Permutation (col_cells c1) (col_cells c2) ->
  (exists v,
     col_cells (fill_numeric c1) = fillna v (col_cells c1)
     /\ col_cells (fill_numeric c2) = fillna v (col_cells c2))
  /\ (forall c1', fill_object c1 = Ok c1' ->
        exists v c2',
          fill_object c2 = Ok c2'
          /\ col_cells c1' = fillna v (col_cells c1)
          /\ col_cells c2' = fillna v (col_cells c2)).
Proof.
  intros Hp. split.
  - eexists. split; [apply fill_numeric_fillna|].
    rewrite (median_perm _ _ (nums_perm _ _ Hp)). apply fill_numeric_fillna.
  - intros c1' H1.
    assert (Hm : mode (strs (col_cells c1)) = mode (strs (col_cells c2)))
      by apply mode_perm, strs_perm, Hp.
    assert (Hn : null_count (col_cells c1) = null_count (col_cells c2))
      by now apply filter_length_perm.
    assert (H2 : exists c2', fill_object c2 = Ok c2').
    { unfold fill_object in H1 |- *. rewrite <- Hn, <- Hm.
      destruct (Nat.ltb 0 (null_count (col_cells c1))); [|eauto].
      destruct (mode (strs (col_cells c1))); [discriminate|eauto]. }
    destruct H2 as [c2' H2].
    eexists. exists c2'. split; [exact H2|].
    split; [apply (fill_object_fillna _ _ H1)|].
    rewrite Hm. apply (fill_object_fillna _ _ H2).
Qed.

Lemma imputation_order_insensitive_witness :
  exists v,
    col_cells (fill_numeric sales_with_null) = fillna v (col_cells sales_with_null)
    /\ col_cells (fill_numeric (set_cells sales_with_null
                                  [CNull; num 100; num 30; num 10]))
       = fillna v [CNull; num 100; num 30; num 10].
Proof.
  apply (imputation_order_insensitive sales_with_null
           (set_cells sales_with_null [CNull; num 100; num 30; num 10])).
  simpl.
  apply Permutation_trans with (CNull :: num 10 :: [num 30; num 100]).
  - apply perm_swap.
  - apply perm_skip.
    apply Permutation_trans with (num 30 :: num 10 :: [num 100]);
      [apply perm_swap|].
    apply Permutation_trans with (num 30 :: num 100 :: [num 10]);
      [apply perm_skip, perm_swap|apply perm_swap].
Defined.

(* ================================================================== *)
(** * More on the pipeline: deduplication twice *)

Lemma duplicated_from_fresh (rs seen : list (list cell)) :
  NoDup rs -> (forall r, In r rs -> ~ In r seen) ->
  duplicated_from seen rs = repeat false (length rs).
Proof.
  intros Hn. revert seen. induction Hn as [|r t Hr Hn IH]; intros seen Hs; simpl.
  - reflexivity.
  - destruct (existsb (list_eqb cell_eqb r) seen) eqn:E.
    + apply (existsb_eqb_In _ row_eqb_eq) in E.
      exfalso. apply (Hs r); [now left|exact E].
    + f_equal. apply IH. intros r' Hr' [<-|Hin]; [contradiction|].
      apply (Hs r'); [now right|exact Hin].
Qed.

Lemma unmarked_none (n i : nat) : unmarked i (repeat false n) = seq i n.
Proof.
  revert i. induction n as [|n IH]; intros i; simpl; [reflexivity|].
  now rewrite IH.
Qed.

Lemma take_all (df : DataFrame) (n : nat) :
  Forall (fun c => length (col_cells c) = n) df -> take (seq 0 n) df = df.
Proof.
  unfold take. induction 1 as [|c t Hc _ IH]; simpl; [reflexivity|].
  rewrite IH. f_equal. destruct c as [nm ty cells]. unfold set_cells. simpl in *.
  f_equal. rewrite <- Hc. apply map_nth_seq.
Qed.

Lemma take_lengths (idx : list nat) (df : DataFrame) :
  Forall (fun c => length (col_cells c) = length idx) (take idx df).
Proof.
  unfold take. apply Forall_forall. intros c Hc. apply in_map_iff in Hc.
  destruct Hc as [c0 [<- _]]. simpl. apply length_map.
Qed.

Lemma rows_drop_duplicates_NoDup (df : DataFrame) :
  empty df = false -> NoDup (rows (take (unmarked 0 (duplicated df)) df)).
Proof.
  intros E.
  assert (Hdf : df <> []) by (destruct df; [discriminate|congruence]).
  rewrite (rows_take _ _ Hdf).
  apply NoDup_map_sorted; [apply unmarked_sorted|].
  intros a b _ Hb Hab. unfold duplicated in Hb.
  apply unmarked_duplicated_from in Hb. destruct Hb as (Hlt & _ & Hj).
  rewrite length_rows in Hlt. specialize (Hj a).
  rewrite !Nat.sub_0_r, !nth_rows in Hj by lia. apply Hj. lia.
Qed.

(** X7.  Deduplication is idempotent: a frame that has been deduplicated
    is returned unchanged by a second pass. *)
Theorem deduplication_idempotent (df : DataFrame) :
  handle_duplicates (handle_duplicates df) = handle_duplicates df.
Proof.
  unfold handle_duplicates.
  destruct (empty df) eqn:E.
  - assert (H : drop_duplicates df = df)
      by (unfold drop_duplicates; now rewrite E).
    now rewrite !H.
  - set (df' := take (unmarked 0 (duplicated df)) df).
    assert (H : drop_duplicates df = df')
      by (unfold drop_duplicates; now rewrite E).
    rewrite H. unfold drop_duplicates.
    destruct (empty df') eqn:E'; [reflexivity|].
    assert (Hdf : df <> []) by (destruct df; [discriminate|congruence]).
    assert (Hn : nrows df' = length (unmarked 0 (duplicated df)))
      by now apply nrows_take.
    unfold duplicated at 1.
    rewrite (duplicated_from_fresh (rows df') []).
    + rewrite unmarked_none, length_rows, Hn. apply take_all, take_lengths.
    + now apply rows_drop_duplicates_NoDup.
    + intros r _ [].
Qed.

(* ================================================================== *)
(** * More on the pipeline: normalization and date features *)

Lemma get_column_set_column (df : DataFrame) (n m : string) ty cells :
  get_column (set_column df n ty cells) m
  = if String.eqb n m
    then Some {| col_name := n; col_dtype := ty; col_cells := cells |}
    else get_column df m.
Proof.
  unfold get_column.
  induction df as [|c t IH]; simpl.
  - destruct (String.eqb n m); reflexivity.
  - destruct (String.eqb (col_name c) n) eqn:E; simpl.
    + apply String.eqb_eq in E. subst n.
      destruct (String.eqb (col_name c) m); reflexivity.
    + destruct (String.eqb (col_name c) m) eqn:E'.
      * apply String.eqb_eq in E'. subst m. now rewrite String.eqb_sym, E.
      * exact IH.
Qed.

Lemma names_set_column_existing (df : DataFrame) (n : string) ty cells :
  has_column df n = true -> names (set_column df n ty cells) = names df.
Proof.
  rewrite has_column_In. induction df as [|c t IH]; simpl; [tauto|].
  intros H. destruct (String.eqb (col_name c) n) eqn:E; simpl.
  - apply String.eqb_eq in E. now subst.
  - f_equal. apply IH. destruct H as [H|H]; [|exact H].
    subst. rewrite String.eqb_refl in E. discriminate.
Qed.

Lemma set_column_same (df : DataFrame) (n : string) ty cells :
  get_column df n = Some {| col_name := n; col_dtype := ty; col_cells := cells |} ->
  set_column df n ty cells = df.
Proof.
  unfold get_column. induction df as [|c t IH]; simpl; [discriminate|].
  destruct (String.eqb (col_name c) n) eqn:E.
  - intros H. injection H as ->. reflexivity.
  - intros H. f_equal. now apply IH.
Qed.

Lemma series_length_nrows_set (df : DataFrame) (n : string) ty (f : cell -> cell) :
  has_column df n = true ->
  nrows (set_column df n ty (map f (series df n))) = nrows df.
Proof.
  intros H. apply nrows_set_column.
  - destruct df; [discriminate|congruence].
  - apply length_map.
Qed.

Section Normalization.
Variable str_strip str_upper : string -> string.

(** X8.  Normalization has three outcomes.  Without a STATUS column it
    raises KeyError; with a STATUS column that is not of object type it
    raises AttributeError; otherwise it succeeds, and the result differs
    from the frame only in the STATUS column, whose entries are stripped
    and upper-cased one by one in place, with the same number of rows. *)
Theorem normalize_categories_outcomes (df : DataFrame) :
  match get_column df "STATUS" with
  | None =>
      normalize_categories str_strip str_upper df = Err (KeyError "STATUS")
  | Some c =>
      if is_object c then
        exists df',
          normalize_categories str_strip str_upper df = Ok df'
          /\ names df' = names df
          /\ nrows df' = nrows df
          /\ get_column df' "STATUS"
             = Some {| col_name := "STATUS"; col_dtype := Object;
                       col_cells := map (strip_upper str_strip str_upper)
                                        (col_cells c) |}
          /\ forall n, n <> "STATUS" -> get_column df' n = get_column df n
      else
        normalize_categories str_strip str_upper df = Err AttributeError
  end.
Proof.
  destruct (get_column df "STATUS") as [c|] eqn:E.
  - assert (Hh : has_column df "STATUS" = true)
      by (rewrite has_column_get_column; now rewrite E).
    unfold normalize_categories, getitem. rewrite Hh, E. simpl bind.
    destruct (is_object c) eqn:Eo; [|reflexivity].
    simpl bind. rewrite get_column_set_column. simpl.
    eexists. split; [reflexivity|].
    split; [now apply names_set_column_existing|]. split.
    + replace (col_cells c) with (series df "STATUS")
        by (unfold series; now rewrite E).
      now apply series_length_nrows_set.
    + split; [apply get_column_set_column|].
      intros n Hn. rewrite get_column_set_column.
      destruct (String.eqb "STATUS" n) eqn:En; [|reflexivity].
      apply String.eqb_eq in En. congruence.
  - apply normalize_categories_without_status.
    rewrite has_column_get_column. now rewrite E.
Qed.

Lemma normalize_categories_Ok (df df' : DataFrame) :
  normalize_categories str_strip str_upper df = Ok df' ->
  has_column df "STATUS" = true /\ names df' = names df /\ nrows df' = nrows df.
Proof.
  intros H. unfold normalize_categories in H. invert_bind H.
  destruct (has_column df "STATUS") eqn:E.
  - invert_bind Hx. unfold getitem in Hx0.
    destruct (get_column df "STATUS") as [c|] eqn:Ec; [|discriminate].
    injection Hx0 as <-. destruct (is_object c); [|discriminate].
    injection Hx as <-. invert_bind H. injection H as <-.
    split; [reflexivity|]. split; [now apply names_set_column_existing|].
    replace (col_cells c) with (series df "STATUS")
      by (unfold series; now rewrite Ec).
    now apply series_length_nrows_set.
  - injection Hx as <-. invert_bind H. unfold getitem in Hx.
    rewrite get_column_None in Hx by exact E. discriminate.
Qed.
End Normalization.

Section DateFeatures.
Variable parse_datetime : cell -> option timestamp.

Lemma to_datetime_cases (c : cell) :
  to_datetime parse_datetime c = CNull
  \/ exists d, to_datetime parse_datetime c = CDate d
               /\ is_calendar_date d = true.
Proof.
  unfold to_datetime.
  destruct (match c with
            | CNull => None
            | CDate d => Some d
            | _ => parse_datetime c
            end) as [d|]; [|now left].
  destruct (is_calendar_date d) eqn:E; [right; eauto|now left].
Qed.

Lemma to_datetime_idempotent (c : cell) :
  to_datetime parse_datetime (to_datetime parse_datetime c)
  = to_datetime parse_datetime c.
Proof.
  destruct (to_datetime_cases c) as [H|[d [H Hd]]]; rewrite H.
  - reflexivity.
  - unfold to_datetime. now rewrite Hd.
Qed.

Lemma ensure_has (d : DataFrame) (n : string) ty cells :
  has_column (if negb (has_column d n) then set_column d n ty cells else d) n
  = true.
Proof.
  destruct (has_column d n) eqn:E; simpl; [exact E|].
  rewrite has_column_set_column, String.eqb_refl. reflexivity.
Qed.

Lemma ensure_keeps (d : DataFrame) (n m : string) ty cells :
  has_column d m = true ->
  has_column (if negb (has_column d n) then set_column d n ty cells else d) m
  = true.
Proof.
  intros H. destruct (has_column d n); simpl; [exact H|].
  rewrite has_column_set_column, H. apply orb_true_r.
Qed.

Lemma ensure_get_other (d : DataFrame) (n m : string) ty cells :
  n <> m ->
  get_column (if negb (has_column d n) then set_column d n ty cells else d) m
  = get_column d m.
Proof.
  intros H. destruct (has_column d n); simpl; [reflexivity|].
  rewrite get_column_set_column. apply String.eqb_neq in H. now rewrite H.
Qed.

Lemma ensure_fixed (d : DataFrame) (n : string) ty cells :
  has_column d n = true ->
  (if negb (has_column d n) then set_column d n ty cells else d) = d.
Proof. intros ->. reflexivity. Qed.

(** What date-feature extraction leaves: the four columns are there and
    the order date is of datetime type. *)
Lemma extract_date_features_columns (df : DataFrame) :
  has_column df "ORDERDATE" = true ->
  let out := extract_date_features parse_datetime df in
  has_column out "ORDERDATE" = true
  /\ has_column out "YEAR_ID" = true
  /\ has_column out "MONTH_ID" = true
  /\ has_column out "QTR_ID" = true
  /\ get_column out "ORDERDATE"
     = Some {| col_name := "ORDERDATE"; col_dtype := Datetime;
               col_cells := map (to_datetime parse_datetime)
                                (series df "ORDERDATE") |}
  /\ forall n, has_column df n = true -> has_column out n = true.
Proof.
  intros H out. subst out. unfold extract_date_features. rewrite H.
  set (df1 := set_column df "ORDERDATE" Datetime _).
  assert (G1 : get_column df1 "ORDERDATE"
               = Some {| col_name := "ORDERDATE"; col_dtype := Datetime;
                         col_cells := map (to_datetime parse_datetime)
                                          (series df "ORDERDATE") |}).
  { unfold df1. rewrite get_column_set_column. reflexivity. }
  assert (K1 : forall n, has_column df n = true -> has_column df1 n = true).
  { intros n Hn. unfold df1. rewrite has_column_set_column, Hn.
    apply orb_true_r. }
  cbv zeta.
  set (df2 := if negb (has_column df1 "YEAR_ID") then _ else df1).
  set (df3 := if negb (has_column df2 "MONTH_ID") then _ else df2).
  set (df4 := if negb (has_column df3 "QTR_ID") then _ else df3).
  assert (Y2 : has_column df2 "YEAR_ID" = true) by apply ensure_has.
  assert (M3 : has_column df3 "MONTH_ID" = true) by apply ensure_has.
  assert (Q4 : has_column df4 "QTR_ID" = true) by apply ensure_has.
  assert (K : forall n, has_column df n = true -> has_column df4 n = true).
  { intros n Hn. unfold df4, df3, df2. do 3 apply ensure_keeps. now apply K1. }
  split; [now apply K|]. split; [|split; [|split; [exact Q4|split; [|exact K]]]].
  - unfold df4, df3. do 2 apply ensure_keeps. exact Y2.
  - unfold df4. apply ensure_keeps. exact M3.
  - unfold df4, df3, df2.
    rewrite !ensure_get_other by discriminate. exact G1.
Qed.

(** X9.  Date-feature extraction is idempotent: applied to its own result
    it changes nothing, because the order dates are already dates and the
    three derived columns are already there. *)
Theorem extract_date_features_idempotent (df : DataFrame) :
  extract_date_features parse_datetime (extract_date_features parse_datetime df)
  = extract_date_features parse_datetime df.
Proof.
  destruct (has_column df "ORDERDATE") eqn:E.
  - destruct (extract_date_features_columns df E)
      as (Ho & Hy & Hm & Hq & Hg & _).
    set (out := extract_date_features parse_datetime df) in *.
    unfold extract_date_features at 1. rewrite Ho.
    assert (H1 : set_column out "ORDERDATE" Datetime
                   (map (to_datetime parse_datetime) (series out "ORDERDATE"))
                 = out).
    { assert (Hs : series out "ORDERDATE"
                   = map (to_datetime parse_datetime) (series df "ORDERDATE"))
        by (unfold series at 1; now rewrite Hg).
      rewrite Hs, map_map.
      rewrite (map_ext _ (to_datetime parse_datetime))
        by (intros c; apply to_datetime_idempotent).
      apply set_column_same. exact Hg. }
    rewrite H1. cbv zeta.
    now rewrite (ensure_fixed out "YEAR_ID") , (ensure_fixed out "MONTH_ID"),
      (ensure_fixed out "QTR_ID").
  - assert (H : extract_date_features parse_datetime df = df)
      by (unfold extract_date_features; now rewrite E).
    now rewrite !H.
Qed.
End DateFeatures.

(* ================================================================== *)
(** * More on the pipeline: what [main] stores *)

Lemma handle_missing_data_nrows (df df' : DataFrame) :
  handle_missing_data df = Ok df' -> nrows df' = nrows df.
Proof.
  intros H. apply handle_missing_data_columns in H.
  destruct H as [|c c' t t' Hc _]; [reflexivity|].
  apply imputed_fillna in Hc. destruct Hc as (_ & _ & v & Hv).
  simpl. rewrite Hv. unfold fillna. apply length_map.
Qed.

Lemma handle_duplicates_nrows (df : DataFrame) :
  nrows (handle_duplicates df) <= nrows df.
Proof.
  unfold handle_duplicates, drop_duplicates.
  destruct (empty df) eqn:E; [lia|].
  rewrite nrows_take by (destruct df; [discriminate|congruence]).
  etransitivity; [apply length_unmarked|].
  unfold duplicated. now rewrite length_duplicated_from, length_rows.
Qed.

Lemma position_Some_In (n : string) (cols : list string) (i : nat) :
  position n cols = Some i ->
  exists c, In c cols /\ same_identifier c n = true.
Proof.
  revert i. induction cols as [|c t IH]; intros i; simpl; [discriminate|].
  destruct (same_identifier c n) eqn:E.
  - intros _. exists c. split; [now left|exact E].
  - destruct (position n t) as [j|]; [|discriminate]. intros _.
    destruct (IH j eq_refl) as [c' [Hc' He]]. exists c'. split; [now right|exact He].
Qed.

Lemma In_sql_col (t : table) (n : string) :
  In n (schema t) -> exists i, sql_col t n = Ok i.
Proof.
  intros H. apply pragma_has_sql_col. unfold pragma_has.
  now apply string_existsb_In.
Qed.

(** Among the names the pipeline can store, a column reference finds the
    column of exactly that name. *)
Lemma required_same_identifier (c n : string) :
  In c required_cols -> In n required_cols ->
  same_identifier c n = true -> c = n.
Proof.
  unfold required_cols. simpl. intros Hc Hn.
  decompose [or] Hc; decompose [or] Hn; subst; try contradiction;
    try reflexivity; intros H; vm_compute in H; discriminate H.
Qed.

Section MainFacts.
Variable str_strip str_upper : string -> string.
Variable parse_datetime : cell -> option timestamp.
Variable isoformat : timestamp -> string.

Lemma main_Ok_inv (df df' : DataFrame) (t : table) :
  main str_strip str_upper parse_datetime isoformat df = Ok (df', t) ->
  exists d2 d4,
    handle_missing_data (select_columns df) = Ok d2
    /\ normalize_categories str_strip str_upper (handle_duplicates d2) = Ok d4
    /\ df' = extract_date_features parse_datetime d4
    /\ t = to_sql isoformat df'
    /\ (exists i, sql_col t "ORDERDATE" = Ok i)
    /\ (exists i, sql_col t "STATUS" = Ok i)
    /\ (exists i, sql_col t "YEAR_ID" = Ok i).
Proof.
  intros H. apply main_Ok_steps in H.
  destruct H as (d2 & d4 & H2 & H4 & E & _ & Hs).
  apply store_in_database_Ok in Hs.
  destruct Hs as (Ht & _ & Ho & Hst & Hy).
  exists d2, d4. repeat split; assumption.
Qed.

Lemma sql_col_required (df' : DataFrame) (n : string) (i : nat) :
  (forall m, In m (names df') -> In m required_cols) ->
  In n required_cols ->
  sql_col (to_sql isoformat df') n = Ok i -> In n (names df').
Proof.
  intros Hsub Hn H. unfold sql_col in H. simpl in H.
  destruct (position n (names df')) as [j|] eqn:E; [|discriminate].
  apply position_Some_In in E. destruct E as [c [Hc He]].
  rewrite <- (required_same_identifier c n); auto.
Qed.

(** X11.  Whatever [main] stores has the columns the pipeline guarantees:
    the stored schema is that of the processed frame, lies within the
    allow-list, and always holds ORDERDATE, STATUS, YEAR_ID, MONTH_ID and
    QTR_ID, so that a query naming one of them resolves it; the table has
    one row per row of the processed frame, and no more rows than the
    source. *)
Theorem main_stored_table (df df' : DataFrame) (t : table) :
  main str_strip str_upper parse_datetime isoformat df = Ok (df', t) ->
  schema t = names df'
  /\ (forall n, In n (schema t) -> In n required_cols)
  /\ (forall n, In n ["ORDERDATE"; "STATUS"; "YEAR_ID"; "MONTH_ID"; "QTR_ID"] ->
                In n (schema t) /\ exists i, sql_col t n = Ok i)
  /\ length (t_rows t) = nrows df'
  /\ nrows df' <= nrows (select_columns df).
Proof.
  intros H.
  assert (Hsub : forall n, In n (schema t) -> In n required_cols)
    by (intros n; now apply (main_schema _ _ _ _ _ _ _ _ H)).
  apply main_Ok_inv in H.
  destruct H as (d2 & d4 & H2 & H4 & -> & -> & [io Ho] & _ & _).
  cbn [schema to_sql] in *.
  apply normalize_categories_Ok in H4. destruct H4 as (Hs & Hn4 & Hr4).
  assert (Hod : In "ORDERDATE" (names (extract_date_features parse_datetime d4))).
  { apply (sql_col_required _ _ io Hsub); [|exact Ho].
    unfold required_cols. simpl. tauto. }
  assert (Hod4 : has_column d4 "ORDERDATE" = true).
  { apply has_column_In. apply names_extract_date_features in Hod.
    destruct Hod as [Hod|Hod]; [exact Hod|].
    simpl in Hod. decompose [or] Hod; try discriminate; contradiction. }
  destruct (extract_date_features_columns parse_datetime d4 Hod4)
    as (_ & Hy & Hm & Hq & _ & Hk).
  assert (Hs4 : has_column d4 "STATUS" = true).
  { apply has_column_In. rewrite Hn4. now apply has_column_In. }
  split; [reflexivity|]. split; [exact Hsub|]. split; [|split].
  - intros n Hn.
    assert (Hin : In n (names (extract_date_features parse_datetime d4))).
    { apply has_column_In. simpl in Hn.
      decompose [or] Hn; subst; try contradiction; auto. }
    split; [exact Hin|]. now apply In_sql_col.
  - cbn [t_rows to_sql]. now rewrite length_map, length_rows.
  - rewrite extract_date_features_nrows, Hr4.
    rewrite <- (handle_missing_data_nrows _ _ H2). apply handle_duplicates_nrows.
Qed.

End MainFacts.

Lemma main_stored_table_witness :
  schema sales_table = names df_processed
  /\ length (t_rows sales_table) = nrows df_processed
  /\ nrows df_processed <= nrows (select_columns df_source).
Proof.
  destruct (main_stored_table sample_strip sample_upper sample_parse
              sample_isoformat df_source df_processed sales_table)
    as (Hs & _ & _ & Hl & Hn).
  - vm_compute. reflexivity.
  - split; [exact Hs|]. split; [exact Hl|exact Hn].
Defined.


(* ================================================================== *)
(** * More on the queries: counts and the status breakdown *)

Lemma Qc_of_nat_S (n : nat) : Qc_of_nat (S n) = (Qc_of_nat 1 + Qc_of_nat n)%Qc.
Proof.
  unfold Qc_of_nat, QcZ, Qcplus. apply Q2Qc_eq_iff.
  cbn [this Q2Qc]. rewrite !Qred_correct, Nat2Z.inj_succ.
  unfold Z.succ. rewrite inject_Z_plus. simpl. ring.
Qed.

Lemma qsum_ones {A : Type} (l : list A) :
  qsum (map (fun _ => Qc_of_nat 1) l) = Qc_of_nat (length l).
Proof.
  induction l as [|x t IH]; [reflexivity|].
  cbn [map length]. rewrite (Qc_of_nat_S (length t)), <- IH. reflexivity.
Qed.

Lemma count_by_group (key : list value -> list value) (rs : list (list value)) :
  qsum (map (fun g => Qc_of_nat (length (snd g))) (group_by key rs))
  = Qc_of_nat (length rs).
Proof.
  unfold group_by. rewrite map_map. simpl.
  rewrite <- (qsum_ones rs).
  rewrite <- (qsum_by_group key (fun _ => Qc_of_nat 1)
                (distinct key_eqb (map key rs)) rs).
  - f_equal. apply map_ext. intros k. symmetry. apply qsum_ones.
  - apply (distinct_NoDup _ key_eqb_eq).
  - intros r Hr. apply (proj2 (distinct_In _ key_eqb_eq _ _)). now apply in_map.
Qed.

Lemma sum_field_perm (k : string) (l l' : list dict) :
  Permutation l l' -> sum_field k l = sum_field k l'.
Proof.
  intros H. unfold sum_field. rewrite !qsum_flat_map.
  now apply qsum_perm, Permutation_map.
Qed.

Lemma sum_field_map {A : Type} (k : string) (mk : A -> dict) (w : A -> Qc)
  (l : list A) :
  (forall a, get (mk a) k = VNum (w a)) ->
  sum_field k (map mk l) = qsum (map w l).
Proof.
  intros H. unfold sum_field. rewrite qsum_flat_map, map_map.
  f_equal. apply map_ext. intros a. rewrite H. simpl.
  rewrite QcZ_0. ring.
Qed.


Section Counts.
Variable text_num : string -> Qc.

Lemma group_totals_sum (key : list value -> list value) (s : nat)
  (rs : list (list value)) :
  qsum (map (fun g => qsum (flat_map (sql_num text_num) (map (field s) (snd g))))
            (group_by key rs))
  = qsum (flat_map (sql_num text_num) (map (field s) rs)).
Proof.
  unfold group_by. rewrite map_map. simpl.
  rewrite (flat_map_concat_map _ (map (field s) rs)), map_map,
    <- flat_map_concat_map, qsum_flat_map.
  rewrite <- (qsum_by_group key (fun r => qsum (sql_num text_num (field s r)))
                (distinct key_eqb (map key rs)) rs).
  - f_equal. apply map_ext. intros k.
    rewrite flat_map_concat_map, map_map, <- flat_map_concat_map.
    apply qsum_flat_map.
  - apply (distinct_NoDup _ key_eqb_eq).
  - intros r Hr. apply (proj2 (distinct_In _ key_eqb_eq _ _)). now apply in_map.
Qed.

(** X12.  Sales-by-category returns one record per distinct status, in
    descending order of total sales; each record's total is the SUM over
    the rows of its status, and the order counts of the records add up to
    the number of rows of the table. *)
Theorem sales_by_category_records (t : table) (cats : list dict) :
  sales_by_category text_num t = Ok cats ->
  exists st s,
    sql_col t "STATUS" = Ok st /\ sql_col t "SALES" = Ok s
    /\ length cats = length (distinct value_eqb (map (field st) (t_rows t)))
    /\ descending_by_total cats
    /\ NoDup (map (fun r => get r "category") cats)
    /\ (forall r, In r cats ->
          In (get r "category") (distinct value_eqb (map (field st) (t_rows t)))
          /\ get r "total_sales"
             = sql_sum text_num
                 (map (field s)
                    (filter (fun row => value_eqb (field st row) (get r "category"))
                            (t_rows t))))
    /\ sum_field "order_count" cats = Qc_of_nat (length (t_rows t)).
Proof.
  unfold sales_by_category. intros H.
  invert_bind H. invert_bind H. invert_bind H. injection H as <-.
  rename x into st, x0 into s. exists st, s.
  split; [assumption|]. split; [assumption|].
  set (mk := fun g : list value * list (list value) => _).
  destruct (grouped_totals text_num t (-1) st s "category" mk) as (Hl & Hd & Hn & Hr).
  { intros gp. reflexivity. }
  { intros gp. reflexivity. }
  split; [exact Hl|]. split; [exact Hd|]. split; [exact Hn|]. split; [exact Hr|].
  unfold order_by_desc. rewrite (sum_field_perm _ _ _ (sort_perm _ _)).
  rewrite (sum_field_map "order_count" mk (fun g => Qc_of_nat (length (snd g))))
    by (intros g; reflexivity).
  apply count_by_group.
Qed.

End Counts.

Lemma sales_by_category_records_witness :
  exists st s,
    sql_col sales_table "STATUS" = Ok st /\ sql_col sales_table "SALES" = Ok s
    /\ length sample_categories
       = length (distinct value_eqb (map (field st) (t_rows sales_table)))
    /\ sum_field "order_count" sample_categories
       = Qc_of_nat (length (t_rows sales_table)).
Proof.
  destruct (sales_by_category_records sample_text_num sales_table
              sample_categories)
    as (st & s & Hst & Hs & Hl & _ & _ & _ & Hc).
  - vm_compute. reflexivity.
  - exists st, s. repeat split; assumption.
Defined.


(** The two endpoints do not fail together: on a table in which the
    sales of one status overflow while the sales of the whole table do
    not, the KPIs are computed and sales-by-category raises. *)
Lemma kpis_without_categories :
  (exists k, get_kpis sample_text_num overflow_table = Ok k)
  /\ sales_by_category sample_text_num overflow_table = Err IntegerOverflow.
Proof.
  split; [eexists|]; vm_compute; reflexivity.
Qed.

(* ================================================================== *)
(** * More on the queries: the optional columns when they are there *)

Lemma grouped_record (limit : Z) (k : string) (g : nat)
  (mk : list value * list (list value) -> dict) (rs : list (list value))
  (r : dict) :
  In r (sql_limit limit
          (order_by_desc k (map mk (group_by (fun row => [field g row]) rs)))) ->
  exists v,
    In v (map (field g) rs)
    /\ r = mk ([v], filter (fun row => value_eqb (field g row) v) rs).
Proof.
  intros H. apply sql_limit_incl in H. apply sort_In in H.
  apply in_map_iff in H. destruct H as [gp [<- Hgp]].
  apply group_by_In in Hgp. destruct Hgp as [[row [Hrow Hk]] Hs].
  exists (field g row). split; [now apply in_map|].
  destruct gp as [key rows]. simpl in Hk, Hs. subst key rows.
  do 2 f_equal. apply filter_ext. intros row'. apply key_eqb_singleton.
Qed.

Section OptionalPresent.
Variable text_num : string -> Qc.



Lemma bind_Err {A B : Type} (r : result A) (f : A -> result B) (e : error) :
  bind r f = Err e -> r = Err e \/ exists a, r = Ok a /\ f a = Err e.
Proof.
  destruct r as [a|e']; simpl; [eauto|].
  intros H. injection H as ->. now left.
Qed.

Lemma sql_col_Err (t : table) (n : string) (e : error) :
  sql_col t n = Err e -> missing_column t e.
Proof.
  unfold sql_col, missing_column.
  destruct (position n (schema t)) eqn:E; [discriminate|].
  intros H. injection H as <-. eauto.
Qed.

Lemma limit_value_Err (n : Z) (e : error) :
  limit_value n = Err e -> e = DatatypeMismatch /\ int64 n = false.
Proof.
  unfold limit_value. destruct (int64 n); [discriminate|].
  intros H. injection H as <-. auto.
Qed.

(** A SUM overflows only over a column whose INTEGER values have
    magnitudes that add up beyond the 64-bit range. *)
Lemma magnitudes_dec (cols : list nat) (rs : list (list value)) :
  (forall c, In c cols ->
             (magnitude text_num (map (field c) rs) <= max_int64)%Z)
  \/ exists c, In c cols
               /\ (max_int64 < magnitude text_num (map (field c) rs))%Z.
Proof.
  induction cols as [|c cols IH].
  - left. intros c [].
  - destruct (Z_lt_le_dec max_int64 (magnitude text_num (map (field c) rs)))
      as [H|H].
    + right. exists c. split; [now left|exact H].
    + destruct IH as [IH|[c' [Hc' Hm]]].
      * left. intros c' [<-|Hc']; [exact H|now apply IH].
      * right. exists c'. split; [now right|exact Hm].
Qed.

Lemma check_overflow_groups_Err (key : list value -> list value)
  (cols : list nat) (rs : list (list value)) (e : error) :
  check_overflow text_num cols (map snd (group_by key rs)) = Err e ->
  e = IntegerOverflow
  /\ exists c, In c cols
               /\ (max_int64 < magnitude text_num (map (field c) rs))%Z.
Proof.
  intros H. split; [now apply check_overflow_Err in H|].
  destruct (magnitudes_dec cols rs) as [Hall|Hex]; [|exact Hex].
  rewrite (check_overflow_groups text_num key cols rs Hall) in H. discriminate.
Qed.

Lemma check_overflow_table_Err (cols : list nat) (rs : list (list value))
  (e : error) :
  check_overflow text_num cols [rs] = Err e ->
  e = IntegerOverflow
  /\ exists c, In c cols
               /\ (max_int64 < magnitude text_num (map (field c) rs))%Z.
Proof.
  intros H. split; [now apply check_overflow_Err in H|].
  destruct (magnitudes_dec cols rs) as [Hall|Hex]; [|exact Hex].
  rewrite (check_overflow_table text_num cols rs Hall) in H. discriminate.
Qed.

Lemma growth_rate_Err (p c : value) (e : error) :
  growth_rate p c = Err e -> e = TypeError.
Proof.
  unfold growth_rate. destruct p as [|pv|s]; try congruence.
  destruct (Qc_ltb (QcZ 0) pv); [|discriminate].
  destruct c; congruence.
Qed.

Lemma growth_loop_Err (rest : list dict) (prev : dict) (e : error) :
  growth_loop prev rest = Err e -> e = TypeError.
Proof.
  revert prev. induction rest as [|cur rest' IH]; intros prev; simpl;
    [discriminate|].
  intros H. apply bind_Err in H. destruct H as [H|[g [_ H]]].
  - now apply growth_rate_Err in H.
  - apply bind_Err in H. destruct H as [H|[tl [_ H]]]; [|discriminate].
    now apply IH in H.
Qed.

(** The failure of one step of a statement. *)
Ltac column_step H :=
  apply bind_Err in H; destruct H as [H|[? [? H]]];
  [left; now apply sql_col_Err in H|].

Ltac overflow_in H c Hc Hm :=
  match type of H with
  | check_overflow _ _ (map snd _) = Err _ =>
      apply check_overflow_groups_Err in H
  | _ => apply check_overflow_table_Err in H
  end;
  destruct H as [-> [c [Hc Hm]]].

Lemma sales_overflow (t : table) (s : nat) :
  sql_col t "SALES" = Ok s ->
  (max_int64 < magnitude text_num (map (field s) (t_rows t)))%Z ->
  sum_out_of_range text_num t IntegerOverflow.
Proof.
  intros Hs Hm. split; [reflexivity|].
  exists "SALES", s. split; [now left|]. now split.
Qed.

Lemma quantity_overflow (t : table) (q : nat) :
  sql_col t "QUANTITYORDERED" = Ok q ->
  (max_int64 < magnitude text_num (map (field q) (t_rows t)))%Z ->
  sum_out_of_range text_num t IntegerOverflow.
Proof.
  intros Hq Hm. split; [reflexivity|].
  exists "QUANTITYORDERED", q. split; [right; now left|]. now split.
Qed.

(** X16.  A query of the aggregation layer fails in three ways only: on a
    column that the stored table does not have, on a SUM of SALES or of
    QUANTITYORDERED that leaves the 64-bit range, which takes INTEGER
    values whose magnitudes add up beyond it, and, for top-customers, on
    a limit that is not a 64-bit integer; sales-trends can also fail
    with the TypeError of its growth loop. *)
Theorem query_failures (t : table) (limit : Z) (e : error) :
  (sales_by_category text_num t = Err e
   \/ sales_by_country text_num t = Err e
   \/ get_kpis text_num t = Err e
   \/ product_performance text_num t = Err e ->
   missing_column t e \/ sum_out_of_range text_num t e)
  /\
  (top_customers text_num t limit = Err e ->
   missing_column t e \/ sum_out_of_range text_num t e
   \/ (e = DatatypeMismatch /\ int64 limit = false))
  /\
  (sales_trends text_num t = Err e ->
   missing_column t e \/ sum_out_of_range text_num t e \/ e = TypeError).
Proof.
  split; [|split].
  - intros [H|[H|[H|H]]].
    + unfold sales_by_category in H.
      column_step H. column_step H.
      apply bind_Err in H. destruct H as [H|[? [_ H]]]; [|discriminate].
      right. overflow_in H c Hc Hm. destruct Hc as [<-|[]].
      eapply sales_overflow; eassumption.
    + unfold sales_by_country in H.
      destruct (pragma_has t "COUNTRY"); [|discriminate].
      column_step H. column_step H.
      apply bind_Err in H. destruct H as [H|[? [_ H]]]; [|discriminate].
      right. overflow_in H c Hc Hm. destruct Hc as [<-|[]].
      eapply sales_overflow; eassumption.
    + unfold get_kpis in H.
      column_step H. column_step H. column_step H.
      apply bind_Err in H. destruct H as [H|[? [_ H]]].
      * right. overflow_in H c Hc Hm. destruct Hc as [<-|[<-|[]]].
        -- eapply sales_overflow; eassumption.
        -- eapply quantity_overflow; eassumption.
      * column_step H. discriminate H.
    + unfold product_performance in H.
      destruct (pragma_has t "PRODUCTLINE"); [|discriminate].
      column_step H. column_step H. column_step H. column_step H.
      apply bind_Err in H. destruct H as [H|[? [_ H]]]; [|discriminate].
      right. overflow_in H c Hc Hm. destruct Hc as [<-|[<-|[]]].
      * eapply sales_overflow; eassumption.
      * eapply quantity_overflow; eassumption.
  - intros H. unfold top_customers, top_by_customer, top_by_order in H.
    destruct (pragma_has t "CUSTOMERNAME").
    + column_step H. column_step H. column_step H.
      apply bind_Err in H. destruct H as [H|[? [_ H]]].
      * right. right. now apply limit_value_Err in H.
      * destruct (limit =? 0)%Z; [discriminate|].
        apply bind_Err in H. destruct H as [H|[? [_ H]]]; [|discriminate].
        right. left. overflow_in H c Hc Hm. destruct Hc as [<-|[]].
        eapply sales_overflow; eassumption.
    + column_step H. column_step H.
      apply bind_Err in H. destruct H as [H|[? [_ H]]].
      * right. right. now apply limit_value_Err in H.
      * destruct (limit =? 0)%Z; [discriminate|].
        apply bind_Err in H. destruct H as [H|[? [_ H]]]; [|discriminate].
        right. left. overflow_in H c Hc Hm. destruct Hc as [<-|[]].
        eapply sales_overflow; eassumption.
  - intros H. unfold sales_trends in H. apply bind_Err in H.
    destruct H as [H|[results [_ H]]].
    + unfold monthly_sales in H.
      column_step H. column_step H. column_step H.
      apply bind_Err in H. destruct H as [H|[? [_ H]]]; [|discriminate].
      right. left. overflow_in H c Hc Hm. destruct Hc as [<-|[]].
      eapply sales_overflow; eassumption.
    + right. right. unfold with_growth in H. destruct results as [|r0 rest];
        [discriminate|].
      apply bind_Err in H. destruct H as [H|[tl [_ H]]]; [|discriminate].
      now apply growth_loop_Err in H.
Qed.
End OptionalPresent.



Lemma query_failures_witness :
  (missing_column trends_table (OperationalError "STATUS")
   \/ sum_out_of_range sample_text_num trends_table (OperationalError "STATUS"))
  /\ (missing_column overflow_table IntegerOverflow
      \/ sum_out_of_range sample_text_num overflow_table IntegerOverflow
      \/ (IntegerOverflow = DatatypeMismatch /\ int64 10 = false)).
Proof.
  split.
  - destruct (query_failures sample_text_num trends_table 10
                (OperationalError "STATUS")) as [H _].
    apply H. left. reflexivity.
  - destruct (query_failures sample_text_num overflow_table 10
                IntegerOverflow) as (_ & H & _).
    apply H. vm_compute. reflexivity.
Defined.

(* ================================================================== *)
(** * More on the queries: sales over time *)

Lemma singleton_keys_sorted (ks : list (list value)) :
  StronglySorted key_lt ks ->
  (forall k, In k ks -> exists v, k = [v]) ->
  StronglySorted value_lt (map (field 0) ks).
Proof.
  induction 1 as [|k t Hs IH Hk]; intros Hv; simpl; constructor.
  - apply IH. intros k' Hk'. apply Hv. now right.
  - rewrite Forall_forall in Hk. apply Forall_forall. intros b Hb.
    apply in_map_iff in Hb. destruct Hb as [k' [<- Hk']].
    destruct (Hv k (or_introl eq_refl)) as [v ->].
    destruct (Hv k' (or_intror Hk')) as [v' ->].
    specialize (Hk _ Hk'). unfold key_lt in Hk. simpl in Hk.
    unfold value_lt, field. simpl.
    destruct (value_compare v v'); congruence.
Qed.

Section OverTimeFacts.
Variable text_num : string -> Qc.
Variable num_text : Qc -> string.
Variable printf_02d : value -> string.

Lemma period_rows_Ok (s : nat) (key : list value -> list value)
  (label : list value -> value) (rs : list (list value)) (out : list dict) :
  period_rows text_num s key label rs = Ok out ->
  out = map (fun g =>
               [ ("date", label (fst g));
                 ("total_sales", sql_sum text_num (map (field s) (snd g)));
                 ("order_count", sql_count (snd g)) ])
            (sort (fun g1 g2 => key_leb (fst g1) (fst g2)) (group_by key rs)).
Proof.
  unfold period_rows. intros H. invert_bind H. now injection H as <-.
Qed.



Lemma period_rows_dates (s c : nat) (rs : list (list value)) (out : list dict) :
  period_rows text_num s (fun r => [field c r]) (fun k => field 0 k) rs
  = Ok out ->
  StronglySorted value_lt (map (fun r => get r "date") out)
  /\ forall v, In v (map (fun r => get r "date") out)
               <-> In v (map (field c) rs).
Proof.
  intros H. rewrite (period_rows_Ok _ _ _ _ _ H). clear H.
  set (key := fun r : list value => [field c r]).
  set (gs := sort _ (group_by key rs)).
  set (mk := fun g : list value * list (list value) => _).
  assert (Hd : map (fun r => get r "date") (map mk gs) = map (field 0) (map fst gs)).
  { rewrite !map_map. apply map_ext. intros g. reflexivity. }
  rewrite Hd.
  assert (Hin : forall g, In g gs <-> In g (group_by key rs))
    by (intros g; apply sort_In).
  split.
  - apply singleton_keys_sorted.
    + apply sorted_keys_strict.
      * apply sorted_by_map with (leb := key_leb). apply sort_sorted.
        -- intros a b. apply key_leb_total.
        -- intros a b d. apply key_leb_trans.
      * apply (Permutation_NoDup (l := map fst (group_by key rs))).
        -- apply Permutation_map, Permutation_sym, sort_perm.
        -- apply group_by_NoDup.
    + intros k Hk. apply in_map_iff in Hk. destruct Hk as [g [<- Hg]].
      apply Hin, group_by_In in Hg. destruct Hg as [[r [_ Hr]] _].
      rewrite Hr. unfold key. eauto.
  - intros v. rewrite !in_map_iff. split.
    + intros [k [<- Hk]]. apply in_map_iff in Hk. destruct Hk as [g [<- Hg]].
      apply Hin, group_by_In in Hg. destruct Hg as [[r [Hr Hk]] _].
      exists r. split; [|exact Hr]. rewrite Hk. reflexivity.
    + intros [r [<- Hr]]. exists (key r). split; [reflexivity|].
      apply in_map_iff.
      exists (key r, filter (fun r' => key_eqb (key r') (key r)) rs).
      split; [reflexivity|]. apply Hin, group_by_In. simpl. eauto.
Qed.


(** X18.  Sales-over-time by month and sales-trends report the same months
    in the same order with the same totals: whenever sales-trends
    succeeds, so does sales-over-time by month, and the total_sales of its
    records are the monthly_sales of the records of sales-trends. *)
Theorem sales_over_time_month_agrees_with_trends (t : table) (ts : list dict) :
  sales_trends text_num t = Ok ts ->
  exists os,
    sales_over_time text_num num_text printf_02d "month" t = Ok os
    /\ map (fun r => get r "total_sales") os
       = map (fun r => get r "monthly_sales") ts.
Proof.
  unfold sales_trends. intros H. invert_bind H.
  apply with_growth_Ok in H. destruct H as (HF & _ & _).
  unfold monthly_sales in Hx.
  invert_bind Hx. invert_bind Hx. invert_bind Hx. invert_bind Hx.
  injection Hx as <-. destruct x3.
  unfold sales_over_time. simpl String.eqb. cbv iota.
  rewrite Hx0, Hx1, Hx2. simpl bind.
  unfold period_rows. rewrite Hx3. simpl bind.
  eexists. split; [reflexivity|].
  rewrite (Forall2_map_eq grown (fun r => get r "monthly_sales") _ _ HF)
    by (intros r r' Hg; apply grown_get; [exact Hg|discriminate]).
  pose proof (sql_col_column_name _ _ _ Hx0) as Hyn.
  pose proof (sql_col_column_name _ _ _ Hx1) as Hmn.
  assert (H1 : column_name t x0 <> "monthly_sales")
    by (apply (same_identifier_neq _ _ _ Hyn); reflexivity).
  assert (H2 : column_name t x1 <> "monthly_sales")
    by (apply (same_identifier_neq _ _ _ Hmn); reflexivity).
  apply String.eqb_neq in H1, H2.
  rewrite !map_map. apply map_ext. intros g.
  unfold get. cbn [find fst snd]. now rewrite H1, H2.
Qed.

(** X19.  A period other than day, month and quarter is answered as year.
    By day and by year the records come in strictly ascending order of
    their date, NULL first, one record for each distinct value of the
    ORDERDATE, respectively YEAR_ID, column. *)
Theorem sales_over_time_by_day_or_year (period : string) (t : table) :
  period <> "month" -> period <> "quarter" ->
  (period <> "day" ->
   sales_over_time text_num num_text printf_02d period t
   = sales_over_time text_num num_text printf_02d "year" t)
  /\
  (forall rs,
     sales_over_time text_num num_text printf_02d period t = Ok rs ->
     exists c,
       sql_col t (if String.eqb period "day" then "ORDERDATE" else "YEAR_ID")
       = Ok c
       /\ StronglySorted value_lt (map (fun r => get r "date") rs)
       /\ forall v, In v (map (fun r => get r "date") rs)
                    <-> In v (map (field c) (t_rows t))).
Proof.
  intros Hm Hq. apply String.eqb_neq in Hm, Hq. split.
  - intros Hd. apply String.eqb_neq in Hd.
    unfold sales_over_time. now rewrite Hd, Hm, Hq.
  - intros rs H. unfold sales_over_time in H. rewrite Hm, Hq in H.
    destruct (String.eqb period "day");
      invert_bind H; invert_bind H;
      exists x; (split; [assumption|]);
      apply (period_rows_dates _ _ _ _ H).
Qed.
End OverTimeFacts.


Lemma sales_over_time_month_agrees_with_trends_witness :
  exists os,
    sales_over_time sample_text_num sample_num_text sample_printf_02d
      "month" trends_table = Ok os
    /\ map (fun r => get r "total_sales") os
       = map (fun r => get r "monthly_sales") trends_result.
Proof.
  apply sales_over_time_month_agrees_with_trends.
  vm_compute. reflexivity.
Defined.

Lemma sales_over_time_by_day_or_year_witness :
  sales_over_time sample_text_num sample_num_text sample_printf_02d
    "week" full_table
  = sales_over_time sample_text_num sample_num_text sample_printf_02d
      "year" full_table.
Proof.
  destruct (sales_over_time_by_day_or_year sample_text_num sample_num_text
              sample_printf_02d "week" full_table) as [H _];
    try discriminate.
  apply H. discriminate.
Defined.

(** By year the fractional sales 0.1, 0.2 and 0.3 give the totals 0.1 and
    0.5, which do not add up to the total revenue 0.6000000000000001. *)
Lemma fractional_years_differ :
  exists rs k,
    sales_over_time sample_text_num sample_num_text sample_printf_02d
      "year" fractional_table = Ok rs
    /\ get_kpis sample_text_num fractional_table = Ok k
    /\ map (fun r => get r "total_sales") rs = [float 1 10; float 5 10]
    /\ ~ totals_match rs (get (kpi_row k) "total_revenue").
Proof.
  destruct (sales_over_time sample_text_num sample_num_text sample_printf_02d
              "year" fractional_table) as [rs|e] eqn:Er;
    [|vm_compute in Er; discriminate Er].
  destruct (get_kpis sample_text_num fractional_table) as [k|e] eqn:Ek;
    [|vm_compute in Ek; discriminate Ek].
  exists rs, k. split; [reflexivity|]. split; [reflexivity|].
  vm_compute in Er. injection Er as <-.
  vm_compute in Ek. injection Ek as <-.
  split; [apply values_eqb_eq; vm_compute; reflexivity|].
  unfold totals_match. intros H.
  apply (proj2 (value_eqb_eq _ _)) in H. vm_compute in H. discriminate H.
Qed.

(* ================================================================== *)
(** * More on the pipeline: the store step *)




Section StoreFacts.
Variable isoformat : timestamp -> string.

End StoreFacts.


(** Two columns that differ in case only are refused, whatever else the
    frame holds. *)
Lemma store_refuses_case_duplicates :
  store_in_database sample_isoformat df_case_duplicate
  = Err (DuplicateColumn "STATUS").
Proof. reflexivity. Qed.

(* ================================================================== *)
(** * More on the queries: the records of top-customers *)

Section TopRecords.
Variable text_num : string -> Qc.

(** X21.  Each record of top-customers describes one customer, or one
    order when there is no CUSTOMERNAME column.  For a customer it holds
    the name, the SUM of sales, the number of distinct order numbers and
    the average sale; for an order it holds the order number, the SUM of
    sales and the number of order lines, and no average. *)
Theorem top_customers_records (t : table) (limit : Z) (rs : list dict) :
  top_customers text_num t limit = Ok rs ->
  if pragma_has t "CUSTOMERNAME" then
    exists c s o,
      sql_col t "CUSTOMERNAME" = Ok c /\ sql_col t "SALES" = Ok s
      /\ sql_col t "ORDERNUMBER" = Ok o
      /\ forall r, In r rs ->
           exists v,
             In v (map (field c) (t_rows t))
             /\ let rows := filter (fun row => value_eqb (field c row) v)
                                   (t_rows t) in
                r = [ ("customer_name", v);
                      ("total_sales", sql_sum text_num (map (field s) rows));
                      ("order_count", sql_count_distinct (map (field o) rows));
                      ("avg_order_value",
                        sql_avg text_num (map (field s) rows)) ]
  else
    exists o s,
      sql_col t "ORDERNUMBER" = Ok o /\ sql_col t "SALES" = Ok s
      /\ forall r, In r rs ->
           exists v,
             In v (map (field o) (t_rows t))
             /\ let rows := filter (fun row => value_eqb (field o row) v)
                                   (t_rows t) in
                r = [ ("order_id", v);
                      ("total_sales", sql_sum text_num (map (field s) rows));
                      ("line_items", sql_count rows) ].
Proof.
  unfold top_customers. destruct (pragma_has t "CUSTOMERNAME").
  - unfold top_by_customer. intros H.
    invert_bind H. invert_bind H. invert_bind H. invert_bind H.
    exists x, x0, x1. repeat (split; [assumption|]).
    destruct (limit =? 0)%Z; [injection H as <-; intros r []|].
    invert_bind H. injection H as <-.
    intros r Hr. set (mk := fun g : list value * list (list value) => _) in Hr.
    apply (grouped_record limit "total_sales" x mk (t_rows t) r) in Hr.
    exact Hr.
  - unfold top_by_order. intros H.
    invert_bind H. invert_bind H. invert_bind H.
    exists x, x0. repeat (split; [assumption|]).
    destruct (limit =? 0)%Z; [injection H as <-; intros r []|].
    invert_bind H. injection H as <-.
    intros r Hr. set (mk := fun g : list value * list (list value) => _) in Hr.
    apply (grouped_record limit "total_sales" x mk (t_rows t) r) in Hr.
    exact Hr.
Qed.
End TopRecords.

Lemma top_customers_records_witness :
  exists c s o,
    sql_col full_table "CUSTOMERNAME" = Ok c
    /\ sql_col full_table "SALES" = Ok s
    /\ sql_col full_table "ORDERNUMBER" = Ok o.
Proof.
  destruct (top_customers sample_text_num full_table 2) as [rs|e] eqn:E;
    [|vm_compute in E; discriminate E].
  pose proof (top_customers_records sample_text_num full_table 2 rs E) as H.
  change (pragma_has full_table "CUSTOMERNAME") with true in H. cbv iota in H.
  destruct H as (c & s & o & Hc & Hs & Ho & _).
  exists c, s, o. repeat split; assumption.
Defined.
